(** * Tracked-change text editing of a word-processing document

    A shallow embedding of [docx_edit.py] and [utils/ooxml_helpers.py]
    (the document-creator skill): the element tree, the change-ID
    allocator, the markup synthesizer, the three edit operations and the
    command line, with the pure parts of the spreadsheet scripts,
    followed by the properties of the specification proved on them and
    by further properties of the code. *)

From Stdlib Require Import List String Ascii ZArith Lia Bool Arith Sorted.
Import ListNotations.

Local Open Scope string_scope.

(** ** Python string operations used by the scripts *)

Module PyStr.

(** [drop n s]: the slice [s[n:]]. *)
Fixpoint drop (n : nat) (s : string) : string :=
  match n, s with
  | O, _ => s
  | S _, EmptyString => EmptyString
  | S k, String _ s' => drop k s'
  end.

(** [find sep s]: the text before and after the leftmost occurrence of
    [sep] in [s]; [None] when [sep] does not occur.  The empty [sep]
    occurs at position 0 of every string, as for Python's [in]. *)
Fixpoint find (sep s : string) : option (string * string) :=
  if prefix sep s then Some (EmptyString, drop (length sep) s)
  else match s with
       | EmptyString => None
       | String c s' =>
           match find sep s' with
           | Some (b, a) => Some (String c b, a)
           | None => None
           end
       end.

(** [sub in s] *)
Definition contains (sub s : string) : bool :=
  match find sub s with Some _ => true | None => false end.

(** [s.partition(sep)] for a non-empty [sep]: [(before, sep, after)] at
    the leftmost occurrence, [(s, "", "")] when there is none.  Python
    raises [ValueError] for the empty separator: [None]. *)
Definition partition (sep s : string) : option (string * string * string) :=
  match sep with
  | EmptyString => None
  | _ => match find sep s with
         | Some (b, a) => Some (b, sep, a)
         | None => Some (s, EmptyString, EmptyString)
         end
  end.

(** [s.replace(old, new)] for a non-empty [old]: a left-to-right scan,
    every non-overlapping occurrence substituted.  [skip] counts the
    characters of an occurrence still to be passed over. *)
Fixpoint replace_go (old new : string) (skip : nat) (s : string) : string :=
  match s with
  | EmptyString => EmptyString
  | String c s' =>
      match skip with
      | S k => replace_go old new k s'
      | O => if prefix old s
             then new ++ replace_go old new (length old - 1) s'
             else String c (replace_go old new 0 s')
      end
  end.

(** [s.replace("", new)]: [new] before every character and at the end. *)
Fixpoint interleave (new s : string) : string :=
  match s with
  | EmptyString => new
  | String c s' => new ++ String c (interleave new s')
  end.

Definition replace (old new s : string) : string :=
  match old with
  | EmptyString => interleave new s
  | _ => replace_go old new 0 s
  end.

(** [s.startswith(" ")] and [s.endswith(" ")] *)
Definition startswith_space (s : string) : bool :=
  match s with
  | String c _ => Ascii.eqb c " "%char
  | EmptyString => false
  end.

Fixpoint endswith_space (s : string) : bool :=
  match s with
  | EmptyString => false
  | String c EmptyString => Ascii.eqb c " "%char
  | String _ s' => endswith_space s'
  end.

(** Truthiness of a string: [if s:]. *)
Definition truthy (s : string) : bool :=
  match s with EmptyString => false | _ => true end.

End PyStr.

(** ** Python's [int(s)] and [str(n)] on decimal text *)

Module PyInt.

Local Open Scope Z_scope.

(** Characters are code points below 256.  These are the ones [int]
    skips around a number: tab to carriage return and the blank, and
    the next-line and no-break space characters, which it turns into
    blanks first.  The separators 28 to 31, white space for
    [str.strip], are not among them: [int] raises on them. *)
Definition is_space (c : ascii) : bool :=
  let n := nat_of_ascii c in
  ((9 <=? n)%nat && (n <=? 13)%nat) || (n =? 32)%nat
  || (n =? 133)%nat || (n =? 160)%nat.

Definition digit_val (c : ascii) : option Z :=
  let n := nat_of_ascii c in
  if ((48 <=? n)%nat && (n <=? 57)%nat)%bool then Some (Z.of_nat n - 48) else None.

Fixpoint lstrip (s : string) : string :=
  match s with
  | String c s' => if is_space c then lstrip s' else s
  | EmptyString => EmptyString
  end.

Fixpoint all_space (s : string) : bool :=
  match s with
  | String c s' => is_space c && all_space s'
  | EmptyString => true
  end.

(** The digits after a first digit: single underscores may separate
    digits, white space may follow the last one, nothing else. *)
Fixpoint digits (acc : Z) (s : string) : option Z :=
  match s with
  | EmptyString => Some acc
  | String c s' =>
      match digit_val c with
      | Some d => digits (10 * acc + d) s'
      | None =>
          if Ascii.eqb c "_"%char then
            match s' with
            | String c' s'' =>
                match digit_val c' with
                | Some d => digits (10 * acc + d) s''
                | None => None
                end
            | EmptyString => None
            end
          else if all_space s then Some acc else None
      end
  end.

Definition unsigned (s : string) : option Z :=
  match s with
  | String c s' =>
      match digit_val c with
      | Some d => digits d s'
      | None => None
      end
  | EmptyString => None
  end.

(** The integer a decimal text stands for, whatever its length: white
    space, an optional sign, digits. *)
Definition decimal (s : string) : option Z :=
  match lstrip s with
  | String "-"%char s' => option_map Z.opp (unsigned s')
  | String "+"%char s' => unsigned s'
  | s' => unsigned s'
  end.

(** The limit on the digits of a conversion between [int] and [str]:
    [sys.get_int_max_str_digits()], which is 4300 unless the
    interpreter is told otherwise. *)
Definition max_str_digits : Z := 4300.

(** The digit characters of a text; leading zeros count, the sign, the
    underscores and the white space do not. *)
Fixpoint count_digits (s : string) : Z :=
  match s with
  | EmptyString => 0
  | String c s' =>
      (match digit_val c with Some _ => 1 | None => 0 end) + count_digits s'
  end.

(** [int(s)]: [None] stands for [ValueError], which is also raised for
    a number of more than [max_str_digits] digits. *)
Definition int (s : string) : option Z :=
  if count_digits s <=? max_str_digits then decimal s else None.

Definition digit_char (d : Z) : ascii := ascii_of_nat (Z.to_nat (48 + d)).

(** The decimal digits of [n], least significant first; [fuel] bounds
    the number of digits. *)
Fixpoint rev_digits (fuel : nat) (n : Z) : list ascii :=
  match fuel with
  | O => []
  | S k => digit_char (n mod 10) :: (if n <? 10 then [] else rev_digits k (n / 10))
  end.

Definition str_nonneg (n : Z) : string :=
  string_of_list_ascii (rev (rev_digits (S (Z.to_nat (Z.log2 n))) n)).

(** [str(n)]: the decimal text of [n].  Python gives it for a number of
    up to [max_str_digits] digits and raises [ValueError] beyond; the
    numbers it gives it for are the [printable] ones. *)
Definition str (n : Z) : string :=
  if n <? 0 then String "-"%char (str_nonneg (- n)) else str_nonneg n.

Definition printable (n : Z) : Prop := Z.abs n < 10 ^ max_str_digits.

End PyInt.

(** ** The element tree ([xml.etree.ElementTree.Element]) *)

#[local] Unset Elimination Schemes.

Inductive Element : Type :=
  mkElement (tag : string) (attrib : list (string * string))
            (text : option string) (tail : option string)
            (children : list Element).

#[local] Set Elimination Schemes.

Definition tag (e : Element) : string :=
  match e with mkElement t _ _ _ _ => t end.
Definition attrib (e : Element) : list (string * string) :=
  match e with mkElement _ a _ _ _ => a end.
Definition text (e : Element) : option string :=
  match e with mkElement _ _ x _ _ => x end.
Definition tail (e : Element) : option string :=
  match e with mkElement _ _ _ x _ => x end.
Definition children (e : Element) : list Element :=
  match e with mkElement _ _ _ _ cs => cs end.

(** [ET.Element(tag)]: no attributes, no text, no children. *)
Definition new_element (t : string) : Element := mkElement t [] None None [].

(** [elem.get(key)] *)
Fixpoint dict_get (key : string) (d : list (string * string)) : option string :=
  match d with
  | [] => None
  | (k, v) :: d' => if String.eqb k key then Some v else dict_get key d'
  end.

(** [d[key] = value]: an existing key keeps its place. *)
Fixpoint dict_set (key value : string) (d : list (string * string))
  : list (string * string) :=
  match d with
  | [] => [(key, value)]
  | (k, v) :: d' =>
      if String.eqb k key then (k, value) :: d' else (k, v) :: dict_set key value d'
  end.

Definition get (e : Element) (key : string) : option string :=
  dict_get key (attrib e).

(** [elem.set(key, value)] *)
Definition set (e : Element) (key value : string) : Element :=
  mkElement (tag e) (dict_set key value (attrib e)) (text e) (tail e) (children e).

Definition set_text (e : Element) (x : string) : Element :=
  mkElement (tag e) (attrib e) (Some x) (tail e) (children e).

Definition set_children (e : Element) (cs : list Element) : Element :=
  mkElement (tag e) (attrib e) (text e) (tail e) cs.

(** [elem.append(c)] *)
Definition append (e c : Element) : Element :=
  set_children e (children e ++ [c]).

(** [elem.iter()]: the element and its descendants in document order. *)
Fixpoint iter_all (e : Element) : list Element :=
  match e with
  | mkElement _ _ _ _ cs => e :: flat_map iter_all cs
  end.

(** [elem.iter(t)] *)
Definition iter (t : string) (e : Element) : list Element :=
  filter (fun x => String.eqb (tag x) t) (iter_all e).

(** *** Namespaces and qualified names *)

Definition NAMESPACES_w : string :=
  "http://schemas.openxmlformats.org/wordprocessingml/2006/main".

(** [f"{{{NAMESPACES['w']}}}name"] *)
Definition w (name : string) : string := "{" ++ NAMESPACES_w ++ "}" ++ name.

Definition xml_space : string := "{http://www.w3.org/XML/1998/namespace}space".

(** *** Document Tree Accessor *)

Definition find_paragraphs (root : Element) : list Element := iter (w "p") root.

Definition find_runs (paragraph : Element) : list Element := iter (w "r") paragraph.

(** The text of a leaf as [get_text_content] appends it: nothing for a
    missing or empty text. *)
Definition text_part (t : Element) : string :=
  match text t with
  | Some x => x
  | None => EmptyString
  end.

Definition get_text_content (element : Element) : string :=
  String.concat EmptyString (map text_part (iter (w "t") element)).

(** ** Markup Synthesizer *)

Definition create_text_element (x : string) (preserve_space : bool) : Element :=
  let t := set_text (new_element (w "t")) x in
  if preserve_space && (PyStr.startswith_space x || PyStr.endswith_space x)
  then set t xml_space "preserve"
  else t.

(** [ET.SubElement(parent, t)] *)
Definition SubElement (parent : Element) (t : string) : Element :=
  append parent (new_element t).

Definition create_run (x : string) (bold italic : bool) : Element :=
  let r := new_element (w "r") in
  let r :=
    if bold || italic then
      let rPr := new_element (w "rPr") in
      let rPr := if bold then SubElement rPr (w "b") else rPr in
      let rPr := if italic then SubElement rPr (w "i") else rPr in
      append r rPr
    else r in
  append r (create_text_element x true).

(** [timestamp] is the value [get_timestamp()] returned for this call. *)
Definition create_tracked_insertion
    (x author : string) (change_id : Z) (bold italic : bool) (timestamp : string)
  : Element :=
  let ins := new_element (w "ins") in
  let ins := set ins (w "id") (PyInt.str change_id) in
  let ins := set ins (w "author") author in
  let ins := set ins (w "date") timestamp in
  append ins (create_run x bold italic).

(** The deleted-text leaf of a deletion record. *)
Definition create_del_text (x : string) : Element :=
  let delText := set_text (new_element (w "delText")) x in
  if PyStr.startswith_space x || PyStr.endswith_space x
  then set delText xml_space "preserve"
  else delText.

Definition create_tracked_deletion
    (x author : string) (change_id : Z) (timestamp : string) : Element :=
  let del_elem := new_element (w "del") in
  let del_elem := set del_elem (w "id") (PyInt.str change_id) in
  let del_elem := set del_elem (w "author") author in
  let del_elem := set del_elem (w "date") timestamp in
  let r := new_element (w "r") in
  let r := append r (create_del_text x) in
  append del_elem r.

(** ** Change-ID Allocator *)

(** One turn of the loop of [get_next_change_id]. *)
Definition max_id_step (max_id : Z) (elem : Element) : Z :=
  match get elem (w "id") with
  | Some id_attr =>
      if PyStr.truthy id_attr then
        match PyInt.int id_attr with
        | Some id_val => Z.max max_id id_val
        | None => max_id
        end
      else max_id
  | None => max_id
  end.

Definition get_next_change_id (root : Element) : Z :=
  (fold_left max_id_step (iter_all root) 0 + 1)%Z.

(** ** Positions in the tree

    Python tells elements apart by object identity ([run in list(p)],
    [list(parent).index(run)], [parent.remove(run)]).  Here an element
    of a tree is identified by its path: the child indices leading to it
    from the top. *)

Local Open Scope list_scope.

Definition Path := list nat.

Fixpoint subtree (e : Element) (p : Path) : option Element :=
  match p with
  | [] => Some e
  | i :: p' =>
      match nth_error (children e) i with
      | Some c => subtree c p'
      | None => None
      end
  end.

(** [iter_all e] with the path of every element. *)
Fixpoint located_all (e : Element) : list (Path * Element) :=
  match e with
  | mkElement _ _ _ _ cs =>
      ([], e) :: (fix go (i : nat) (l : list Element) : list (Path * Element) :=
                    match l with
                    | [] => []
                    | c :: l' =>
                        map (fun px => (i :: fst px, snd px)) (located_all c)
                        ++ go (S i) l'
                    end) 0%nat cs
  end.

(** [elem.iter(t)] with paths, and the paths alone. *)
Definition iter_located (t : string) (e : Element) : list (Path * Element) :=
  filter (fun px => String.eqb (tag (snd px)) t) (located_all e).

Definition iter_paths (t : string) (e : Element) : list Path :=
  map fst (iter_located t e).

Fixpoint update_nth {A} (i : nat) (f : A -> A) (l : list A) : list A :=
  match l, i with
  | [], _ => []
  | x :: l', O => f x :: l'
  | x :: l', S k => x :: update_nth k f l'
  end.

(** Apply [f] to the element at path [p]. *)
Fixpoint update_at (p : Path) (f : Element -> Element) (e : Element) : Element :=
  match p with
  | [] => f e
  | i :: p' => set_children e (update_nth i (update_at p' f) (children e))
  end.

(** [del l[i]] *)
Fixpoint remove_at {A} (i : nat) (l : list A) : list A :=
  match l, i with
  | [], _ => []
  | _ :: l', O => l'
  | x :: l', S k => x :: remove_at k l'
  end.

(** [l.insert(i, x)]: past the end, [x] is appended. *)
Fixpoint insert_at {A} (i : nat) (x : A) (l : list A) : list A :=
  match i, l with
  | O, _ => x :: l
  | S _, [] => [x]
  | S k, y :: l' => y :: insert_at k x l'
  end.

(** A path split into the path of the parent and the index in it. *)
Fixpoint split_last (p : Path) : option (Path * nat) :=
  match p with
  | [] => None
  | [i] => Some ([], i)
  | i :: p' =>
      match split_last p' with
      | Some (q, j) => Some (i :: q, j)
      | None => None
      end
  end.

(** [strip_prefix q p]: what follows [q] in [p], when [p] starts with [q]. *)
Fixpoint strip_prefix (q p : Path) : option Path :=
  match q, p with
  | [], _ => Some p
  | i :: q', j :: p' => if Nat.eqb i j then strip_prefix q' p' else None
  | _ :: _, [] => None
  end.

(** ** Results and the state of an edit *)

(** The exceptions of Python that the scripts can raise.  [Impossible]
    is none of them: the model returns it at the places where the code
    cannot be, and [replace_text_possible] shows that it never comes
    out. *)
Inductive Error : Type :=
  FileNotFoundError | ParseError | ValueError | Impossible.

Inductive result (A : Type) : Type :=
| Ok (a : A)
| Raise (e : Error).

Arguments Ok {A} a.
Arguments Raise {A} e.

(** The local variables an edit threads through its loops, and [clock],
    the number of [get_timestamp()] calls made so far. *)
Record EditState : Type := mkState {
  change_id : Z;
  replacements : nat;
  clock : nat
}.

(** A run of the list [runs = list(find_runs(para))]: still in the
    paragraph, at a path, or cut off from it with the run that
    contained it (the object lives on in the list). *)
Inductive Handle : Type :=
| Attached (p : Path)
| Detached (e : Element).

Definition resolve (para : Element) (h : Handle) : option Element :=
  match h with
  | Attached p => subtree para p
  | Detached e => Some e
  end.

Definition children_at (e : Element) (p : Path) : list Element :=
  match subtree e p with
  | Some x => children x
  | None => []
  end.

(** [for t in run.iter(w:t): t.text = x; break] *)
Definition set_first_text (run : Element) (x : string) : Element :=
  match iter_paths (w "t") run with
  | p :: _ => update_at p (fun t => set_text t x) run
  | [] => run
  end.

(** Where a run of the list is after the child [i] of the element at
    [q] (the run [old]) gave way to [k] new children: inside [old] it is
    cut off, to the right of it in the same parent it has moved by
    [k - 1], anywhere else it stays. *)
Definition adjust (q : Path) (i k : nat) (old : Element) (h : Handle) : Handle :=
  match h with
  | Detached e => Detached e
  | Attached p =>
      match strip_prefix q p with
      | Some (j :: p') =>
          if Nat.eqb j i then
            match subtree old p' with
            | Some x => Detached x
            | None => Attached p
            end
          else if Nat.ltb i j then Attached (q ++ (j + k - 1)%nat :: p')
          else Attached p
      | _ => Attached p
      end
  end.

Section Engine.

(** [get_timestamp n]: what the call number [n] of [get_timestamp()]
    returns during the operation. *)
Variable get_timestamp : nat -> string.

Variables (find_text replace_with author : string) (track_changes : bool).

(** Lines 95-125 of [replace_text], on [list(parent)]: the tracked
    branch for the run at [run_index] among [siblings]. *)
Definition tracked_splice (st : EditState) (run_text : string)
    (run_index : nat) (siblings : list Element)
  : result (list Element * EditState) :=
  let del_elem :=
    create_tracked_deletion find_text author (change_id st)
                            (get_timestamp (clock st)) in
  let change_id1 := (change_id st + 1)%Z in
  let ins_elem :=
    create_tracked_insertion replace_with author change_id1 false false
                             (get_timestamp (S (clock st))) in
  let change_id2 := (change_id1 + 1)%Z in
  match PyStr.partition find_text run_text with
  | None => Raise ValueError
  | Some (before, _, after) =>
      let l := remove_at run_index siblings in
      let insert_index := run_index in
      let '(l, insert_index) :=
        if PyStr.truthy before
        then (insert_at insert_index (create_run before false false) l,
              S insert_index)
        else (l, insert_index) in
      let l := insert_at insert_index del_elem l in
      let insert_index := S insert_index in
      let l := insert_at insert_index ins_elem l in
      let insert_index := S insert_index in
      let l :=
        if PyStr.truthy after
        then insert_at insert_index (create_run after false false) l
        else l in
      Ok (l, mkState change_id2 (replacements st) (clock st + 2))
  end.

(** Lines 127-134: the untracked branch, on the run. *)
Definition untracked_edit (run : Element) (run_text : string) : Element :=
  let new_text := PyStr.replace find_text replace_with run_text in
  set_first_text run new_text.

Definition count_replacement (st : EditState) : EditState :=
  mkState (change_id st) (S (replacements st)) (clock st).

(** The loop [for run in runs] of [replace_text]; [moved] tells where
    each run of the list is by now.  A run that is no longer under
    [para] has no parent there: [parent] falls back to [para] and
    [list(parent).index(run)] raises [ValueError]; so does a run that
    is [para] itself. *)
Fixpoint replace_in_runs (para : Element) (st : EditState)
    (moved : Handle -> Handle) (runs : list Handle)
  : result (Element * EditState) :=
  match runs with
  | [] => Ok (para, st)
  | h0 :: rest =>
      let h := moved h0 in
      match resolve para h with
      | None => Raise Impossible
      | Some run =>
          let run_text := get_text_content run in
          if negb (PyStr.contains find_text run_text)
          then replace_in_runs para st moved rest
          else
            match h with
            | Detached _ => Raise ValueError
            | Attached p =>
                match split_last p with
                | None => Raise ValueError
                | Some (q, run_index) =>
                    if track_changes then
                      let siblings := children_at para q in
                      match tracked_splice st run_text run_index siblings with
                      | Raise e => Raise e
                      | Ok (l, st') =>
                          let para' :=
                            update_at q (fun parent => set_children parent l) para in
                          let k := (List.length l + 1 - List.length siblings)%nat in
                          replace_in_runs para' (count_replacement st')
                            (fun x => adjust q run_index k run (moved x)) rest
                      end
                    else
                      let para' :=
                        update_at p (fun r => untracked_edit r run_text) para in
                      replace_in_runs para' (count_replacement st) moved rest
                end
            end
      end
  end.

(** The body of [for para in find_paragraphs(root)]. *)
Definition replace_in_paragraph (para : Element) (st : EditState)
  : result (Element * EditState) :=
  let para_text := get_text_content para in
  if negb (PyStr.contains find_text para_text) then Ok (para, st)
  else replace_in_runs para st (fun h => h)
         (map Attached (iter_paths (w "r") para)).

(** The loop [for para in find_paragraphs(root)] from the element [e]
    on.  The iterator hands out an element before it looks at the
    element's children, so the body has run on a paragraph when the
    iteration goes on below it, in the children as the body left them.
    Nothing is handed out below an element without paragraphs.  [fuel]
    bounds the nesting of paragraphs; [None] when it does not suffice. *)
Definition is_paragraph (e : Element) : bool := String.eqb (tag e) (w "p").

Definition has_paragraph (e : Element) : bool := existsb is_paragraph (iter_all e).

(** The children of an element in turn, each by [visit]. *)
Fixpoint replace_children
    (visit : Element -> EditState -> option (result (Element * EditState)))
    (cs : list Element) (st : EditState)
  : option (result (list Element * EditState)) :=
  match cs with
  | [] => Some (Ok ([], st))
  | c :: cs' =>
      match visit c st with
      | None => None
      | Some (Raise err) => Some (Raise err)
      | Some (Ok (c', st')) =>
          match replace_children visit cs' st' with
          | None => None
          | Some (Raise err) => Some (Raise err)
          | Some (Ok (l, st'')) => Some (Ok (c' :: l, st''))
          end
      end
  end.

Fixpoint replace_from (fuel : nat) (e : Element) (st : EditState)
  : option (result (Element * EditState)) :=
  if negb (has_paragraph e) then Some (Ok (e, st))
  else
    match fuel with
    | O => None
    | S fuel' =>
        match (if is_paragraph e then replace_in_paragraph e st else Ok (e, st)) with
        | Raise err => Some (Raise err)
        | Ok (e1, st1) =>
            match replace_children (replace_from fuel') (children e1) st1 with
            | None => None
            | Some (Raise err) => Some (Raise err)
            | Some (Ok (l, st2)) => Some (Ok (set_children e1 l, st2))
            end
        end
    end.

End Engine.

(** The depth to which paragraphs nest in [e], counted in elements:
    0 when [e] holds no paragraph. *)
Fixpoint paragraph_depth (e : Element) : nat :=
  match e with
  | mkElement t _ _ _ cs =>
      let d := fold_right (fun c m => Nat.max (paragraph_depth c) m) 0%nat cs in
      if String.eqb t (w "p") || Nat.ltb 0 d then S d else 0%nat
  end.

(** ** [insert_text_after]: the edit of the first matching run *)

Section Insert.

Variable get_timestamp : nat -> string.
Variables (after_text new_text author : string) (track_changes : bool).
Variable change_id0 : Z.

(** Lines 180-217, for the run at path [p] of [para]. *)
Definition insert_at_run (para : Element) (p : Path) (run_text : string)
  : result Element :=
  match split_last p with
  | None => Raise ValueError
  | Some (q, run_index) =>
      match PyStr.partition after_text run_text with
      | None => Raise ValueError
      | Some (before, _, after) =>
          let full_before := (before ++ after_text)%string in
          let l := remove_at run_index (children_at para q) in
          let insert_index := run_index in
          let l := insert_at insert_index (create_run full_before false false) l in
          let insert_index := S insert_index in
          let l :=
            if track_changes
            then insert_at insert_index
                   (create_tracked_insertion new_text author change_id0 false false
                                             (get_timestamp 0%nat)) l
            else insert_at insert_index (create_run new_text false false) l in
          let insert_index := S insert_index in
          let l :=
            if PyStr.truthy after
            then insert_at insert_index (create_run after false false) l
            else l in
          Ok (update_at q (fun parent => set_children parent l) para)
      end
  end.

(** [for run in find_runs(para)]: [None] when no run matches. *)
Fixpoint insert_in_runs (para : Element) (runs : list (Path * Element))
  : option (result Element) :=
  match runs with
  | [] => None
  | (p, run) :: rest =>
      let run_text := get_text_content run in
      if negb (PyStr.contains after_text run_text)
      then insert_in_runs para rest
      else Some (insert_at_run para p run_text)
  end.

(** [for para in find_paragraphs(root)]: the tree as it is to be saved,
    or [None] when the loop ends without a match. *)
Fixpoint insert_in_paragraphs (root : Element) (paras : list (Path * Element))
  : option (result Element) :=
  match paras with
  | [] => None
  | (pp, para) :: rest =>
      let para_text := get_text_content para in
      if negb (PyStr.contains after_text para_text)
      then insert_in_paragraphs root rest
      else
        match insert_in_runs para (iter_located (w "r") para) with
        | None => insert_in_paragraphs root rest
        | Some (Raise err) => Some (Raise err)
        | Some (Ok para') => Some (Ok (update_at pp (fun _ => para') root))
        end
  end.

End Insert.

(** ** The unpacked folder and the three operations *)

Section Operations.

(** File contents, the XML parser ([None]: malformed) and the
    serializer of [tree.write(f, encoding="UTF-8", xml_declaration=True)]. *)
Variable Bytes : Type.
Variable parse : Bytes -> option Element.
Variable serialize : Element -> Bytes.
Variable get_timestamp : nat -> string.

(** [word/document.xml] and [word/settings.xml]; [None]: no such file. *)
Record Folder : Type := mkFolder {
  document_xml : option Bytes;
  settings_xml : option Bytes
}.

Definition parse_document (folder : Folder) : result Element :=
  match document_xml folder with
  | None => Raise FileNotFoundError
  | Some b =>
      match parse b with
      | Some root => Ok root
      | None => Raise ParseError
      end
  end.

Definition save_document (root : Element) (folder : Folder) : Folder :=
  mkFolder (Some (serialize root)) (settings_xml folder).

(** [root.insert(0, c)] *)
Definition insert_first (root c : Element) : Element :=
  set_children root (insert_at 0 c (children root)).

(** [root.find(".//t")]: the first descendant with tag [t]. *)
Definition find_descendant (t : string) (root : Element) : option Element :=
  List.find (fun x => String.eqb (tag x) t) (flat_map iter_all (children root)).

Definition enable_track_changes (folder : Folder) : result Folder :=
  let loaded :=
    match settings_xml folder with
    | None => Ok (set (new_element (w "settings")) "xmlns:w" NAMESPACES_w)
    | Some b =>
        match parse b with
        | Some root => Ok root
        | None => Raise ParseError
        end
    end in
  match loaded with
  | Raise err => Raise err
  | Ok root =>
      let root :=
        match find_descendant (w "trackRevisions") root with
        | None => insert_first root (new_element (w "trackRevisions"))
        | Some _ => root
        end in
      Ok (mkFolder (document_xml folder) (Some (serialize root)))
  end.

(** The operations return what Python returns or raises, and the folder
    as they leave it. *)
Definition replace_text (folder : Folder) (find_text replace_with : string)
    (track_changes : bool) (author : string) : result nat * Folder :=
  match parse_document folder with
  | Raise err => (Raise err, folder)
  | Ok root =>
      let change_id := if track_changes then get_next_change_id root else 0%Z in
      match (if track_changes then enable_track_changes folder else Ok folder) with
      | Raise err => (Raise err, folder)
      | Ok folder1 =>
          match replace_from get_timestamp find_text replace_with author
                  track_changes (paragraph_depth root) root
                  (mkState change_id 0 0)
          with
          | None => (Raise Impossible, folder1)
          | Some (Raise err) => (Raise err, folder1)
          | Some (Ok (root', st)) =>
              (Ok (replacements st), save_document root' folder1)
          end
      end
  end.

Definition insert_text_after (folder : Folder) (after_text new_text : string)
    (track_changes : bool) (author : string) : result bool * Folder :=
  match parse_document folder with
  | Raise err => (Raise err, folder)
  | Ok root =>
      let change_id := if track_changes then get_next_change_id root else 0%Z in
      match (if track_changes then enable_track_changes folder else Ok folder) with
      | Raise err => (Raise err, folder)
      | Ok folder1 =>
          match insert_in_paragraphs get_timestamp after_text new_text author
                  track_changes change_id root (iter_located (w "p") root)
          with
          | Some (Raise err) => (Raise err, folder1)
          | Some (Ok root') => (Ok true, save_document root' folder1)
          | None => (Ok false, folder1)
          end
      end
  end.

Definition delete_text (folder : Folder) (text_to_delete : string)
    (track_changes : bool) (author : string) : result nat * Folder :=
  if track_changes
  then replace_text folder text_to_delete EmptyString track_changes author
  else replace_text folder text_to_delete EmptyString false author.

End Operations.

(** ** The search helper, the escaping and the revision ID *)

(** [find_text(root, search_text)]: the (paragraph, run) pairs, each
    element with its path: the paragraph's in [root], the run's in the
    paragraph. *)
Definition find_text (root : Element) (search_text : string)
  : list ((Path * Element) * (Path * Element)) :=
  fold_left
    (fun results p =>
       let para_text := get_text_content (snd p) in
       if PyStr.contains search_text para_text then
         fold_left
           (fun results r =>
              let run_text := get_text_content (snd r) in
              if PyStr.contains search_text run_text
              then results ++ [(p, r)]
              else results)
           (iter_located (w "r") (snd p)) results
       else results)
    (iter_located (w "p") root) [].

(** The double quote, as a string. *)
Definition quot : string := String "034"%char EmptyString.

(** [escape_xml_text(text)]: the five replacements, one after the other
    over the whole text, the ampersand first. *)
Definition escape_xml_text (text : string) : string :=
  let replacements :=
    [("&", "&amp;"); ("<", "&lt;"); (">", "&gt;"); (quot, "&quot;");
     ("'", "&apos;")] in
  fold_left (fun result old_new =>
               PyStr.replace (fst old_new) (snd old_new) result)
            replacements text.

(** ** [generate_rsid]: [f"{random.randint(0, 0xFFFFFFFF):08X}"] *)

Module PyFormat.

Local Open Scope Z_scope.

(** The upper-case hexadecimal digit for [d]. *)
Definition hex_char (d : Z) : ascii :=
  if d <? 10 then ascii_of_nat (Z.to_nat (48 + d))
  else ascii_of_nat (Z.to_nat (55 + d)).

(** The hexadecimal digits of [n], least significant first; [fuel]
    bounds their number. *)
Fixpoint rev_hex (fuel : nat) (n : Z) : list ascii :=
  match fuel with
  | O => []
  | S k => hex_char (n mod 16) :: (if n <? 16 then [] else rev_hex k (n / 16))
  end.

(** [format(n, "X")] for [n >= 0] *)
Definition upper_hex (n : Z) : string :=
  string_of_list_ascii (rev (rev_hex (S (Z.to_nat (Z.log2 n))) n)).

(** [k] zeros before [s]. *)
Fixpoint zeros (k : nat) (s : string) : string :=
  match k with
  | O => s
  | S k' => String "0"%char (zeros k' s)
  end.

(** Zero fill to [width] characters; longer text is left as it is. *)
Definition zfill (width : nat) (s : string) : string :=
  zeros (width - String.length s) s.

(** [f"{n:08X}"]: the sign comes before the zeros. *)
Definition format_08X (n : Z) : string :=
  if n <? 0 then String "-"%char (zfill 7 (upper_hex (- n)))
  else zfill 8 (upper_hex n).

End PyFormat.

(** [randint] is [random.randint] as it answers this call. *)
Definition generate_rsid (randint : Z -> Z -> Z) : string :=
  PyFormat.format_08X (randint 0%Z 4294967295%Z).

(** ** The command line: [main] of [docx_edit.py] *)

(** [args.action]: the parser admits these three. *)
Inductive Action : Type := ActionReplace | ActionInsert | ActionDelete.

(** What [parser.parse_args()] returns; [None] for an option that was
    not given. *)
Record Args : Type := mkArgs {
  args_folder : string;
  args_action : Action;
  args_find : option string;
  args_replace : option string;
  args_after : option string;
  args_text : option string;
  args_track_changes : bool;
  args_author : string
}.

(** What the process has printed, and its exit status. *)
Record Output : Type := mkOutput {
  stdout : list string;
  stderr : list string;
  exit_status : Z
}.

(** Truthiness of an optional string: [None] and [""] are false. *)
Definition given (o : option string) : bool :=
  match o with
  | Some s => PyStr.truthy s
  | None => false
  end.

(** [a or b] *)
Definition py_or (a b : option string) : option string :=
  if given a then a else b.

Section CommandLine.

Variable Bytes : Type.
Variable parse : Bytes -> option Element.
Variable serialize : Element -> Bytes.
Variable get_timestamp : nat -> string.

(** [str(e)] for the exceptions the libraries raise. *)
Variable describe : Error -> string.

(** [str(e)]: [parse_document] words its own [FileNotFoundError]. *)
Definition exception_text (folder_path : string) (e : Error) : string :=
  match e with
  | FileNotFoundError => ("document.xml not found in " ++ folder_path)%string
  | _ => describe e
  end.

(** [print(..., file=sys.stderr); sys.exit(1)] *)
Definition exit_with (line : string) (world : option (Folder Bytes))
  : Output * option (Folder Bytes) :=
  (mkOutput [] [line] 1, world).

(** The end of the [try] block: the line printed for the value
    returned, or the handler of [except Exception]. *)
Definition report {A : Type} (folder_path : string)
    (outcome : result A * Folder Bytes) (line : A -> string)
  : Output * option (Folder Bytes) :=
  match outcome with
  | (Ok v, folder) => (mkOutput [line v] [] 0, Some folder)
  | (Raise e, folder) =>
      exit_with ("Error: " ++ exception_text folder_path e)%string (Some folder)
  end.

(** [world] is what is at [args.folder]: nothing, or the folder. *)
Definition main (args : Args) (world : option (Folder Bytes))
  : Output * option (Folder Bytes) :=
  match world with
  | None => exit_with ("Error: Folder not found: " ++ args_folder args)%string world
  | Some folder =>
      match args_action args with
      | ActionReplace =>
          match args_find args with
          | Some find =>
              if negb (PyStr.truthy find)
              then exit_with "Error: --find is required for replace action" world
              else
                match args_replace args with
                | None =>
                    exit_with "Error: --replace is required for replace action"
                              world
                | Some replace =>
                    report (args_folder args)
                      (replace_text Bytes parse serialize get_timestamp folder
                         find replace (args_track_changes args)
                         (args_author args))
                      (fun count =>
                         ("Made " ++ PyInt.str (Z.of_nat count)
                          ++ " replacement(s)")%string)
                end
          | None => exit_with "Error: --find is required for replace action" world
          end
      | ActionInsert =>
          match args_after args with
          | Some after =>
              if negb (PyStr.truthy after)
              then exit_with "Error: --after is required for insert action" world
              else
                match args_text args with
                | Some text =>
                    if negb (PyStr.truthy text)
                    then exit_with "Error: --text is required for insert action"
                                   world
                    else
                      report (args_folder args)
                        (insert_text_after Bytes parse serialize get_timestamp
                           folder after text (args_track_changes args)
                           (args_author args))
                        (fun success : bool =>
                           if success then "Insertion successful"
                           else "Text not found, no insertion made")
                | None =>
                    exit_with "Error: --text is required for insert action" world
                end
          | None => exit_with "Error: --after is required for insert action" world
          end
      | ActionDelete =>
          if negb (given (args_find args)) && negb (given (args_text args))
          then exit_with "Error: --find or --text is required for delete action"
                         world
          else
            match py_or (args_find args) (args_text args) with
            | Some text_to_del =>
                report (args_folder args)
                  (delete_text Bytes parse serialize get_timestamp folder
                     text_to_del (args_track_changes args) (args_author args))
                  (fun count =>
                     ("Made " ++ PyInt.str (Z.of_nat count)
                      ++ " deletion(s)")%string)
            | None =>
                (* not reached: one of the two is given *)
                report (args_folder args)
                  (Raise Impossible : result nat, folder) (fun _ => EmptyString)
            end
      end
  end.

End CommandLine.

(** ** [xlsx_create.py]: the name of an added sheet *)

(** [x in l] for a list of strings *)
Definition str_in (x : string) (l : list string) : bool :=
  existsb (String.eqb x) l.

(** The loop [while sheet_name in wb.sheetnames] of
    [add_sheet_to_workbook]; [fuel] bounds its turns, [None] when it
    does not suffice. *)
Fixpoint rename_loop (fuel : nat) (sheetnames : list string)
    (base_name sheet_name : string) (counter : Z) : option string :=
  if str_in sheet_name sheetnames then
    match fuel with
    | O => None
    | S fuel' =>
        let sheet_name := (base_name ++ "_" ++ PyInt.str counter)%string in
        let counter := (counter + 1)%Z in
        rename_loop fuel' sheetnames base_name sheet_name counter
    end
  else Some sheet_name.

(** Lines 262-271: the title the new sheet is created with; [name] is
    the name of [sheet_spec], a string, if it has one. *)
Definition added_sheet_name (fuel : nat) (sheetnames : list string)
    (name : option string) : option string :=
  let sheet_name := match name with Some n => n | None => "Sheet" end in
  if str_in sheet_name sheetnames then
    let base_name := sheet_name in
    let counter := 1%Z in
    rename_loop fuel sheetnames base_name sheet_name counter
  else Some sheet_name.

(** ** [xlsx_create.py]: cell ranges *)

Module PyText.

(** [s.split(sep)] for a separator of one character. *)
Fixpoint split (sep : ascii) (s : string) : list string :=
  match s with
  | EmptyString => [EmptyString]
  | String c s' =>
      if Ascii.eqb c sep then EmptyString :: split sep s'
      else match split sep s' with
           | part :: parts => String c part :: parts
           | [] => [String c EmptyString]
           end
  end.

(** The white space of [str.strip] among the code points below 256. *)
Definition is_space (c : ascii) : bool :=
  let n := nat_of_ascii c in
  ((9 <=? n)%nat && (n <=? 13)%nat) || ((28 <=? n)%nat && (n <=? 32)%nat)
  || (n =? 133)%nat || (n =? 160)%nat.

(** [s.lstrip()] *)
Fixpoint lstrip (s : string) : string :=
  match s with
  | String c s' => if is_space c then lstrip s' else s
  | EmptyString => EmptyString
  end.

(** [s.rstrip()] *)
Fixpoint rstrip (s : string) : string :=
  match s with
  | EmptyString => EmptyString
  | String c s' =>
      match rstrip s' with
      | EmptyString => if is_space c then EmptyString
                       else String c EmptyString
      | r => String c r
      end
  end.

(** [s.strip()] *)
Definition strip (s : string) : string := rstrip (lstrip s).

End PyText.

Definition parse_cell_range (range_str : string) : result (string * string) :=
  if PyStr.contains ":" range_str then
    match PyText.split ":" range_str with
    | [start; end_] => Ok (PyText.strip start, PyText.strip end_)
    | _ => Raise ValueError
    end
  else Ok (PyText.strip range_str, PyText.strip range_str).

(** ** [xlsx_recalc.py]: the scan for error values *)

Definition EXCEL_ERRORS : list string :=
  ["#VALUE!"; "#DIV/0!"; "#REF!"; "#NAME?"; "#NULL!"; "#NUM!"; "#N/A";
   "#GETTING_DATA"; "#SPILL!"; "#CALC!"].

(** [cell.value]: nothing, a string, or a value of another type. *)
Inductive CellValue : Type :=
| NoValue
| StrValue (s : string)
| OtherValue.

Record Cell : Type := mkCell {
  coordinate : string;
  value : CellValue
}.

(** A worksheet: its title and the rows of [ws.iter_rows()]. *)
Record Worksheet : Type := mkWorksheet {
  title : string;
  iter_rows : list (list Cell)
}.

(** A workbook: its sheets, in the order of [wb.sheetnames]. *)
Definition Workbook : Type := list Worksheet.

Definition sheetnames (wb : Workbook) : list string := map title wb.

(** [wb[sheet_name]] *)
Definition sheet_named (wb : Workbook) (sheet_name : string) : option Worksheet :=
  List.find (fun ws => String.eqb (title ws) sheet_name) wb.

(** [error_details[err].append(location)] *)
Definition append_location (err location : string)
    (error_details : list (string * list string)) : list (string * list string) :=
  map (fun kv => if String.eqb (fst kv) err
                 then (fst kv, snd kv ++ [location]) else kv)
      error_details.

(** The loop [for err in EXCEL_ERRORS] with its [break], for one cell. *)
Definition scan_cell (sheet_name : string)
    (acc : list (string * list string) * nat) (cell : Cell)
  : list (string * list string) * nat :=
  match value cell with
  | StrValue v =>
      match List.find (fun err => PyStr.contains err v) EXCEL_ERRORS with
      | Some err =>
          let location := (sheet_name ++ "!" ++ coordinate cell)%string in
          (append_location err location (fst acc), S (snd acc))
      | None => acc
      end
  | _ => acc
  end.

Definition scan_sheet (wb : Workbook)
    (acc : list (string * list string) * nat) (sheet_name : string)
  : list (string * list string) * nat :=
  match sheet_named wb sheet_name with
  | Some ws =>
      fold_left (fun acc row => fold_left (scan_cell sheet_name) row acc)
                (iter_rows ws) acc
  | None => acc
  end.

(** [cell.value and isinstance(cell.value, str) and
    cell.value.startswith("=")] *)
Definition holds_formula (cell : Cell) : bool :=
  match value cell with
  | StrValue v => PyStr.truthy v && prefix "=" v
  | _ => false
  end.

Definition count_formulas (wb : Workbook) : nat :=
  fold_left
    (fun formula_count sheet_name =>
       match sheet_named wb sheet_name with
       | Some ws =>
           fold_left
             (fun formula_count row =>
                fold_left (fun formula_count cell =>
                             if holds_formula cell then S formula_count
                             else formula_count)
                          row formula_count)
             (iter_rows ws) formula_count
       | None => formula_count
       end)
    (sheetnames wb) 0.

(** The dictionary returned. *)
Inductive ScanResult : Type :=
| CouldNotLoad (error : string)
| Scanned (status : string) (total_errors : nat) (total_formulas : Z)
          (error_summary : list (string * (nat * list string))).

(** [loaded_values] and [loaded_formulas] are the outcomes of the two
    [load_workbook] calls: the workbook, or the text of the exception. *)
Definition scan_for_errors (loaded_values loaded_formulas : string + Workbook)
  : ScanResult :=
  match loaded_values with
  | inl e => CouldNotLoad ("Could not load file: " ++ e)%string
  | inr wb =>
      let error_details := map (fun err => (err, @nil string)) EXCEL_ERRORS in
      let total_errors := 0 in
      let '(error_details, total_errors) :=
        fold_left (scan_sheet wb) (sheetnames wb) (error_details, total_errors) in
      let formula_count :=
        match loaded_formulas with
        | inr wb_formulas => Z.of_nat (count_formulas wb_formulas)
        | inl _ => (-1)%Z
        end in
      let error_summary :=
        map (fun kv => (fst kv, (List.length (snd kv), firstn 20 (snd kv))))
            (filter (fun kv => match snd kv with [] => false | _ :: _ => true end)
                    error_details) in
      Scanned (if Nat.eqb total_errors 0 then "success" else "errors_found")
              total_errors formula_count error_summary
  end.

(** * The vocabulary of the properties *)

(** ** Induction on element trees *)

Section ElementInd.

Variable Q : Element -> Prop.
Hypothesis Q_node :
  forall t a x tl cs, Forall Q cs -> Q (mkElement t a x tl cs).

Fixpoint Element_ind (e : Element) : Q e :=
  match e with
  | mkElement t a x tl cs =>
      Q_node t a x tl cs
        ((fix all (l : list Element) : Forall Q l :=
            match l with
            | [] => Forall_nil Q
            | c :: l' => Forall_cons c (Element_ind c) (all l')
            end) cs)
  end.

End ElementInd.

(** The paths and elements of a list of siblings, the first of them
    being child [i]. *)
Fixpoint located_list (i : nat) (l : list Element) : list (Path * Element) :=
  match l with
  | [] => []
  | c :: l' =>
      map (fun px => (i :: fst px, snd px)) (located_all c)
      ++ located_list (S i) l'
  end.

(** The element with every text erased: what is left is the markup. *)
Fixpoint without_text (e : Element) : Element :=
  match e with
  | mkElement t a _ tl cs => mkElement t a None tl (map without_text cs)
  end.

(** ** Leaves, identifiers, counts *)

Definition preserves_space (leaf : Element) : Prop :=
  get leaf xml_space = Some "preserve".

(** The plain run for a piece of text, if the piece is not empty. *)
Definition plain_run (x : string) : list Element :=
  if PyStr.truthy x then [create_run x false false] else [].

(** The integer an element's identifier attribute stands for, if any,
    whatever the length of the attribute. *)
Definition id_value (e : Element) : option Z :=
  match get e (w "id") with
  | Some a => PyInt.decimal a
  | None => None
  end.

Definition ids_of (l : list Element) : list Z :=
  flat_map (fun e => match id_value e with Some z => [z] | None => [] end) l.

(** The identifiers present in a tree, in document order. *)
Definition change_ids (root : Element) : list Z := ids_of (iter_all root).

(** The identifier as [get_next_change_id] reads it: [int] raises on an
    attribute of more than [PyInt.max_str_digits] digits, and the loop
    passes the attribute over. *)
Definition read_value (e : Element) : option Z :=
  match get e (w "id") with
  | Some a => PyInt.int a
  | None => None
  end.

Definition read_of (l : list Element) : list Z :=
  flat_map (fun e => match read_value e with Some z => [z] | None => [] end) l.

(** The identifiers of a tree that [get_next_change_id] reads. *)
Definition read_ids (root : Element) : list Z := read_of (iter_all root).

(** An element whose identifier attribute, if it has one, has no more
    digits than [int] reads. *)
Definition short_id (e : Element) : bool :=
  match get e (w "id") with
  | Some a => (PyInt.count_digits a <=? PyInt.max_str_digits)%Z
  | None => true
  end.

(** A tree of such elements: [get_next_change_id] reads every
    identifier there is. *)
Definition readable (root : Element) : bool := forallb short_id (iter_all root).

(** The greatest of 0 and the members of [l]. *)
Definition max0 (l : list Z) : Z := fold_right Z.max 0%Z l.

(** How often [z] is an identifier in a tree, and in a list of trees. *)
Definition cnt (z : Z) (e : Element) : nat :=
  count_occ Z.eq_dec (change_ids e) z.

Definition cnts (z : Z) (cs : list Element) : nat :=
  count_occ Z.eq_dec (ids_of (flat_map iter_all cs)) z.

Definition own (z : Z) (e : Element) : nat :=
  count_occ Z.eq_dec (ids_of [e]) z.

(** An identifier in the range handed out between two states. *)
Definition handed_out (c c' z : Z) : nat :=
  if ((c <=? z) && (z <? c'))%Z then 1 else 0.

(** From [(e, st)] to [(e', st')] the counter has only grown, by two
    per replacement counted, and no identifier has become more frequent
    in the tree unless it was handed out in between, and then by one. *)
Definition allocates (e : Element) (st : EditState)
           (e' : Element) (st' : EditState) : Prop :=
  (change_id st <= change_id st')%Z /\
  replacements st <= replacements st' /\
  change_id st' = (change_id st
                   + 2 * Z.of_nat (replacements st' - replacements st))%Z /\
  forall z, cnt z e' <= cnt z e + handed_out (change_id st) (change_id st') z.

(** The same for a list of siblings. *)
Definition allocates_list (cs : list Element) (st : EditState)
           (cs' : list Element) (st' : EditState) : Prop :=
  (change_id st <= change_id st')%Z /\
  replacements st <= replacements st' /\
  change_id st' = (change_id st
                   + 2 * Z.of_nat (replacements st' - replacements st))%Z /\
  forall z, cnts z cs' <= cnts z cs + handed_out (change_id st) (change_id st') z.

(** The value of a digit character, and of a list of them read from
    the least significant digit on. *)
Definition dval (c : ascii) : Z := (Z.of_nat (nat_of_ascii c) - 48)%Z.

Definition lsd_value (l : list ascii) : Z :=
  fold_right (fun c v => (10 * v + dval c)%Z) 0%Z l.

(** ** Searches *)

(** Writing [x] into the first element with tag [t] changes that
    element in [iter t] and nothing else. *)
Definition first_updated (t x : string) (e : Element) : Prop :=
  forall p t0 rest,
    iter_located t e = (p, t0) :: rest ->
    iter t (update_at p (fun y => set_text y x) e)
    = set_text t0 x :: map snd rest.

Definition max_depth (cs : list Element) : nat :=
  fold_right (fun c m => Nat.max (paragraph_depth c) m) 0 cs.

(** No paragraph of [e] has [find_text] in its text. *)
Definition no_match (find_text : string) (e : Element) : Prop :=
  forall para, In para (find_paragraphs e) ->
               PyStr.contains find_text (get_text_content para) = false.

(** The run a paragraph's text is searched for: does it hold the text? *)
Definition run_matches (s : string) (px : Path * Element) : bool :=
  PyStr.contains s (get_text_content (snd px)).

(** Does some run of the paragraph hold the text? *)
Definition paragraph_matches (s : string) (px : Path * Element) : bool :=
  existsb (run_matches s) (iter_located (w "r") (snd px)).

(** What goes in after the anchor. *)
Definition inserted (ts : nat -> string) (new_text author : string)
    (track_changes : bool) (change_id0 : Z) : Element :=
  if track_changes
  then create_tracked_insertion new_text author change_id0 false false (ts 0)
  else create_run new_text false false.

(** ** Replace, as the specification words it

    What the edit is to make of a tree in which no run lies inside
    another run: every run whose text contains [find_text] gives way to
    its replacement, in document order, and nothing else changes. *)

Section Worded.

Variable ts : nat -> string.
Variables (find_text replace_with author : string) (track_changes : bool).

(** A run with [find_text] in its text. *)
Definition matches (c : Element) : bool :=
  String.eqb (tag c) (w "r")
  && PyStr.contains find_text (get_text_content c).

(** What comes in the place of a matched run, and the state after it:
    tracked, a plain run for the text before the leftmost occurrence (if
    any), the deletion record, the insertion record, a plain run for the
    text after it (if any), with two change IDs used; untracked, the run
    with the substituted text in its first text leaf. *)
Definition replaced_run (c : Element) (st : EditState)
  : list Element * EditState :=
  if track_changes then
    match PyStr.find find_text (get_text_content c) with
    | Some (before, after) =>
        (plain_run before
         ++ [create_tracked_deletion find_text author (change_id st)
                                     (ts (clock st));
             create_tracked_insertion replace_with author (change_id st + 1)
                                      false false (ts (S (clock st)))]
         ++ plain_run after,
         mkState (change_id st + 1 + 1) (S (replacements st)) (clock st + 2))
    | None => ([c], st)
    end
  else
    ([untracked_edit find_text replace_with c (get_text_content c)],
     count_replacement st).

Fixpoint edited_list (ed : Element -> EditState -> Element * EditState)
    (cs : list Element) (st : EditState) : list Element * EditState :=
  match cs with
  | [] => ([], st)
  | c :: cs' =>
      let '(new, st1) :=
        if matches c then replaced_run c st
        else let '(c', st1) := ed c st in ([c'], st1) in
      let '(l, st2) := edited_list ed cs' st1 in
      (new ++ l, st2)
  end.

(** The element with the matched runs below it replaced. *)
Fixpoint edited (e : Element) (st : EditState) : Element * EditState :=
  match e with
  | mkElement t a x tl cs =>
      let '(l, st') := edited_list edited cs st in
      (mkElement t a x tl l, st')
  end.

(** The elements of a list in turn, the state going from one to the
    next. *)
Fixpoint in_turn (ed : Element -> EditState -> Element * EditState)
    (cs : list Element) (st : EditState) : list Element * EditState :=
  match cs with
  | [] => ([], st)
  | c :: cs' =>
      let '(c', st1) := ed c st in
      let '(l, st2) := in_turn ed cs' st1 in
      (c' :: l, st2)
  end.

(** The document: the edit is made in the paragraphs. *)
Fixpoint edited_doc (e : Element) (st : EditState) : Element * EditState :=
  if is_paragraph e then edited e st
  else
    match e with
    | mkElement t a x tl cs =>
        let '(l, st') := in_turn edited_doc cs st in
        (mkElement t a x tl l, st')
    end.

End Worded.

(** No run of [e] has another run inside it. *)
Definition no_nested_runs (e : Element) : Prop :=
  forall x, In x (iter (w "r") e) -> iter_located (w "r") x = [([], x)].

(** The trees of the data model: no paragraph has another paragraph
    inside it, and in a paragraph no run has another run inside it. *)
Definition well_nested (e : Element) : Prop :=
  forall x, In x (iter (w "p") e) ->
            iter_located (w "p") x = [([], x)] /\ no_nested_runs x.

(** The runs of [e], as the list [runs] names them when [e] is at [p0]. *)
Definition handles_at (p0 : Path) (e : Element) : list Handle :=
  map (fun px => Attached (p0 ++ fst px)) (iter_located (w "r") e).

Definition handles_list (p0 : Path) (j : nat) (cs : list Element) : list Handle :=
  map (fun px => Attached (p0 ++ fst px))
      (filter (fun px => String.eqb (tag (snd px)) (w "r")) (located_list j cs)).

(** The loop, when it comes to the runs of the element [s] at [p]
    (path [p0] when the list was made), leaves [s] edited and goes on to
    the rest. *)
Definition edit_ok (ts : nat -> string)
    (find_text replace_with author : string) (track_changes : bool)
    (s : Element) : Prop :=
  forall para st moved p0 p rest,
    subtree para p = Some s ->
    (forall r, moved (Attached (p0 ++ r)) = Attached (p ++ r)) ->
    matches find_text s = false ->
    no_nested_runs s ->
    exists moved',
      replace_in_runs ts find_text replace_with author track_changes
                      para st moved (handles_at p0 s ++ rest)
      = replace_in_runs ts find_text replace_with author track_changes
          (update_at p
             (fun _ => fst (edited ts find_text replace_with author
                                   track_changes s st)) para)
          (snd (edited ts find_text replace_with author track_changes s st))
          moved' rest /\
      (forall h q, moved h = Attached q -> strip_prefix p q = None ->
                   moved' h = Attached q).

(** ** Document order *)

(** Document order on paths: an element comes before its descendants,
    and before what follows it among its siblings. *)
Fixpoint path_lt (a b : Path) : Prop :=
  match a, b with
  | [], [] => False
  | [], _ :: _ => True
  | _ :: _, [] => False
  | i :: a', j :: b' => i < j \/ (i = j /\ path_lt a' b')
  end.

(** Two paths that part ways, the first one to the left. *)
Definition parts_left (a b : Path) : Prop :=
  exists c i j a' b', a = c ++ i :: a' /\ b = c ++ j :: b' /\ i < j.

(** ** Sample documents *)

Definition with_id (v : string) (cs : list Element) : Element :=
  mkElement (w "ins") [(w "id", v)] None None cs.

(** The number 1 written with 4301 digits. *)
Definition long_one : string := PyFormat.zeros 4300 "1".

(** The document of the end-to-end example: one paragraph with the runs
    ["Revenue: "] and ["$100"]. *)
Definition T (s : string) : Element := mkElement (w "t") [] (Some s) None [].
Definition R (l : list Element) : Element := mkElement (w "r") [] None None l.
Definition P (l : list Element) : Element := mkElement (w "p") [] None None l.
Definition body (l : list Element) : Element := mkElement (w "body") [] None None l.
Definition revenue : Element := body [P [R [T "Revenue: "]; R [T "$100"]]].

Definition stamp (n : nat) : string := "2026-01-01T00:00:00Z".

(** The document with the identifier 1 written with 4301 digits, and
    a run to replace. *)
Definition long_reviewed : Element :=
  body [P [with_id long_one []; R [T "$100"]]].

(** A run inside a run, both with ["foo"] in their text. *)
Definition nested_runs : Element := body [P [R [T "foo"; R [T "foo"]]]].

Definition settings_on : Element :=
  mkElement (w "settings") [("xmlns:w", NAMESPACES_w)] None None
            [new_element (w "trackRevisions")].

Definition reviewed : Element :=
  body [P [R [T "Revenue: "];
           mkElement (w "ins") [(w "id", "7")] None None [R [T "$100"]];
           mkElement (w "del") [(w "id", "3")] None None
                     [R [mkElement (w "delText") [] (Some "$90") None []]]]].

(** ** Hits of a search *)

(** How many runs of [e] have [s] in their text, and the same summed
    over a list of elements and over a list of located paragraphs. *)
Definition hits (s : string) (e : Element) : nat :=
  List.length (filter (run_matches s) (iter_located (w "r") e)).

Definition hits_list (s : string) (cs : list Element) : nat :=
  fold_right (fun c n => hits s c + n) 0 cs.

Definition para_hits (s : string) (l : list (Path * Element)) : nat :=
  fold_right (fun p n => hits s (snd p) + n) 0 l.

(** Some paragraph of [e] has a run. *)
Definition has_run (e : Element) : bool :=
  existsb (fun p => match iter (w "r") p with [] => false | _ :: _ => true end)
          (iter (w "p") e).

(** The texts of a list of elements, one after the other. *)
Definition texts (l : list Element) : string :=
  String.concat "" (map get_text_content l).

(** From [st] to [st'] the counter has not gone back, and every
    identifier handed out in between is under [l]. *)
Definition holds (st st' : EditState) (l : list Element) : Prop :=
  (change_id st <= change_id st')%Z /\
  forall z, handed_out (change_id st) (change_id st') z <= cnts z l.

(** ** Escaped text and hexadecimal text *)

(** What stands for a character in escaped text. *)
Definition entity (c : ascii) : string :=
  if Ascii.eqb c "&" then "&amp;"
  else if Ascii.eqb c "<" then "&lt;"
  else if Ascii.eqb c ">" then "&gt;"
  else if Ascii.eqb c "034" then "&quot;"
  else if Ascii.eqb c "'" then "&apos;"
  else String c EmptyString.

(** Every character of [s] replaced by [f] of it. *)
Fixpoint each (f : ascii -> string) (s : string) : string :=
  match s with
  | EmptyString => EmptyString
  | String c s' => (f c ++ each f s')%string
  end.

(** One replacement of [escape_xml_text], on one character. *)
Definition subst1 (c : ascii) (new : string) (d : ascii) : string :=
  if Ascii.eqb d c then new else String d EmptyString.

(** The characters that escaped text is to be free of. *)
Definition markup (c : ascii) : bool :=
  Ascii.eqb c "<" || Ascii.eqb c ">" || Ascii.eqb c "034" || Ascii.eqb c "'".

(** The value of an upper-case hexadecimal digit. *)
Definition hex_val (c : ascii) : option Z :=
  let n := nat_of_ascii c in
  if ((48 <=? n) && (n <=? 57))%nat then Some (Z.of_nat n - 48)%Z
  else if ((65 <=? n) && (n <=? 70))%nat then Some (Z.of_nat n - 55)%Z
  else None.

(** [int(s, 16)] on upper-case digits alone, from [acc] on. *)
Fixpoint hex_value (acc : Z) (s : string) : option Z :=
  match s with
  | EmptyString => Some acc
  | String c s' =>
      match hex_val c with
      | Some d => hex_value (16 * acc + d)%Z s'
      | None => None
      end
  end.

(** The value of hexadecimal digits given least significant first. *)
Definition lsd16 (l : list ascii) : option Z :=
  fold_right (fun c v => match v, hex_val c with
                         | Some v, Some d => Some (16 * v + d)%Z
                         | _, _ => None
                         end) (Some 0%Z) l.

(** ** The settings tree *)

(** The tree [enable_track_changes] writes for the tree it loaded. *)
Definition with_track_revisions (root : Element) : Element :=
  match find_descendant (w "trackRevisions") root with
  | None => insert_first root (new_element (w "trackRevisions"))
  | Some _ => root
  end.

(** ** The command line *)

Section Orderly.

Variable Bytes : Type.

(** The document part of what is at the folder's path. *)
Definition document_of (world : option (Folder Bytes)) : option Bytes :=
  match world with
  | Some folder => document_xml Bytes folder
  | None => None
  end.

(** One line on [stdout] and status 0, or one line on [stderr], status
    1 and the document part as it was. *)
Definition orderly (world : option (Folder Bytes))
    (end_ : Output * option (Folder Bytes)) : Prop :=
  (exists line, fst end_ = mkOutput [line] [] 0) \/
  ((exists line, fst end_ = mkOutput [] [line] 1) /\
   document_of (snd end_) = document_of world).

End Orderly.

Arguments document_of {Bytes} world.
Arguments orderly {Bytes} world end_.

(** The arguments an action needs are there. *)
Definition complete (args : Args) : bool :=
  match args_action args with
  | ActionReplace =>
      given (args_find args)
      && match args_replace args with Some _ => true | None => false end
  | ActionInsert => given (args_after args) && given (args_text args)
  | ActionDelete => given (args_find args) || given (args_text args)
  end.

(** ** Sheet names, cell ranges, scanned cells *)

(** The name tried in the turn of the loop with the number [k], and
    the names with the numbers [c], ..., [c + n - 1]. *)
Definition numbered (base_name : string) (k : Z) : string :=
  (base_name ++ "_" ++ PyInt.str k)%string.

Fixpoint numbered_from (base_name : string) (c : Z) (n : nat) : list string :=
  match n with
  | O => []
  | S n' => numbered base_name c :: numbered_from base_name (c + 1) n'
  end.

(** The character [c] is not in [s]. *)
Fixpoint free_of (c : ascii) (s : string) : Prop :=
  match s with
  | EmptyString => True
  | String d s' => d <> c /\ free_of c s'
  end.

(** The number of locations in a dictionary of error details. *)
Definition located (d : list (string * list string)) : nat :=
  fold_right (fun kv n => List.length (snd kv) + n) 0 d.

(** The cell holds a string with one of the error values in it. *)
Definition erroneous (cell : Cell) : bool :=
  match value cell with
  | StrValue v => existsb (fun err => PyStr.contains err v) EXCEL_ERRORS
  | _ => false
  end.

(** The cells of a workbook in the order of the scan. *)
Definition cells (wb : Workbook) : list Cell :=
  flat_map (fun sheet_name =>
              match sheet_named wb sheet_name with
              | Some ws => List.concat (iter_rows ws)
              | None => []
              end)
           (sheetnames wb).

(** The sum of the counts of a summary. *)
Definition counted (summary : list (string * (nat * list string))) : nat :=
  fold_right (fun entry n => fst (snd entry) + n) 0 summary.

(** What the scan keeps: the keys are the error values, and the total
    is the number of locations, one for every erroneous cell seen. *)
Definition scan_ok (seen : list Cell) (acc : list (string * list string) * nat)
  : Prop :=
  map fst (fst acc) = EXCEL_ERRORS /\
  located (fst acc) = snd acc /\
  snd acc = List.length (filter erroneous seen).

(** ** More sample values *)

Definition plain_settings : Element :=
  mkElement (w "settings") [] None None [new_element (w "zoom")].

Definition no_text (e : Error) : string := EmptyString.

Definition insert_args : Args :=
  mkArgs "unpacked" ActionInsert None None (Some "Rev") (Some "XX") false
         "Document Editor".

Definition replace_args : Args :=
  mkArgs "unpacked" ActionReplace (Some "$") (Some "USD ") None None false
         "Document Editor".

Definition delete_args : Args :=
  mkArgs "unpacked" ActionDelete (Some "") None None (Some "$") false
         "Document Editor".

(** * Properties *)

(** ** The Python operations on sample values *)

Example partition_ex :
  PyStr.partition "$100" "Cost $100 or $100" = Some ("Cost ", "$100", " or $100").
Proof. reflexivity. Qed.

Example replace_ex :
  PyStr.replace "aa" "b" "aaaxaa" = "baxb" /\
  PyStr.replace "" "-" "ab" = "-a-b-".
Proof. split; reflexivity. Qed.

Example int_ex :
  PyInt.int "8" = Some 8%Z /\ PyInt.int " -12 " = Some (-12)%Z /\
  PyInt.int "1_000" = Some 1000%Z /\ PyInt.int "007" = Some 7%Z /\
  PyInt.int "rId3" = None /\ PyInt.int "" = None /\ PyInt.int "1__0" = None.
Proof. repeat split. Qed.

Example int_limit_ex :
  PyInt.int (String (ascii_of_nat 28) "4") = None /\
  PyInt.int (String (ascii_of_nat 160) "4") = Some 4%Z /\
  PyInt.int (PyFormat.zeros 4299 "1") = Some 1%Z /\
  PyInt.int (PyFormat.zeros 4300 "1") = None /\
  PyInt.decimal (PyFormat.zeros 4300 "1") = Some 1%Z.
Proof. vm_compute. repeat split. Qed.

Example str_ex :
  PyInt.str 0 = "0" /\ PyInt.str 1024 = "1024" /\ PyInt.str (-305) = "-305" /\
  PyInt.str 9 = "9" /\ PyInt.str 10 = "10" /\ PyInt.str 99999 = "99999".
Proof. repeat split. Qed.

(** ** Strings *)

Lemma startswith_space_spec (s : string) :
  PyStr.startswith_space s = true <-> exists r, s = String " " r.
Proof.
  destruct s as [|c r]; simpl.
  - split; [discriminate | intros [r' H]; discriminate].
  - rewrite Ascii.eqb_eq. split.
    + intros ->. now exists r.
    + intros [r' H]. now inversion H.
Qed.

Lemma endswith_space_spec (s : string) :
  PyStr.endswith_space s = true <-> exists r, s = (r ++ " ")%string.
Proof.
  induction s as [|c s IH].
  - simpl. split; [discriminate|].
    intros [[|c r] H]; discriminate.
  - destruct s as [|d s'].
    + simpl. rewrite Ascii.eqb_eq. split.
      * intros ->. now exists EmptyString.
      * intros [[|c' [|c'' r]] H]; simpl in H; inversion H; auto.
    + change (PyStr.endswith_space (String c (String d s')))
        with (PyStr.endswith_space (String d s')).
      rewrite IH. split.
      * intros [r ->]. now exists (String c r).
      * intros [[|c' r] H]; simpl in H; [discriminate|].
        inversion H. now exists r.
Qed.

(** ** The whitespace-preservation flag *)

Lemma text_element_flag (x : string) :
  preserves_space (create_text_element x true) <->
  PyStr.startswith_space x || PyStr.endswith_space x = true.
Proof.
  unfold preserves_space, create_text_element. simpl.
  destruct (PyStr.startswith_space x || PyStr.endswith_space x); simpl.
  - split; auto.
  - split; discriminate.
Qed.

Lemma del_text_flag (x : string) :
  preserves_space (create_del_text x) <->
  PyStr.startswith_space x || PyStr.endswith_space x = true.
Proof.
  unfold preserves_space, create_del_text.
  destruct (PyStr.startswith_space x || PyStr.endswith_space x); simpl.
  - split; auto.
  - split; discriminate.
Qed.

Lemma create_run_leaf (x : string) (bold italic : bool) :
  iter (w "t") (create_run x bold italic) = [create_text_element x true].
Proof.
  unfold create_run, create_text_element.
  rewrite andb_true_l.
  destruct bold, italic, (PyStr.startswith_space x || PyStr.endswith_space x);
    vm_compute; reflexivity.
Qed.

Lemma create_tracked_deletion_leaf (x author : string) (n : Z) (ts : string) :
  iter (w "delText") (create_tracked_deletion x author n ts) = [create_del_text x].
Proof.
  unfold create_tracked_deletion, create_del_text.
  destruct (PyStr.startswith_space x || PyStr.endswith_space x);
    vm_compute; reflexivity.
Qed.

(** C4: the text leaf of a synthesized run and the deleted-text leaf of
    a synthesized deletion record carry the whitespace-preservation flag
    exactly when the text starts or ends with a space; the leaf built
    from [" hello "] carries it, the one built from ["hello"] does not. *)
Theorem C4_whitespace_flag :
  (forall x : string,
      (preserves_space (create_text_element x true) <->
       (exists r, x = String " " r) \/ (exists r, x = (r ++ " ")%string)) /\
      (preserves_space (create_del_text x) <->
       (exists r, x = String " " r) \/ (exists r, x = (r ++ " ")%string)) /\
      (forall bold italic,
          iter (w "t") (create_run x bold italic) = [create_text_element x true]) /\
      (forall author n ts,
          iter (w "delText") (create_tracked_deletion x author n ts)
          = [create_del_text x])) /\
  preserves_space (create_text_element " hello " true) /\
  ~ preserves_space (create_text_element "hello" true) /\
  preserves_space (create_del_text " hello ") /\
  ~ preserves_space (create_del_text "hello").
Proof.
  split; [|repeat split; try reflexivity; discriminate].
  intro x.
  assert (E : PyStr.startswith_space x || PyStr.endswith_space x = true <->
              (exists r, x = String " " r) \/ (exists r, x = (r ++ " ")%string)).
  { rewrite orb_true_iff, startswith_space_spec, endswith_space_spec. tauto. }
  repeat split.
  - intro H. apply E. now apply text_element_flag.
  - intro H. apply text_element_flag. now apply E.
  - intro H. apply E. now apply del_text_flag.
  - intro H. apply del_text_flag. now apply E.
  - apply create_run_leaf.
  - apply create_tracked_deletion_leaf.
Qed.

(** ** The change-ID allocator *)

(** What [int] reads is the number the text stands for. *)
Lemma int_decimal (s : string) (z : Z) :
  PyInt.int s = Some z -> PyInt.decimal s = Some z.
Proof.
  unfold PyInt.int. now destruct (_ <=? _)%Z.
Qed.

Lemma max_id_step_spec (a : Z) (e : Element) :
  max_id_step a e = match read_value e with Some z => Z.max a z | None => a end.
Proof.
  unfold max_id_step, read_value.
  destruct (get e (w "id")) as [s|]; [|reflexivity].
  destruct s; reflexivity.
Qed.

Lemma fold_max_id_step (l : list Element) (a : Z) :
  fold_left max_id_step l a = Z.max a (fold_right Z.max a (read_of l)).
Proof.
  revert a. induction l as [|e l IH]; intro a; simpl.
  - lia.
  - rewrite IH, max_id_step_spec. unfold read_of in *. simpl.
    destruct (read_value e) as [z|]; simpl.
    + assert (H : forall b c k, (b <= c)%Z ->
                Z.max c (fold_right Z.max c k) = Z.max c (fold_right Z.max b k)).
      { intros b c k Hbc. induction k as [|y k IHk]; simpl; lia. }
      rewrite (H a (Z.max a z)) by lia. lia.
    + reflexivity.
Qed.

(** The allocator gives one more than the greatest of 0 and the
    identifiers it reads. *)
Lemma get_next_change_id_read (root : Element) :
  get_next_change_id root = (max0 (read_ids root) + 1)%Z.
Proof.
  unfold get_next_change_id, max0, read_ids.
  rewrite fold_max_id_step.
  assert (H : forall k, (0 <= fold_right Z.max 0 k)%Z).
  { induction k; simpl; lia. }
  specialize (H (read_of (iter_all root))). lia.
Qed.

Lemma read_value_id_value (e : Element) (z : Z) :
  read_value e = Some z -> id_value e = Some z.
Proof.
  unfold read_value, id_value. destruct (get e (w "id")); [|discriminate].
  apply int_decimal.
Qed.

(** What the allocator reads is among the identifiers of the tree. *)
Lemma read_of_ids_of (l : list Element) (z : Z) :
  In z (read_of l) -> In z (ids_of l).
Proof.
  unfold read_of, ids_of. rewrite !in_flat_map.
  intros (e & He & Hz). exists e. split; [assumption|].
  destruct (read_value e) as [y|] eqn:R; [|contradiction].
  now rewrite (read_value_id_value e y R).
Qed.

(** In a readable tree it reads them all. *)
Lemma readable_read_of (l : list Element) :
  forallb short_id l = true -> read_of l = ids_of l.
Proof.
  induction l as [|e l IH]; [reflexivity|]. cbn [forallb].
  intro H. apply andb_true_iff in H. destruct H as [He Hl].
  change (read_of (e :: l))
    with ((match read_value e with Some z => [z] | None => [] end) ++ read_of l).
  change (ids_of (e :: l))
    with ((match id_value e with Some z => [z] | None => [] end) ++ ids_of l).
  rewrite (IH Hl). f_equal. unfold read_value, id_value, PyInt.int.
  unfold short_id in He.
  destruct (get e (w "id")); [|reflexivity]. now rewrite He.
Qed.

Lemma readable_read_ids (root : Element) :
  readable root = true -> read_ids root = change_ids root.
Proof. apply readable_read_of. Qed.

Lemma get_next_change_id_max0 (root : Element) :
  readable root = true ->
  get_next_change_id root = (max0 (change_ids root) + 1)%Z.
Proof.
  intro H. rewrite get_next_change_id_read. now rewrite readable_read_ids.
Qed.

Lemma max0_upper (l : list Z) : Forall (fun z => (z <= max0 l)%Z) l.
Proof.
  induction l as [|y l IH]; constructor.
  - simpl. lia.
  - eapply Forall_impl; [|exact IH]. simpl. intros; lia.
Qed.

Lemma max0_attained (l : list Z) : max0 l = 0%Z \/ In (max0 l) l.
Proof.
  induction l as [|y l IH]; simpl; [now left|].
  destruct (Z.max_spec y (max0 l)) as [[_ ->]|[_ ->]]; tauto.
Qed.

(** C3 (what fails): a tree whose only identifier is [-5] gets 1, not
    one more than its greatest identifier. *)
Lemma C3_negative_id_counterexample :
  change_ids (with_id "-5" []) = [(-5)%Z] /\
  get_next_change_id (with_id "-5" []) = 1%Z /\
  get_next_change_id (with_id "-5" []) <> (-5 + 1)%Z.
Proof. repeat split. discriminate. Qed.

(** The allocator passes over an identifier of more than 4300 digits:
    beside the identifier 1 written with 4301 digits, the next ID is 1. *)
Example long_id_passed_over :
  change_ids (with_id long_one []) = [1%Z] /\
  read_ids (with_id long_one []) = [] /\
  get_next_change_id (with_id long_one []) = 1%Z.
Proof. vm_compute. repeat split. Qed.

(** C3 (amended): [get_next_change_id] returns one more than the
    greatest of 0 and the identifiers it reads, which are the integer
    values of the identifier attributes of the tree that have at most
    4300 digits: 1 when it reads none, one more than the greatest of
    them when one is not negative.  Attributes that are not numbers, or
    have more digits, do not count and raise nothing.  The result is
    greater than every identifier read; in a tree with no longer
    attribute these are all the identifiers, and the result is greater
    than every identifier of the tree.  Identifiers 3, 7, 2 give 8; no
    identifier gives 1; the identifier 1 written with 4301 digits is
    passed over and gives 1. *)
Theorem C3_next_id (root : Element) :
  get_next_change_id root = (max0 (read_ids root) + 1)%Z /\
  (max0 (read_ids root) = 0%Z \/ In (max0 (read_ids root)) (read_ids root)) /\
  Forall (fun z => (z <= max0 (read_ids root))%Z) (read_ids root) /\
  Forall (fun z => (z < get_next_change_id root)%Z) (read_ids root) /\
  ~ In (get_next_change_id root) (read_ids root) /\
  (forall z, In z (read_ids root) -> In z (change_ids root)) /\
  (readable root = true ->
   read_ids root = change_ids root /\
   get_next_change_id root = (max0 (change_ids root) + 1)%Z /\
   Forall (fun z => (z < get_next_change_id root)%Z) (change_ids root) /\
   ~ In (get_next_change_id root) (change_ids root)) /\
  get_next_change_id (with_id "3" [with_id "7" []; with_id "2" []]) = 8%Z /\
  get_next_change_id (mkElement (w "p") [] None None []) = 1%Z /\
  get_next_change_id (with_id "rId7" [with_id "" []]) = 1%Z /\
  (change_ids (with_id long_one []) = [1%Z] /\
   get_next_change_id (with_id long_one []) = 1%Z).
Proof.
  pose proof (max0_upper (read_ids root)) as U.
  assert (L : Forall (fun z => (z < get_next_change_id root)%Z) (read_ids root)).
  { rewrite get_next_change_id_read.
    eapply Forall_impl; [|exact U]. simpl. intros; lia. }
  assert (N : ~ In (get_next_change_id root) (read_ids root)).
  { intro H. rewrite Forall_forall in L. specialize (L _ H). lia. }
  split; [apply get_next_change_id_read|].
  split; [apply max0_attained|].
  split; [exact U|]. split; [exact L|]. split; [exact N|].
  split; [intro z; apply read_of_ids_of|].
  split.
  { intro Hr. rewrite <- (readable_read_ids root Hr).
    repeat split; auto. apply get_next_change_id_read. }
  split; [reflexivity|]. split; [reflexivity|]. split; [reflexivity|].
  split; apply long_id_passed_over.
Qed.

Lemma C3_next_id_witness :
  get_next_change_id reviewed = (max0 (change_ids reviewed) + 1)%Z /\
  ~ In (get_next_change_id reviewed) (change_ids reviewed).
Proof.
  destruct (C3_next_id reviewed) as (_ & _ & _ & _ & _ & _ & H & _).
  destruct (H eq_refl) as (_ & E & _ & N). split; [exact E | exact N].
Defined.

(** ** Searching and splitting strings *)

Lemma prefix_app (p r : string) : prefix p (p ++ r)%string = true.
Proof.
  induction p as [|c p IH]; simpl.
  - now destruct r.
  - destruct (ascii_dec c c); [exact IH | contradiction].
Qed.

Lemma prefix_split (p s : string) :
  prefix p s = true -> s = (p ++ PyStr.drop (String.length p) s)%string.
Proof.
  revert s. induction p as [|c p IH]; intros s H; simpl in *.
  - reflexivity.
  - destruct s as [|d s]; [discriminate|].
    simpl in H.
    destruct (ascii_dec c d) as [->|]; [|discriminate H].
    simpl. f_equal. now apply IH.
Qed.

Lemma drop_app (p r : string) : PyStr.drop (String.length p) (p ++ r)%string = r.
Proof. induction p; simpl; auto. Qed.

Lemma append_assoc (a b c : string) :
  ((a ++ b) ++ c)%string = (a ++ (b ++ c))%string.
Proof. induction a; simpl; congruence. Qed.

Lemma append_nil_r (a : string) : (a ++ "")%string = a.
Proof. induction a; simpl; congruence. Qed.

Lemma find_unfold (sep s : string) :
  PyStr.find sep s =
  if prefix sep s then Some (EmptyString, PyStr.drop (String.length sep) s)
  else match s with
       | EmptyString => None
       | String c s' =>
           match PyStr.find sep s' with
           | Some (b, a) => Some (String c b, a)
           | None => None
           end
       end.
Proof. destruct s; reflexivity. Qed.

(** What [find] returns is a split of the string around [sep]. *)
Lemma find_split (sep s b a : string) :
  PyStr.find sep s = Some (b, a) -> s = (b ++ sep ++ a)%string.
Proof.
  revert b a. induction s as [|c s IH]; intros b a; rewrite find_unfold.
  - destruct (prefix sep "") eqn:E; [|discriminate].
    intros [= <- <-]. now apply prefix_split.
  - destruct (prefix sep (String c s)) eqn:E.
    + intros [= <- <-]. now apply prefix_split.
    + destruct (PyStr.find sep s) as [[b' a']|]; [|discriminate].
      intros [= <- <-]. simpl. f_equal. now apply IH.
Qed.

(** It is the leftmost one: no split has a shorter text before [sep]. *)
Lemma find_leftmost (sep s b a : string) :
  PyStr.find sep s = Some (b, a) ->
  forall b' a', s = (b' ++ sep ++ a')%string -> String.length b <= String.length b'.
Proof.
  revert b a. induction s as [|c s IH]; intros b a; rewrite find_unfold.
  - destruct (prefix sep ""); [|discriminate].
    intros [= <- <-] b' a' _. simpl. lia.
  - destruct (prefix sep (String c s)) eqn:E.
    + intros [= <- <-] b' a' _. simpl. lia.
    + destruct (PyStr.find sep s) as [[b0 a0]|] eqn:F; [|discriminate].
      intros [= <- <-] b' a' H.
      destruct b' as [|d b'].
      * simpl in H. rewrite H, prefix_app in E. discriminate.
      * simpl in H. injection H as -> H. simpl.
        apply le_n_S. eapply IH; eauto.
Qed.

(** [find] succeeds whenever [sep] occurs. *)
Lemma find_occurs (sep b a : string) :
  PyStr.find sep (b ++ sep ++ a)%string <> None.
Proof.
  induction b as [|c b IH]; rewrite find_unfold.
  - simpl. rewrite prefix_app. discriminate.
  - destruct (prefix sep (String c b ++ sep ++ a)); [discriminate|].
    simpl. destruct (PyStr.find sep (b ++ sep ++ a)) as [[? ?]|]; [discriminate|].
    contradiction.
Qed.

Lemma contains_spec (sub s : string) :
  PyStr.contains sub s = true <-> exists b a, s = (b ++ sub ++ a)%string.
Proof.
  unfold PyStr.contains. split.
  - destruct (PyStr.find sub s) as [[b a]|] eqn:F; [|discriminate].
    intros _. exists b, a. now apply find_split.
  - intros (b & a & ->).
    pose proof (find_occurs sub b a) as H.
    now destruct (PyStr.find sub (b ++ sub ++ a)).
Qed.

(** ** Decimal text of integers: [int(str(n)) == n] up to the digit limit *)

Section DecimalText.

Local Open Scope Z_scope.

Lemma digit_val_char (d : Z) :
  0 <= d < 10 -> PyInt.digit_val (PyInt.digit_char d) = Some d.
Proof.
  intro H.
  assert (E : d = 0 \/ d = 1 \/ d = 2 \/ d = 3 \/ d = 4 \/ d = 5 \/ d = 6 \/
              d = 7 \/ d = 8 \/ d = 9) by lia.
  repeat (destruct E as [->|E]; [reflexivity|]). now subst.
Qed.

Lemma digit_val_dval (c : ascii) (v : Z) :
  PyInt.digit_val c = Some v -> v = dval c.
Proof.
  unfold PyInt.digit_val, dval.
  destruct (_ && _)%bool; [|discriminate]. now intros [= <-].
Qed.

Lemma digits_all (l : list ascii) (acc : Z) :
  Forall (fun c => PyInt.digit_val c <> None) l ->
  PyInt.digits acc (string_of_list_ascii l)
  = Some (fold_left (fun a c => 10 * a + dval c) l acc).
Proof.
  revert acc. induction l as [|c l IH]; intros acc H; simpl.
  - reflexivity.
  - inversion H as [|? ? Hc Hl]; subst.
    destruct (PyInt.digit_val c) as [v|] eqn:E; [|contradiction].
    apply digit_val_dval in E. subst v. now apply IH.
Qed.

Lemma rev_digits_all (fuel : nat) (n : Z) :
  0 <= n -> Forall (fun c => PyInt.digit_val c <> None) (PyInt.rev_digits fuel n).
Proof.
  revert n. induction fuel as [|k IH]; intros n Hn; simpl; constructor.
  - rewrite digit_val_char; [discriminate|]. apply Z.mod_pos_bound. lia.
  - destruct (n <? 10); [constructor|]. apply IH. apply Z.div_pos; lia.
Qed.

Lemma rev_digits_value (fuel : nat) (n : Z) :
  0 <= n < 2 ^ Z.of_nat fuel -> lsd_value (PyInt.rev_digits fuel n) = n.
Proof.
  revert n. induction fuel as [|k IH]; intros n Hn.
  - simpl in *. lia.
  - cbn [PyInt.rev_digits lsd_value fold_right].
    assert (D : dval (PyInt.digit_char (n mod 10)) = n mod 10).
    { symmetry. apply digit_val_dval, digit_val_char, Z.mod_pos_bound. lia. }
    rewrite D. destruct (n <? 10) eqn:L.
    + apply Z.ltb_lt in L. simpl. rewrite Z.mod_small; lia.
    + apply Z.ltb_ge in L. fold (lsd_value (PyInt.rev_digits k (n / 10))).
      rewrite IH.
      * pose proof (Z.div_mod n 10). lia.
      * rewrite Nat2Z.inj_succ, Z.pow_succ_r in Hn by lia.
        split; [apply Z.div_pos; lia|].
        apply Z.div_lt_upper_bound; lia.
Qed.

Lemma unsigned_all (l : list ascii) :
  l <> [] -> Forall (fun c => PyInt.digit_val c <> None) l ->
  PyInt.unsigned (string_of_list_ascii l)
  = Some (fold_left (fun a c => 10 * a + dval c) l 0).
Proof.
  destruct l as [|c l]; [contradiction|]. intros _ H.
  rewrite <- (digits_all (c :: l) 0 H). simpl.
  inversion H as [|? ? Hc Hl]; subst.
  destruct (PyInt.digit_val c); [reflexivity | contradiction].
Qed.

Lemma decimal_digit_start (c : ascii) (s : string) :
  PyInt.digit_val c <> None ->
  PyInt.decimal (String c s) = PyInt.unsigned (String c s).
Proof.
  destruct c as [[] [] [] [] [] [] [] []]; intro H;
    try reflexivity; exfalso; apply H; reflexivity.
Qed.

Lemma unsigned_str_nonneg (n : Z) :
  0 <= n ->
  PyInt.unsigned (PyInt.str_nonneg n) = Some n /\
  exists c s, PyInt.str_nonneg n = String c s /\ PyInt.digit_val c <> None.
Proof.
  intro Hn. unfold PyInt.str_nonneg.
  set (fuel := S (Z.to_nat (Z.log2 n))).
  assert (B : 0 <= n < 2 ^ Z.of_nat fuel).
  { split; [assumption|]. unfold fuel.
    rewrite Nat2Z.inj_succ, Z2Nat.id by apply Z.log2_nonneg.
    destruct (Z.eq_dec n 0) as [->|]; [reflexivity|].
    apply Z.log2_spec. lia. }
  pose proof (rev_digits_all fuel n Hn) as A.
  pose proof (rev_digits_value fuel n B) as V.
  assert (N : rev (PyInt.rev_digits fuel n) <> []).
  { unfold fuel. simpl. intro E. apply app_eq_nil in E. destruct E; discriminate. }
  apply Forall_rev in A.
  split.
  - rewrite unsigned_all by assumption.
    rewrite <- fold_left_rev_right, rev_involutive. exact (f_equal Some V).
  - destruct (rev (PyInt.rev_digits fuel n)) as [|c l]; [contradiction|].
    exists c, (string_of_list_ascii l). split; [reflexivity|].
    now inversion A.
Qed.

Lemma decimal_str (n : Z) : PyInt.decimal (PyInt.str n) = Some n.
Proof.
  unfold PyInt.str. destruct (n <? 0) eqn:L.
  - apply Z.ltb_lt in L.
    destruct (unsigned_str_nonneg (- n)) as [U _]; [lia|].
    change (PyInt.decimal (String "-" (PyInt.str_nonneg (- n))))
      with (option_map Z.opp (PyInt.unsigned (PyInt.str_nonneg (- n)))).
    rewrite U. simpl. f_equal. lia.
  - apply Z.ltb_ge in L.
    destruct (unsigned_str_nonneg n L) as [U (c & s & E & D)].
    rewrite E in *. now rewrite decimal_digit_start.
Qed.

(** The text of a number below [10 ^ k] has at most [k] digits. *)
Lemma rev_digits_length (fuel : nat) (k : nat) (n : Z) :
  0 <= n < 10 ^ Z.of_nat (S k) ->
  (List.length (PyInt.rev_digits fuel n) <= S k)%nat.
Proof.
  revert k n. induction fuel as [|f IH]; intros k n Hn.
  - simpl. lia.
  - cbn [PyInt.rev_digits List.length]. destruct (n <? 10) eqn:L.
    + simpl. lia.
    + apply Z.ltb_ge in L. destruct k as [|k].
      * change (10 ^ Z.of_nat 1) with 10 in Hn. lia.
      * apply le_n_S, IH.
        rewrite (Nat2Z.inj_succ (S k)), Z.pow_succ_r in Hn by lia.
        split; [apply Z.div_pos; lia|].
        apply Z.div_lt_upper_bound; lia.
Qed.

Lemma count_digits_all (l : list ascii) :
  Forall (fun c => PyInt.digit_val c <> None) l ->
  PyInt.count_digits (string_of_list_ascii l) = Z.of_nat (List.length l).
Proof.
  induction 1 as [|c l Hc _ IH]; [reflexivity|].
  cbn [string_of_list_ascii PyInt.count_digits List.length].
  rewrite IH. destruct (PyInt.digit_val c); [lia | contradiction].
Qed.

Lemma count_digits_str_nonneg (n : Z) :
  0 <= n < 10 ^ PyInt.max_str_digits ->
  PyInt.count_digits (PyInt.str_nonneg n) <= PyInt.max_str_digits.
Proof.
  intro Hn. unfold PyInt.str_nonneg.
  set (fuel := S (Z.to_nat (Z.log2 n))).
  rewrite count_digits_all
    by (apply Forall_rev, rev_digits_all; lia).
  rewrite length_rev.
  pose proof (rev_digits_length fuel 4299 n) as B.
  change (Z.of_nat 4300) with PyInt.max_str_digits in B.
  specialize (B Hn). unfold PyInt.max_str_digits. lia.
Qed.

Lemma count_digits_str (n : Z) :
  PyInt.printable n ->
  PyInt.count_digits (PyInt.str n) <= PyInt.max_str_digits.
Proof.
  unfold PyInt.printable, PyInt.str. intro Hn. destruct (n <? 0) eqn:L.
  - apply Z.ltb_lt in L. cbn [PyInt.count_digits].
    change (PyInt.digit_val "-") with (@None Z).
    rewrite Z.add_0_l. apply count_digits_str_nonneg. lia.
  - apply Z.ltb_ge in L. apply count_digits_str_nonneg. lia.
Qed.

(** What [str] writes of a printable number, [int] reads. *)
Lemma int_str (n : Z) :
  PyInt.printable n -> PyInt.int (PyInt.str n) = Some n.
Proof.
  intro Hn. unfold PyInt.int.
  apply count_digits_str, Z.leb_le in Hn. rewrite Hn. apply decimal_str.
Qed.

End DecimalText.

(** ** Editing a list of children *)

Lemma remove_at_split {A} (l : list A) (i : nat) :
  remove_at i l = firstn i l ++ skipn (S i) l.
Proof.
  revert i. induction l as [|x l IH]; intros [|i]; simpl; auto.
  f_equal. apply IH.
Qed.

Lemma insert_at_mid {A} (a m b : list A) (x : A) (n : nat) :
  n = List.length a + List.length m ->
  insert_at n x (a ++ m ++ b) = a ++ m ++ x :: b.
Proof.
  intros ->. induction a as [|y a IH]; simpl.
  - induction m as [|z m IHm]; simpl; [reflexivity | now rewrite IHm].
  - now rewrite IH.
Qed.

Lemma insert_at_0 {A} (a b : list A) (x : A) (n : nat) :
  n = List.length a -> insert_at n x (a ++ b) = a ++ x :: b.
Proof. intro H. apply (insert_at_mid a [] b). simpl. lia. Qed.

Lemma insert_at_1 {A} (a b : list A) (x y : A) (n : nat) :
  n = S (List.length a) -> insert_at n x (a ++ y :: b) = a ++ y :: x :: b.
Proof. intro H. apply (insert_at_mid a [y] b). simpl. lia. Qed.

Lemma insert_at_2 {A} (a b : list A) (x y z : A) (n : nat) :
  n = S (S (List.length a)) ->
  insert_at n x (a ++ y :: z :: b) = a ++ y :: z :: x :: b.
Proof. intro H. apply (insert_at_mid a [y; z] b). simpl. lia. Qed.

Lemma insert_at_3 {A} (a b : list A) (x y z u : A) (n : nat) :
  n = S (S (S (List.length a))) ->
  insert_at n x (a ++ y :: z :: u :: b) = a ++ y :: z :: u :: x :: b.
Proof. intro H. apply (insert_at_mid a [y; z; u] b). simpl. lia. Qed.

Lemma tracked_splice_spec ts find_text replace_with author st run_text i siblings
      before after :
  i < List.length siblings ->
  PyStr.find find_text run_text = Some (before, after) ->
  find_text <> EmptyString ->
  tracked_splice ts find_text replace_with author st run_text i siblings =
  Ok (firstn i siblings
      ++ plain_run before
      ++ [create_tracked_deletion find_text author (change_id st) (ts (clock st));
          create_tracked_insertion replace_with author (change_id st + 1) false false
                                   (ts (S (clock st)))]
      ++ plain_run after
      ++ skipn (S i) siblings,
      mkState (change_id st + 1 + 1) (replacements st) (clock st + 2)).
Proof.
  intros Hi F Hne. unfold tracked_splice, PyStr.partition, plain_run.
  destruct find_text as [|c f]; [contradiction|]. rewrite F.
  rewrite remove_at_split.
  set (a := firstn i siblings). set (b := skipn (S i) siblings).
  assert (La : List.length a = i) by (apply firstn_length_le; lia).
  destruct (PyStr.truthy before), (PyStr.truthy after); cbv beta iota zeta;
    rewrite (insert_at_0 a b) by lia;
    rewrite ?(insert_at_1 a b) by lia;
    rewrite ?(insert_at_2 a b) by lia;
    rewrite ?(insert_at_3 a b) by lia;
    rewrite ?(insert_at_1 a b) by lia;
    rewrite ?(insert_at_2 a b) by lia;
    reflexivity.
Qed.

Lemma subtree_app (e : Element) (q p : Path) :
  subtree e (q ++ p) =
  match subtree e q with Some x => subtree x p | None => None end.
Proof.
  revert e. induction q as [|i q IH]; intro e; simpl; [reflexivity|].
  destruct (nth_error (children e) i); auto.
Qed.

Lemma split_last_snoc (q : Path) (i : nat) : split_last (q ++ [i]) = Some (q, i).
Proof.
  induction q as [|j q IH]; [reflexivity|].
  simpl. rewrite IH. now destruct (q ++ [i]) eqn:E; [destruct q; discriminate|].
Qed.

Lemma split_last_inv (p q : Path) (i : nat) :
  split_last p = Some (q, i) -> p = q ++ [i].
Proof.
  revert q. induction p as [|j p IH]; intro q; [discriminate|].
  simpl. destruct p as [|k p'].
  - now intros [= <- <-].
  - destruct (split_last (k :: p')) as [[q' i']|]; [|discriminate].
    intros [= <- <-]. simpl. f_equal. now apply IH.
Qed.

Lemma child_at (e run : Element) (q : Path) (i : nat) :
  subtree e (q ++ [i]) = Some run ->
  nth_error (children_at e q) i = Some run.
Proof.
  rewrite subtree_app. unfold children_at.
  destruct (subtree e q) as [x|]; [|discriminate].
  simpl. now destruct (nth_error (children x) i).
Qed.

Lemma id_value_deletion x author n ts :
  id_value (create_tracked_deletion x author n ts) = Some n.
Proof. unfold id_value. cbn. apply decimal_str. Qed.

Lemma id_value_insertion x author n b i ts :
  id_value (create_tracked_insertion x author n b i ts) = Some n.
Proof. unfold id_value. cbn. apply decimal_str. Qed.

(** The allocator reads the ID of a record that [str] could write. *)
Lemma read_value_deletion x author n ts :
  PyInt.printable n ->
  read_value (create_tracked_deletion x author n ts) = Some n.
Proof. intro H. unfold read_value. cbn. now apply int_str. Qed.

Lemma read_value_insertion x author n b i ts :
  PyInt.printable n ->
  read_value (create_tracked_insertion x author n b i ts) = Some n.
Proof. intro H. unfold read_value. cbn. now apply int_str. Qed.

(** ** Tracked replace, one run *)

Lemma change_ids_run (x : string) (bold italic : bool) :
  change_ids (create_run x bold italic) = [].
Proof.
  unfold create_run, create_text_element. rewrite andb_true_l.
  destruct bold, italic, (PyStr.startswith_space x || PyStr.endswith_space x);
    reflexivity.
Qed.

Lemma change_ids_deletion (x author : string) (n : Z) (ts : string) :
  change_ids (create_tracked_deletion x author n ts) = [n].
Proof.
  unfold change_ids, ids_of.
  assert (E : iter_all (create_tracked_deletion x author n ts)
              = [create_tracked_deletion x author n ts;
                 append (new_element (w "r")) (create_del_text x);
                 create_del_text x]).
  { unfold create_tracked_deletion, create_del_text.
    destruct (PyStr.startswith_space x || PyStr.endswith_space x); reflexivity. }
  rewrite E. cbn [flat_map]. rewrite id_value_deletion.
  unfold create_del_text.
  destruct (PyStr.startswith_space x || PyStr.endswith_space x); reflexivity.
Qed.

Lemma change_ids_insertion (x author : string) (n : Z) (ts : string) :
  change_ids (create_tracked_insertion x author n false false ts) = [n].
Proof.
  unfold change_ids, ids_of.
  assert (E : iter_all (create_tracked_insertion x author n false false ts)
              = create_tracked_insertion x author n false false ts
                :: iter_all (create_run x false false)).
  { cbn. now rewrite app_nil_r. }
  rewrite E. cbn [flat_map]. rewrite id_value_insertion.
  change (flat_map _ (iter_all (create_run x false false)))
    with (change_ids (create_run x false false)).
  now rewrite change_ids_run.
Qed.

(** One turn of the tracked branch, in any tree: when the loop comes to
    a run (the child [i] of the element at [q]) whose text contains the
    non-empty [find_text], the children of the run's parent become:
    those before the run, a plain run for the text before the leftmost
    occurrence (if not empty), a deletion record for [find_text] with
    the current change ID [N], an insertion record for the replacement
    with ID [N + 1], a plain run for the text after the occurrence (if
    not empty), those after the run.  The plain runs carry no ID, and
    the loop goes on with the next free ID [N + 2]. *)
Lemma tracked_replace_run
    (ts : nat -> string) (find_text replace_with author : string)
    (st : EditState) (moved : Handle -> Handle) (h0 : Handle) (rest : list Handle)
    (para run : Element) (q : Path) (i : nat) :
  find_text <> EmptyString ->
  moved h0 = Attached (q ++ [i]) ->
  subtree para (q ++ [i]) = Some run ->
  PyStr.contains find_text (get_text_content run) = true ->
  exists before after,
    PyStr.find find_text (get_text_content run) = Some (before, after) /\
    get_text_content run = (before ++ find_text ++ after)%string /\
    (forall b a, get_text_content run = (b ++ find_text ++ a)%string ->
                 String.length before <= String.length b) /\
    let N := change_id st in
    let siblings := children_at para q in
    let del_elem :=
      create_tracked_deletion find_text author N (ts (clock st)) in
    let ins_elem :=
      create_tracked_insertion replace_with author (N + 1) false false
                               (ts (S (clock st))) in
    let l := firstn i siblings ++ plain_run before ++ [del_elem; ins_elem]
             ++ plain_run after ++ skipn (S i) siblings in
    let st' := mkState (N + 1 + 1) (replacements st) (clock st + 2) in
    nth_error siblings i = Some run /\
    tracked_splice ts find_text replace_with author st (get_text_content run)
                   i siblings = Ok (l, st') /\
    change_ids del_elem = [N] /\
    change_ids ins_elem = [(N + 1)%Z] /\
    change_ids (create_run before false false) = [] /\
    change_ids (create_run after false false) = [] /\
    replace_in_runs ts find_text replace_with author true para st moved
                    (h0 :: rest) =
    replace_in_runs ts find_text replace_with author true
      (update_at q (fun parent => set_children parent l) para)
      (count_replacement st')
      (fun x => adjust q i (List.length l + 1 - List.length siblings) run (moved x))
      rest.
Proof.
  intros Hne Hm Hrun Hc.
  unfold PyStr.contains in Hc.
  destruct (PyStr.find find_text (get_text_content run)) as [[before after]|] eqn:F;
    [clear Hc | discriminate].
  exists before, after.
  split; [reflexivity|].
  split; [now apply find_split|].
  split; [now apply (find_leftmost _ _ _ _ F)|].
  cbv zeta.
  pose proof (child_at _ _ _ _ Hrun) as Hnth.
  assert (Hi : i < List.length (children_at para q)).
  { apply nth_error_Some. rewrite Hnth. discriminate. }
  pose proof (tracked_splice_spec ts find_text replace_with author st _ i _ _ _
                Hi F Hne) as S.
  repeat split; auto using change_ids_deletion, change_ids_insertion, change_ids_run.
  cbn [replace_in_runs]. rewrite Hm. cbn [resolve]. rewrite Hrun.
  unfold PyStr.contains at 1. rewrite F. cbn [negb].
  rewrite split_last_snoc. rewrite S. reflexivity.
Qed.

(** The end-to-end example of the specification: untracked, the run
    ["$100"] becomes ["$200"]; tracked, it gives way to a deletion
    record with ID 1 and an insertion record with ID 2. *)
Example revenue_untracked :
  replace_text Element Some (fun e => e) stamp
    (mkFolder Element (Some revenue) None) "$100" "$200" false "A"
  = (Ok 1,
     mkFolder Element (Some (body [P [R [T "Revenue: "]; R [T "$200"]]])) None).
Proof. vm_compute. reflexivity. Qed.

Example revenue_tracked :
  replace_text Element Some (fun e => e) stamp
    (mkFolder Element (Some revenue) None) "$100" "$200" true "A"
  = (Ok 1,
     mkFolder Element
       (Some (body [P [R [T "Revenue: "];
                       create_tracked_deletion "$100" "A" 1 (stamp 0);
                       create_tracked_insertion "$200" "A" 2 false false (stamp 1)]]))
       (Some (mkElement (w "settings") [("xmlns:w", NAMESPACES_w)] None None
                        [new_element (w "trackRevisions")]))).
Proof. vm_compute. reflexivity. Qed.

Lemma located_all_unfold (e : Element) :
  located_all e = ([], e) :: located_list 0 (children e).
Proof.
  destruct e as [t a x tl cs]. reflexivity.
Qed.

Lemma iter_all_unfold (e : Element) :
  iter_all e = e :: flat_map iter_all (children e).
Proof. now destruct e. Qed.

Lemma located_list_snd (l : list Element) (i : nat) :
  Forall (fun e => map snd (located_all e) = iter_all e) l ->
  map snd (located_list i l) = flat_map iter_all l.
Proof.
  intro H. revert i. induction H as [|c l Hc _ IH]; intro i; simpl; [reflexivity|].
  rewrite map_app, map_map, IH. f_equal.
  rewrite <- Hc. now apply map_ext.
Qed.

Lemma located_all_snd (e : Element) : map snd (located_all e) = iter_all e.
Proof.
  induction e as [t a x tl cs IH] using Element_ind.
  rewrite located_all_unfold, iter_all_unfold. simpl. f_equal.
  now apply located_list_snd.
Qed.

(** ** Writing into the first text leaf *)

Lemma filter_located_snd (t : string) (l : list (Path * Element)) :
  map snd (filter (fun px => String.eqb (tag (snd px)) t) l)
  = filter (fun x => String.eqb (tag x) t) (map snd l).
Proof.
  induction l as [|[p e] l IH]; simpl; [reflexivity|].
  destruct (String.eqb (tag e) t); simpl; now rewrite IH.
Qed.

Lemma filter_located_shift (t : string) (i : nat) (l : list (Path * Element)) :
  filter (fun px => String.eqb (tag (snd px)) t)
         (map (fun px => (i :: fst px, snd px)) l)
  = map (fun px => (i :: fst px, snd px))
        (filter (fun px => String.eqb (tag (snd px)) t) l).
Proof.
  induction l as [|[p e] l IH]; simpl; [reflexivity|].
  destruct (String.eqb (tag e) t); simpl; now rewrite IH.
Qed.

Lemma iter_located_snd (t : string) (e : Element) :
  map snd (iter_located t e) = iter t e.
Proof.
  unfold iter_located, iter. now rewrite filter_located_snd, located_all_snd.
Qed.

Lemma iter_list_located (t : string) (l : list Element) (i : nat) :
  map snd (filter (fun px => String.eqb (tag (snd px)) t) (located_list i l))
  = filter (fun x => String.eqb (tag x) t) (flat_map iter_all l).
Proof.
  rewrite filter_located_snd. f_equal.
  apply located_list_snd. apply Forall_forall. intros. apply located_all_snd.
Qed.

Section FirstLeaf.

Variables (t x : string).

Local Abbreviation f := (fun y : Element => set_text y x).
Let is_t (y : Element) : bool := String.eqb (tag y) t.
Let is_t' (px : Path * Element) : bool := String.eqb (tag (snd px)) t.

Lemma first_updated_list (cs : list Element) :
  Forall (first_updated t x) cs ->
  forall i p t0 rest,
    filter is_t' (located_list i cs) = (p, t0) :: rest ->
    exists j p',
      p = (i + j) :: p' /\
      filter is_t (flat_map iter_all (update_nth j (update_at p' f) cs))
      = set_text t0 x :: map snd rest.
Proof.
  induction 1 as [|c cs Hc _ IH]; intros i p t0 rest E; simpl in E.
  - discriminate.
  - rewrite filter_app in E. unfold is_t' in E at 1.
    rewrite filter_located_shift in E.
    fold (iter_located t c) in E.
    destruct (iter_located t c) as [|[p1 t1] r1] eqn:L.
    + simpl in E. destruct (IH _ _ _ _ E) as (j & p' & -> & F).
      exists (S j), p'. split; [f_equal; lia|].
      simpl. rewrite filter_app, F.
      change (filter is_t (iter_all c)) with (iter t c).
      now rewrite <- iter_located_snd, L.
    + simpl in E. injection E as <- <- <-.
      exists 0, p1. split; [f_equal; lia|].
      simpl. rewrite filter_app.
      change (filter is_t (iter_all (update_at p1 f c)))
        with (iter t (update_at p1 f c)).
      rewrite (Hc _ _ _ L). simpl. f_equal.
      rewrite map_app, map_map. simpl. f_equal.
      symmetry. apply iter_list_located.
Qed.

Lemma first_updated_all (e : Element) : first_updated t x e.
Proof.
  induction e as [tg a tx tl cs IH] using Element_ind.
  intros p t0 rest E. unfold iter_located in E.
  rewrite located_all_unfold in E. simpl in E.
  destruct (String.eqb tg t) eqn:Tg.
  - injection E as <- <- <-. simpl. unfold iter. simpl. rewrite Tg.
    f_equal. symmetry. apply iter_list_located.
  - destruct (first_updated_list cs IH 0 p t0 rest E) as (j & p' & -> & F).
    simpl. unfold iter. simpl. rewrite Tg. exact F.
Qed.

End FirstLeaf.

Lemma concat_cons (a : string) (l : list string) :
  String.concat "" (a :: l) = (a ++ String.concat "" l)%string.
Proof. destruct l; simpl; [now rewrite append_nil_r | reflexivity]. Qed.

Lemma set_first_text_iter (run t0 : Element) (others : list Element) (x : string) :
  iter (w "t") run = t0 :: others ->
  iter (w "t") (set_first_text run x) = set_text t0 x :: others.
Proof.
  intro E. unfold set_first_text, iter_paths.
  rewrite <- iter_located_snd in E.
  destruct (iter_located (w "t") run) as [|[p t1] rest] eqn:L; [discriminate|].
  simpl in E. injection E as <- <-. simpl.
  now apply first_updated_all.
Qed.

Lemma set_first_text_none (run : Element) (x : string) :
  iter (w "t") run = [] -> set_first_text run x = run.
Proof.
  intro E. unfold set_first_text, iter_paths.
  rewrite <- iter_located_snd in E.
  now destruct (iter_located (w "t") run).
Qed.

Lemma update_nth_map {A B} (g : A -> B) (h : A -> A) (l : list A) (i : nat) :
  (forall y, g (h y) = g y) -> map g (update_nth i h l) = map g l.
Proof.
  intro H. revert i. induction l as [|y l IH]; intros [|i]; simpl; auto.
  - now rewrite H.
  - now rewrite IH.
Qed.

Lemma without_text_update (p : Path) (x : string) (e : Element) :
  without_text (update_at p (fun y => set_text y x) e) = without_text e.
Proof.
  revert e. induction p as [|i p IH]; intros [t a tx tl cs]; simpl.
  - reflexivity.
  - f_equal. now apply update_nth_map.
Qed.

Lemma without_text_set_first (run : Element) (x : string) :
  without_text (set_first_text run x) = without_text run.
Proof.
  unfold set_first_text. destruct (iter_paths (w "t") run); [reflexivity|].
  apply without_text_update.
Qed.

Lemma replace_go_skip (old new p s : string) :
  PyStr.replace_go old new (String.length p) (p ++ s)%string
  = PyStr.replace_go old new 0 s.
Proof.
  induction p as [|c p IH]; simpl; [|exact IH].
  destruct s; reflexivity.
Qed.

Lemma replace_go_unfold (old new s : string) :
  PyStr.replace_go old new 0 s =
  match s with
  | EmptyString => EmptyString
  | String c s' =>
      if prefix old s
      then (new ++ PyStr.replace_go old new (String.length old - 1) s')%string
      else String c (PyStr.replace_go old new 0 s')
  end.
Proof. destruct s; reflexivity. Qed.

Lemma replace_found (old new s b a : string) :
  old <> EmptyString ->
  PyStr.find old s = Some (b, a) ->
  PyStr.replace old new s = (b ++ new ++ PyStr.replace old new a)%string.
Proof.
  intro Hne. unfold PyStr.replace.
  destruct old as [|o old']; [contradiction|].
  set (old := String o old') in *.
  revert b. induction s as [|c s IH]; intro b; rewrite find_unfold.
  - simpl. discriminate.
  - rewrite replace_go_unfold.
    destruct (prefix old (String c s)) eqn:E.
    + intros [= <- <-]. cbn [String.append]. f_equal.
      apply prefix_split in E. unfold old in E. simpl in E.
      injection E as -> E. clear IH.
      set (a := PyStr.drop (String.length old') s) in *.
      clearbody a. subst s.
      replace (String.length old - 1) with (String.length old')
        by (unfold old; simpl; lia).
      apply replace_go_skip.
    + destruct (PyStr.find old s) as [[b' a']|]; [|discriminate].
      intros [= <- <-]. simpl. f_equal. now apply IH.
Qed.

Lemma replace_absent (old new s : string) :
  old <> EmptyString ->
  PyStr.find old s = None -> PyStr.replace old new s = s.
Proof.
  intro Hne. unfold PyStr.replace.
  destruct old as [|o old']; [contradiction|].
  set (old := String o old') in *.
  induction s as [|c s IH]; rewrite find_unfold; [reflexivity|].
  rewrite replace_go_unfold.
  destruct (prefix old (String c s)); [discriminate|].
  destruct (PyStr.find old s) as [[b' a']|]; [discriminate|].
  intros _. f_equal. now apply IH.
Qed.

(** With the empty [old], [new] goes before every character and at the
    end. *)
Lemma replace_empty (new s : string) :
  PyStr.replace EmptyString new s
  = (new ++ each (fun c => String c new) s)%string.
Proof.
  unfold PyStr.replace. induction s as [|c s IH]; cbn [PyStr.interleave each].
  - now rewrite append_nil_r.
  - rewrite IH. reflexivity.
Qed.

(** ** Untracked replace, one run *)

Lemma update_nth_at {A} (g h : A -> A) (l : list A) (i : nat) (y : A) :
  nth_error l i = Some y -> g y = h y -> update_nth i g l = update_nth i h l.
Proof.
  revert i. induction l as [|z l IH]; intros [|i] E H; simpl in *;
    try discriminate.
  - injection E as ->. now rewrite H.
  - f_equal. now apply IH.
Qed.

Lemma update_at_const (p : Path) (g : Element -> Element) (e x : Element) :
  subtree e p = Some x -> update_at p g e = update_at p (fun _ => g x) e.
Proof.
  revert e. induction p as [|i p IH]; intros e E; simpl in *.
  - now injection E as ->.
  - destruct (nth_error (children e) i) as [c|] eqn:N; [|discriminate].
    f_equal. eapply update_nth_at; eauto.
Qed.

Lemma get_text_content_leaves (e : Element) :
  get_text_content e = String.concat "" (map text_part (iter (w "t") e)).
Proof. reflexivity. Qed.

Lemma text_part_set_text (t0 : Element) (x : string) :
  text_part (set_text t0 x) = x.
Proof. reflexivity. Qed.

(** The untracked branch in the loop: the paragraph keeps its shape,
    the run at [p] is edited in place, one replacement is counted. *)
Lemma untracked_step
    (ts : nat -> string) (find_text replace_with author : string)
    (st : EditState) (moved : Handle -> Handle) (h0 : Handle) (rest : list Handle)
    (para run : Element) (q : Path) (i : nat) :
  moved h0 = Attached (q ++ [i]) ->
  subtree para (q ++ [i]) = Some run ->
  PyStr.contains find_text (get_text_content run) = true ->
  replace_in_runs ts find_text replace_with author false para st moved (h0 :: rest)
  = replace_in_runs ts find_text replace_with author false
      (update_at (q ++ [i])
         (fun r => untracked_edit find_text replace_with r (get_text_content run))
         para)
      (count_replacement st) moved rest.
Proof.
  intros Hm Hrun Hc. cbn [replace_in_runs]. rewrite Hm. cbn [resolve].
  rewrite Hrun, Hc. cbn [negb]. now rewrite split_last_snoc.
Qed.






Example split_leaves_untracked :
  replace_text Element Some (fun e => e) stamp
    (mkFolder Element (Some (body [P [R [T "$1"; T "00"]]])) None)
    "$100" "$200" false "A"
  = (Ok 1, mkFolder Element (Some (body [P [R [T "$200"; T "00"]]])) None).
Proof. vm_compute. reflexivity. Qed.

(** ** Delete is replace by the empty text *)




(** ** Insertion when the anchor is absent *)

Lemma iter_all_self (e : Element) : In e (iter_all e).
Proof. rewrite iter_all_unfold. now left. Qed.

Lemma iter_all_trans (e x y : Element) :
  In x (iter_all e) -> In y (iter_all x) -> In y (iter_all e).
Proof.
  induction e as [t a tx tl cs IH] using Element_ind.
  rewrite !iter_all_unfold with (e := mkElement t a tx tl cs). simpl.
  intros [<-|Hx] Hy.
  - rewrite iter_all_unfold in Hy. exact Hy.
  - right. apply in_flat_map in Hx. destruct Hx as (c & Hc & Hx).
    apply in_flat_map. exists c. split; [assumption|].
    rewrite Forall_forall in IH. now apply IH.
Qed.

Lemma iter_In (t : string) (e x : Element) :
  In x (iter t e) <-> In x (iter_all e) /\ tag x = t.
Proof.
  unfold iter. rewrite filter_In, String.eqb_eq. tauto.
Qed.

Lemma iter_trans (t t' : string) (e x y : Element) :
  In x (iter t e) -> In y (iter t' x) -> In y (iter t' e).
Proof.
  rewrite !iter_In. intros [Hx _] [Hy Ht]. split; [|assumption].
  eapply iter_all_trans; eauto.
Qed.

Section InsertAbsent.

Variable ts : nat -> string.
Variables (after_text new_text author : string) (track_changes : bool).
Variable change_id0 : Z.

Lemma insert_in_runs_none (para : Element) (runs : list (Path * Element)) :
  (forall run, In run (map snd runs) ->
               PyStr.contains after_text (get_text_content run) = false) ->
  insert_in_runs ts after_text new_text author track_changes change_id0 para runs
  = None.
Proof.
  induction runs as [|[p run] runs IH]; intro H; simpl; [reflexivity|].
  rewrite (H run) by now left. simpl. apply IH. intros r Hr. apply H. now right.
Qed.

Lemma insert_in_paragraphs_none (root : Element) (paras : list (Path * Element)) :
  (forall para run, In para (map snd paras) -> In run (find_runs para) ->
                    PyStr.contains after_text (get_text_content run) = false) ->
  insert_in_paragraphs ts after_text new_text author track_changes change_id0
                       root paras
  = None.
Proof.
  induction paras as [|[pp para] paras IH]; intro H; simpl; [reflexivity|].
  assert (IH' : insert_in_paragraphs ts after_text new_text author track_changes
                  change_id0 root paras = None).
  { apply IH. intros p r Hp Hr. apply (H p r); [now right | assumption]. }
  destruct (negb (PyStr.contains after_text (get_text_content para)));
    [exact IH'|].
  rewrite insert_in_runs_none; [exact IH'|].
  intros run Hr. apply (H para run); [now left|].
  unfold find_runs. now rewrite <- iter_located_snd.
Qed.

End InsertAbsent.

Lemma enable_track_changes_document
    (Bytes : Type) (parse : Bytes -> option Element)
    (serialize : Element -> Bytes) (folder : Folder Bytes) :
  match enable_track_changes Bytes parse serialize folder with
  | Ok folder1 =>
      document_xml Bytes folder1 = document_xml Bytes folder /\
      exists settings, settings_xml Bytes folder1 = Some (serialize settings)
  | Raise _ => True
  end.
Proof.
  unfold enable_track_changes.
  destruct (settings_xml Bytes folder) as [sb|].
  - destruct (parse sb) as [s|]; [|exact I]. simpl. eauto.
  - simpl. eauto.
Qed.

(** C7 (what fails): with [track_changes] requested and the anchor
    absent, [insert_text_after] returns false but [word/settings.xml]
    has been written (here: created). *)
Lemma C7_settings_written_counterexample :
  insert_text_after Element Some (fun e => e) stamp
    (mkFolder Element (Some revenue) None) "absent" "new" true "A"
  = (Ok false, mkFolder Element (Some revenue) (Some settings_on)) /\
  mkFolder Element (Some revenue) (Some settings_on)
  <> mkFolder Element (Some revenue) None.
Proof. split; [vm_compute; reflexivity | discriminate]. Qed.

(** C7 (amended): when no run's text contains the anchor,
    [insert_text_after] returns false and does not write the document
    part.  Without [track_changes] nothing at all is written; with
    [track_changes] the settings part has been written by
    [enable_track_changes] before the search (or its parse error is
    raised). *)
Theorem C7_insert_absent
    (Bytes : Type) (parse : Bytes -> option Element)
    (serialize : Element -> Bytes) (ts : nat -> string)
    (folder : Folder Bytes) (b : Bytes) (root : Element)
    (after_text new_text author : string) (track_changes : bool) :
  document_xml Bytes folder = Some b ->
  parse b = Some root ->
  (forall run, In run (find_runs root) ->
               PyStr.contains after_text (get_text_content run) = false) ->
  let outcome :=
    insert_text_after Bytes parse serialize ts folder after_text new_text
                      track_changes author in
  outcome
  = (if track_changes
     then match enable_track_changes Bytes parse serialize folder with
          | Ok folder1 => (Ok false, folder1)
          | Raise err => (Raise err, folder)
          end
     else (Ok false, folder)) /\
  document_xml Bytes (snd outcome) = document_xml Bytes folder /\
  (track_changes = false -> outcome = (Ok false, folder)).
Proof.
  intros Hd Hp Habs outcome.
  assert (E : outcome
              = (if track_changes
                 then match enable_track_changes Bytes parse serialize folder with
                      | Ok folder1 => (Ok false, folder1)
                      | Raise err => (Raise err, folder)
                      end
                 else (Ok false, folder))).
  { unfold outcome, insert_text_after, parse_document. rewrite Hd, Hp.
    rewrite insert_in_paragraphs_none.
    - destruct track_changes; [|reflexivity].
      now destruct (enable_track_changes Bytes parse serialize folder).
    - intros para run Hpara Hrun. apply Habs. unfold find_runs in *.
      rewrite iter_located_snd in Hpara.
      eapply iter_trans; eauto. }
  split; [exact E|]. split.
  - rewrite E. destruct track_changes; [|reflexivity].
    pose proof (enable_track_changes_document Bytes parse serialize folder) as D.
    destruct (enable_track_changes Bytes parse serialize folder); [|reflexivity].
    simpl. tauto.
  - intros ->. exact E.
Qed.

Lemma C7_insert_absent_witness :
  insert_text_after Element Some (fun e => e) stamp
    (mkFolder Element (Some revenue) None) "absent" "new" false "A"
  = (Ok false, mkFolder Element (Some revenue) None).
Proof.
  refine (proj2 (proj2 (C7_insert_absent Element Some (fun e => e) stamp
            (mkFolder Element (Some revenue) None) revenue revenue
            "absent" "new" "A" false eq_refl eq_refl _)) eq_refl).
  intros run H.
  vm_compute in H.
  destruct H as [<-|[<-|[]]]; reflexivity.
Defined.

(** ** Replace when the text is absent *)

Lemma paragraph_depth_unfold (e : Element) :
  paragraph_depth e =
  if is_paragraph e || Nat.ltb 0 (max_depth (children e))
  then S (max_depth (children e)) else 0.
Proof. destruct e; reflexivity. Qed.

Lemma max_depth_child (c : Element) (cs : list Element) :
  In c cs -> paragraph_depth c <= max_depth cs.
Proof.
  induction cs as [|d cs IH]; simpl; [contradiction|].
  intros [->|H]; [lia|]. specialize (IH H). lia.
Qed.

Lemma has_paragraph_unfold (e : Element) :
  has_paragraph e = is_paragraph e || existsb has_paragraph (children e).
Proof.
  unfold has_paragraph. rewrite iter_all_unfold. simpl. f_equal.
  induction (children e) as [|c cs IH]; simpl; [reflexivity|].
  now rewrite existsb_app, IH.
Qed.

Lemma has_paragraph_depth (e : Element) :
  has_paragraph e = true -> paragraph_depth e = S (max_depth (children e)).
Proof.
  induction e as [t a tx tl cs IH] using Element_ind.
  rewrite has_paragraph_unfold, paragraph_depth_unfold. simpl.
  destruct (is_paragraph (mkElement t a tx tl cs)); [reflexivity|]. simpl.
  intro H. apply existsb_exists in H. destruct H as (c & Hc & Hp).
  rewrite Forall_forall in IH. specialize (IH c Hc Hp).
  pose proof (max_depth_child c cs Hc) as M.
  destruct (Nat.ltb_spec 0 (max_depth cs)); [reflexivity | lia].
Qed.

Lemma set_children_same (e : Element) : set_children e (children e) = e.
Proof. now destruct e. Qed.

Section Untouched.

Variable ts : nat -> string.
Variables (find_text replace_with author : string) (track_changes : bool).

Let visit := replace_from ts find_text replace_with author track_changes.

Lemma replace_from_unfold (fuel : nat) (e : Element) (st : EditState) :
  visit fuel e st =
  if negb (has_paragraph e) then Some (Ok (e, st))
  else
    match fuel with
    | O => None
    | S fuel' =>
        match (if is_paragraph e
               then replace_in_paragraph ts find_text replace_with author
                                         track_changes e st
               else Ok (e, st)) with
        | Raise err => Some (Raise err)
        | Ok (e1, st1) =>
            match replace_children (visit fuel') (children e1) st1 with
            | None => None
            | Some (Raise err) => Some (Raise err)
            | Some (Ok (l, st2)) => Some (Ok (set_children e1 l, st2))
            end
        end
    end.
Proof. destruct fuel; reflexivity. Qed.

Lemma no_match_child (e c : Element) :
  no_match find_text e -> In c (children e) -> no_match find_text c.
Proof.
  intros H Hc para Hp. apply H. unfold find_paragraphs in *.
  apply iter_In in Hp. destruct Hp as [Hp Ht]. apply iter_In. split; [|exact Ht].
  rewrite iter_all_unfold. right. apply in_flat_map. eauto.
Qed.

Lemma replace_from_untouched (fuel : nat) :
  forall e st,
    paragraph_depth e <= fuel -> no_match find_text e ->
    visit fuel e st = Some (Ok (e, st)).
Proof.
  induction fuel as [|k IH]; intros e st D H; rewrite replace_from_unfold;
    destruct (has_paragraph e) eqn:Hp; try reflexivity;
    apply has_paragraph_depth in Hp; [lia|].
  cbn [negb].
  assert (B : (if is_paragraph e
               then replace_in_paragraph ts find_text replace_with author
                                         track_changes e st
               else Ok (e, st)) = Ok (e, st)).
  { destruct (is_paragraph e) eqn:P; [|reflexivity].
    unfold replace_in_paragraph. rewrite H; [reflexivity|].
    apply iter_In. split; [apply iter_all_self|].
    now apply String.eqb_eq. }
  rewrite B.
  assert (C : forall cs, (forall c, In c cs -> In c (children e)) ->
                         replace_children (visit k) cs st = Some (Ok (cs, st))).
  { induction cs as [|c cs IHcs]; intro Sub; simpl; [reflexivity|].
    rewrite IH.
    - rewrite IHcs; [reflexivity|]. intros; apply Sub; now right.
    - pose proof (max_depth_child c (children e) (Sub c (or_introl eq_refl))). lia.
    - eapply no_match_child; eauto. apply Sub. now left. }
  rewrite C by auto. now rewrite set_children_same.
Qed.

End Untouched.

(** C8: when the non-empty [find_text] occurs in no paragraph, replace
    returns 0 and writes the document exactly as it was loaded: the
    saved bytes are those of a load followed by a save, no run being
    removed, inserted or changed.  (With [track_changes], the settings
    part is handled first, and its parse error, if any, is raised.) *)
Theorem C8_replace_absent
    (Bytes : Type) (parse : Bytes -> option Element)
    (serialize : Element -> Bytes) (ts : nat -> string)
    (folder : Folder Bytes) (b : Bytes) (root : Element)
    (find_text replace_with author : string) (track_changes : bool) :
  find_text <> EmptyString ->
  document_xml Bytes folder = Some b ->
  parse b = Some root ->
  (forall para, In para (find_paragraphs root) ->
                PyStr.contains find_text (get_text_content para) = false) ->
  let outcome :=
    replace_text Bytes parse serialize ts folder find_text replace_with
                 track_changes author in
  outcome
  = (if track_changes
     then match enable_track_changes Bytes parse serialize folder with
          | Ok folder1 => (Ok 0, save_document Bytes serialize root folder1)
          | Raise err => (Raise err, folder)
          end
     else (Ok 0, save_document Bytes serialize root folder)) /\
  (track_changes = false ->
   outcome = (Ok 0, mkFolder Bytes (Some (serialize root))
                             (settings_xml Bytes folder))) /\
  (forall n, fst outcome = Ok n ->
             n = 0 /\ document_xml Bytes (snd outcome) = Some (serialize root)) /\
  (serialize root = b -> document_xml Bytes (snd outcome) = document_xml Bytes folder).
Proof.
  intros _ Hd Hp Habs outcome.
  assert (E : outcome
              = (if track_changes
                 then match enable_track_changes Bytes parse serialize folder with
                      | Ok folder1 =>
                          (Ok 0, save_document Bytes serialize root folder1)
                      | Raise err => (Raise err, folder)
                      end
                 else (Ok 0, save_document Bytes serialize root folder))).
  { unfold outcome, replace_text, parse_document. rewrite Hd, Hp.
    destruct track_changes.
    - destruct (enable_track_changes Bytes parse serialize folder);
        [|reflexivity].
      now rewrite replace_from_untouched.
    - now rewrite replace_from_untouched. }
  split; [exact E|]. split; [intros ->; exact E|]. split.
  - intro n. rewrite E. destruct track_changes.
    + destruct (enable_track_changes Bytes parse serialize folder); simpl.
      * intros [= <-]. auto.
      * discriminate.
    + simpl. intros [= <-]. auto.
  - intro R. rewrite E. destruct track_changes.
    + destruct (enable_track_changes Bytes parse serialize folder); simpl.
      * now rewrite R.
      * reflexivity.
    + simpl. now rewrite R.
Qed.

Lemma C8_replace_absent_witness :
  replace_text Element Some (fun e => e) stamp
    (mkFolder Element (Some revenue) None) "absent" "new" false "A"
  = (Ok 0, mkFolder Element (Some revenue) None).
Proof.
  refine (proj1 (proj2 (C8_replace_absent Element Some (fun e => e) stamp
            (mkFolder Element (Some revenue) None) revenue revenue
            "absent" "new" "A" false _ eq_refl eq_refl _)) eq_refl).
  - discriminate.
  - intros para H. vm_compute in H.
    destruct H as [<-|[]]; reflexivity.
Defined.

(** ** Elements, paths and blocks of text *)

Lemma located_list_In (cs : list Element) (i : nat) (p : Path) (x : Element) :
  In (p, x) (located_list i cs) ->
  exists j c p', p = (i + j) :: p' /\ nth_error cs j = Some c /\
                 In (p', x) (located_all c).
Proof.
  revert i. induction cs as [|c cs IH]; intros i H; simpl in H; [contradiction|].
  apply in_app_or in H. destruct H as [H|H].
  - apply in_map_iff in H. destruct H as ([p' x'] & [= <- <-] & H).
    exists 0, c, p'. rewrite Nat.add_0_r. auto.
  - destruct (IH _ H) as (j & c' & p' & -> & N & L).
    exists (S j), c', p'. repeat split; auto. f_equal. lia.
Qed.

Lemma located_subtree (e : Element) :
  forall p x, In (p, x) (located_all e) -> subtree e p = Some x.
Proof.
  induction e as [t a tx tl cs IH] using Element_ind.
  intros p x H. rewrite located_all_unfold in H. destruct H as [[= <- <-]|H].
  - reflexivity.
  - apply located_list_In in H. destruct H as (j & c & p' & -> & N & L).
    simpl in *. rewrite N. rewrite Forall_forall in IH.
    apply IH; [|assumption]. eapply nth_error_In; eauto.
Qed.

Lemma iter_located_In (t : string) (e : Element) (p : Path) (x : Element) :
  In (p, x) (iter_located t e) <-> In (p, x) (located_all e) /\ tag x = t.
Proof.
  unfold iter_located. rewrite filter_In. simpl. now rewrite String.eqb_eq.
Qed.

Lemma iter_located_subtree (t : string) (e : Element) (p : Path) (x : Element) :
  In (p, x) (iter_located t e) -> subtree e p = Some x /\ tag x = t.
Proof.
  rewrite iter_located_In. intros [H T]. split; [|exact T].
  now apply located_subtree.
Qed.

(** The elements under [x] come in one block of those under [e]. *)
Lemma iter_block (t : string) (e x : Element) :
  In x (iter_all e) -> exists l1 l2, iter t e = l1 ++ iter t x ++ l2.
Proof.
  induction e as [tg a tx tl cs IH] using Element_ind.
  rewrite iter_all_unfold. intros [<-|H].
  - exists [], []. now rewrite app_nil_r.
  - simpl in H. apply in_flat_map in H. destruct H as (c & Hc & Hx).
    rewrite Forall_forall in IH. destruct (IH c Hc Hx) as (l1 & l2 & E).
    apply in_split in Hc. destruct Hc as (cs1 & cs2 & ->).
    unfold iter at 1. rewrite iter_all_unfold. simpl children.
    rewrite flat_map_app. simpl flat_map.
    set (f := fun y => String.eqb (tag y) t).
    change (filter f (mkElement tg a tx tl (cs1 ++ c :: cs2)
                      :: flat_map iter_all cs1
                         ++ iter_all c ++ flat_map iter_all cs2))
      with (filter f ([mkElement tg a tx tl (cs1 ++ c :: cs2)]
                      ++ flat_map iter_all cs1
                         ++ iter_all c ++ flat_map iter_all cs2)).
    rewrite !filter_app.
    change (filter f (iter_all c)) with (iter t c). rewrite E.
    exists (filter f [mkElement tg a tx tl (cs1 ++ c :: cs2)]
            ++ filter f (flat_map iter_all cs1) ++ l1),
           (l2 ++ filter f (flat_map iter_all cs2)).
    now rewrite <- !app_assoc.
Qed.

Lemma concat_app (l1 l2 : list string) :
  String.concat "" (l1 ++ l2)
  = (String.concat "" l1 ++ String.concat "" l2)%string.
Proof.
  induction l1 as [|a l1 IH].
  - reflexivity.
  - change ((a :: l1) ++ l2) with (a :: (l1 ++ l2)).
    rewrite !concat_cons, IH. now rewrite append_assoc.
Qed.

Lemma text_block (e x : Element) :
  In x (iter_all e) ->
  exists b a, get_text_content e = (b ++ get_text_content x ++ a)%string.
Proof.
  intro H. destruct (iter_block (w "t") e x H) as (l1 & l2 & E).
  unfold get_text_content. rewrite E, !map_app, !concat_app. eauto.
Qed.

Lemma contains_block (s b x a : string) :
  PyStr.contains s x = true -> PyStr.contains s (b ++ x ++ a)%string = true.
Proof.
  rewrite !contains_spec. intros (b' & a' & ->).
  exists (b ++ b')%string, (a' ++ a)%string.
  now rewrite !append_assoc.
Qed.

Lemma contains_within (s : string) (e x : Element) :
  In x (iter_all e) ->
  PyStr.contains s (get_text_content x) = true ->
  PyStr.contains s (get_text_content e) = true.
Proof.
  intros H C. destruct (text_block e x H) as (b & a & ->).
  now apply contains_block.
Qed.

(** ** Insertion after an anchor *)

Lemma first_match {A} (f : A -> bool) (l : list A) :
  existsb f l = true ->
  exists l1 x l2, l = l1 ++ x :: l2 /\ (forall y, In y l1 -> f y = false) /\
                  f x = true.
Proof.
  induction l as [|y l IH]; simpl; [discriminate|].
  destruct (f y) eqn:F.
  - intros _. exists [], y, l. repeat split; auto. contradiction.
  - simpl. intro H. destruct (IH H) as (l1 & x & l2 & -> & N & X).
    exists (y :: l1), x, l2. repeat split; auto.
    intros z [<-|Hz]; auto.
Qed.

Lemma update_nth_ext {A} (g h : A -> A) (l : list A) (i : nat) :
  (forall y, g y = h y) -> update_nth i g l = update_nth i h l.
Proof.
  intro H. revert i. induction l as [|z l IH]; intros [|i]; simpl; auto.
  - now rewrite H.
  - now rewrite IH.
Qed.

Lemma update_at_app (p q : Path) (g : Element -> Element) (e : Element) :
  update_at (p ++ q) g e = update_at p (update_at q g) e.
Proof.
  revert e. induction p as [|i p IH]; intro e; simpl; [reflexivity|].
  f_equal. now apply update_nth_ext.
Qed.

Lemma children_at_app (e x : Element) (p q : Path) :
  subtree e p = Some x -> children_at e (p ++ q) = children_at x q.
Proof.
  intro H. unfold children_at. now rewrite subtree_app, H.
Qed.

Section InsertPresent.

Variable ts : nat -> string.
Variables (after_text new_text author : string) (track_changes : bool).
Variable change_id0 : Z.

Lemma insert_at_run_spec (para run : Element) (q : Path) (i : nat)
      (before after : string) :
  after_text <> EmptyString ->
  subtree para (q ++ [i]) = Some run ->
  PyStr.find after_text (get_text_content run) = Some (before, after) ->
  insert_at_run ts after_text new_text author track_changes change_id0
                para (q ++ [i]) (get_text_content run)
  = Ok (update_at q
          (fun parent =>
             set_children parent
               (firstn i (children_at para q)
                ++ [create_run (before ++ after_text)%string false false;
                    inserted ts new_text author track_changes change_id0]
                ++ plain_run after
                ++ skipn (S i) (children_at para q)))
          para).
Proof.
  intros Hne Hrun F. unfold insert_at_run, PyStr.partition, inserted, plain_run.
  rewrite split_last_snoc. destruct after_text as [|c s]; [contradiction|].
  rewrite F. pose proof (child_at _ _ _ _ Hrun) as Hnth.
  assert (Hi : i < List.length (children_at para q)).
  { apply nth_error_Some. rewrite Hnth. discriminate. }
  rewrite remove_at_split.
  set (a := firstn i (children_at para q)).
  set (b := skipn (S i) (children_at para q)).
  assert (La : List.length a = i) by (apply firstn_length_le; lia).
  do 2 f_equal.
  destruct track_changes, (PyStr.truthy after); cbv beta iota zeta;
    rewrite (insert_at_0 a b) by lia;
    rewrite ?(insert_at_1 a b) by lia;
    rewrite ?(insert_at_2 a b) by lia;
    reflexivity.
Qed.

Lemma insert_in_runs_first (para : Element) (r1 r2 : list (Path * Element))
      (pr : Path) (run : Element) :
  (forall y, In y r1 -> run_matches after_text y = false) ->
  PyStr.contains after_text (get_text_content run) = true ->
  insert_in_runs ts after_text new_text author track_changes change_id0 para
                 (r1 ++ (pr, run) :: r2)
  = Some (insert_at_run ts after_text new_text author track_changes change_id0
                        para pr (get_text_content run)).
Proof.
  intros N C. induction r1 as [|[p x] r1 IH]; simpl.
  - now rewrite C.
  - assert (Hx : run_matches after_text (p, x) = false) by (apply N; now left).
    unfold run_matches in Hx. simpl in Hx. rewrite Hx. simpl. apply IH.
    intros y Hy. apply N. now right.
Qed.

Lemma insert_in_runs_absent (para : Element) (runs : list (Path * Element)) :
  existsb (run_matches after_text) runs = false ->
  insert_in_runs ts after_text new_text author track_changes change_id0 para runs
  = None.
Proof.
  intro H. apply insert_in_runs_none. intros run Hr.
  apply in_map_iff in Hr. destruct Hr as ([p x] & <- & Hx).
  destruct (PyStr.contains after_text (get_text_content (snd (p, x)))) eqn:C;
    [|reflexivity].
  assert (existsb (run_matches after_text) runs = true)
    by (apply existsb_exists; eauto).
  congruence.
Qed.

Lemma insert_in_paragraphs_first (root : Element) (p1 p2 : list (Path * Element))
      (pp : Path) (para : Element) :
  (forall y, In y p1 -> paragraph_matches after_text y = false) ->
  paragraph_matches after_text (pp, para) = true ->
  insert_in_paragraphs ts after_text new_text author track_changes change_id0
                       root (p1 ++ (pp, para) :: p2)
  = match insert_in_runs ts after_text new_text author track_changes change_id0
                         para (iter_located (w "r") para) with
    | Some (Ok para') => Some (Ok (update_at pp (fun _ => para') root))
    | Some (Raise err) => Some (Raise err)
    | None => None
    end.
Proof.
  intros N M. induction p1 as [|[p x] p1 IH]; simpl.
  - assert (C : PyStr.contains after_text (get_text_content para) = true).
    { unfold paragraph_matches in M. apply existsb_exists in M.
      destruct M as ([pr run] & Hr & C). simpl in Hr.
      apply iter_located_In in Hr. destruct Hr as [Hr _].
      apply (in_map snd) in Hr. rewrite located_all_snd in Hr.
      eapply contains_within; eauto. }
    rewrite C. simpl.
    destruct (insert_in_runs ts after_text new_text author track_changes
                change_id0 para (iter_located (w "r") para)) as [[?|?]|] eqn:E;
      try reflexivity.
    unfold paragraph_matches in M. simpl in M.
    apply first_match in M. destruct M as (r1 & [pr run] & r2 & L & N1 & C1).
    rewrite L, insert_in_runs_first in E by assumption. discriminate.
  - assert (X : insert_in_runs ts after_text new_text author track_changes
                  change_id0 x (iter_located (w "r") x) = None).
    { apply insert_in_runs_absent. apply (N (p, x)). now left. }
    rewrite X.
    assert (IH' := IH (fun y Hy => N y (or_intror Hy))).
    now destruct (negb (PyStr.contains after_text (get_text_content x))).
Qed.

End InsertPresent.

Lemma run_not_paragraph : w "r" <> w "p".
Proof. intro H. vm_compute in H. discriminate. Qed.

Lemma some_paragraph_matches (s : string) (root para run : Element) :
  In para (find_paragraphs root) -> In run (find_runs para) ->
  PyStr.contains s (get_text_content run) = true ->
  existsb (paragraph_matches s) (iter_located (w "p") root) = true.
Proof.
  unfold find_paragraphs, find_runs. rewrite <- !iter_located_snd.
  intros Hp Hr C.
  apply in_map_iff in Hp. destruct Hp as ([pp x] & <- & Hp).
  apply in_map_iff in Hr. destruct Hr as ([pr y] & <- & Hr).
  apply existsb_exists. exists (pp, x). split; [assumption|].
  unfold paragraph_matches. apply existsb_exists. exists (pr, y). auto.
Qed.

(** The search of [insert_text_after] and its one splice: the first
    paragraph with a run that has the anchor, the first such run in it;
    in the run's place come a run for [before + anchor], the new text,
    and a run for the text after the anchor if there is any. *)
Lemma insert_after_first_match
    (Bytes : Type) (parse : Bytes -> option Element)
    (serialize : Element -> Bytes) (ts : nat -> string)
    (folder folder1 : Folder Bytes) (b : Bytes) (root : Element)
    (after_text new_text author : string) (track_changes : bool) :
  after_text <> EmptyString ->
  document_xml Bytes folder = Some b ->
  parse b = Some root ->
  (if track_changes then enable_track_changes Bytes parse serialize folder
   else Ok folder) = Ok folder1 ->
  (exists para run,
      In para (find_paragraphs root) /\ In run (find_runs para) /\
      PyStr.contains after_text (get_text_content run) = true) ->
  exists p1 pp para p2 r1 q i run r2 before after,
    iter_located (w "p") root = p1 ++ (pp, para) :: p2 /\
    (forall y, In y p1 -> paragraph_matches after_text y = false) /\
    iter_located (w "r") para = r1 ++ (q ++ [i], run) :: r2 /\
    (forall y, In y r1 -> run_matches after_text y = false) /\
    subtree root (pp ++ q ++ [i]) = Some run /\
    get_text_content run = (before ++ after_text ++ after)%string /\
    (forall b' a', get_text_content run = (b' ++ after_text ++ a')%string ->
                   String.length before <= String.length b') /\
    let siblings := children_at root (pp ++ q) in
    let new_elem :=
      inserted ts new_text author track_changes
               (if track_changes then get_next_change_id root else 0%Z) in
    let l := firstn i siblings
             ++ [create_run (before ++ after_text)%string false false; new_elem]
             ++ plain_run after
             ++ skipn (S i) siblings in
    nth_error siblings i = Some run /\
    List.length l = List.length siblings + 1 + List.length (plain_run after) /\
    insert_text_after Bytes parse serialize ts folder after_text new_text
                      track_changes author
    = (Ok true,
       save_document Bytes serialize
         (update_at (pp ++ q) (fun parent => set_children parent l) root)
         folder1).
Proof.
  intros Hne Hd Hp Hen (para0 & run0 & Hpara0 & Hrun0 & C0).
  pose proof (some_paragraph_matches _ _ _ _ Hpara0 Hrun0 C0) as M.
  apply first_match in M. destruct M as (p1 & [pp para] & p2 & LP & NP & MP).
  pose proof MP as MR. unfold paragraph_matches in MR. simpl in MR.
  apply first_match in MR. destruct MR as (r1 & [pr run] & r2 & LR & NR & CR).
  unfold run_matches in CR. simpl in CR.
  assert (Spara : subtree root pp = Some para /\ tag para = w "p").
  { apply iter_located_subtree. rewrite LP. apply in_elt. }
  assert (Srun : subtree para pr = Some run /\ tag run = w "r").
  { apply iter_located_subtree. rewrite LR. apply in_elt. }
  destruct Spara as [Spara Tpara]. destruct Srun as [Srun Trun].
  destruct (exists_last (l := pr)) as (q & i & ->).
  { intros ->. simpl in Srun. injection Srun as ->.
    apply run_not_paragraph. congruence. }
  destruct (PyStr.find after_text (get_text_content run)) as [[before after]|] eqn:F.
  2:{ unfold PyStr.contains in CR. rewrite F in CR. discriminate. }
  exists p1, pp, para, p2, r1, q, i, run, r2, before, after.
  assert (Hnth : nth_error (children_at root (pp ++ q)) i = Some run).
  { rewrite (children_at_app root para pp q Spara). now apply child_at. }
  assert (Hi : i < List.length (children_at root (pp ++ q))).
  { apply nth_error_Some. rewrite Hnth. discriminate. }
  repeat split; auto.
  - rewrite subtree_app, Spara. exact Srun.
  - now apply find_split.
  - now apply (find_leftmost _ _ _ _ F).
  - rewrite !length_app, length_firstn, length_skipn. simpl. lia.
  - unfold insert_text_after, parse_document. rewrite Hd, Hp, Hen, LP.
    rewrite insert_in_paragraphs_first by assumption.
    rewrite LR, insert_in_runs_first by assumption.
    rewrite (insert_at_run_spec _ _ _ _ _ _ para run q i before after Hne Srun F).
    do 2 f_equal.
    rewrite update_at_app.
    rewrite (children_at_app root para pp q Spara).
    symmetry. now apply update_at_const.
Qed.


Example revenue_insert_tracked :
  insert_text_after Element Some (fun e => e) stamp
    (mkFolder Element (Some revenue) None) "Rev" "XX" true "A"
  = (Ok true,
     mkFolder Element
       (Some (body [P [create_run "Rev" false false;
                       create_tracked_insertion "XX" "A" 1 false false (stamp 0);
                       create_run "enue: " false false;
                       R [T "$100"]]]))
       (Some settings_on)).
Proof. vm_compute. reflexivity. Qed.

(** ** Counting identifiers *)

Lemma ids_of_app (l1 l2 : list Element) :
  ids_of (l1 ++ l2) = ids_of l1 ++ ids_of l2.
Proof. unfold ids_of. apply flat_map_app. Qed.

Lemma cnt_unfold (z : Z) (e : Element) :
  cnt z e = own z e + cnts z (children e).
Proof.
  unfold cnt, own, cnts, change_ids. rewrite iter_all_unfold.
  change (e :: flat_map iter_all (children e))
    with ([e] ++ flat_map iter_all (children e)).
  now rewrite ids_of_app, count_occ_app.
Qed.

Lemma cnts_app (z : Z) (a b : list Element) :
  cnts z (a ++ b) = cnts z a + cnts z b.
Proof.
  unfold cnts. now rewrite flat_map_app, ids_of_app, count_occ_app.
Qed.

Lemma cnts_cons (z : Z) (c : Element) (cs : list Element) :
  cnts z (c :: cs) = cnt z c + cnts z cs.
Proof.
  unfold cnts, cnt, change_ids. simpl. now rewrite ids_of_app, count_occ_app.
Qed.

Lemma cnts_nil (z : Z) : cnts z [] = 0.
Proof. reflexivity. Qed.

Lemma own_set_children (z : Z) (e : Element) (l : list Element) :
  own z (set_children e l) = own z e.
Proof. reflexivity. Qed.

Lemma cnts_update_nth (z : Z) (g : Element -> Element) (cs : list Element)
      (j : nat) (c : Element) :
  nth_error cs j = Some c ->
  cnts z (update_nth j g cs) + cnt z c = cnts z cs + cnt z (g c).
Proof.
  revert j. induction cs as [|d cs IH]; intros [|j] H; simpl in H;
    try discriminate.
  - injection H as ->. simpl. rewrite !cnts_cons. lia.
  - simpl. rewrite !cnts_cons. specialize (IH j H). lia.
Qed.

(** Replacing the children of the element at [q] by [l] trades the
    identifiers under the old children for those under [l]. *)
Lemma cnt_update_children (z : Z) (l : list Element) (q : Path) :
  forall e parent,
    subtree e q = Some parent ->
    cnt z (update_at q (fun x => set_children x l) e) + cnts z (children parent)
    = cnt z e + cnts z l.
Proof.
  induction q as [|j q IH]; intros e parent H; simpl in H.
  - injection H as <-. simpl. rewrite !cnt_unfold, own_set_children.
    destruct e; simpl. lia.
  - destruct (nth_error (children e) j) as [c|] eqn:N; [|discriminate].
    simpl. rewrite !cnt_unfold, own_set_children.
    replace (children (set_children e
               (update_nth j (update_at q (fun x => set_children x l))
                           (children e))))
      with (update_nth j (update_at q (fun x => set_children x l)) (children e))
      by now destruct e.
    pose proof (cnts_update_nth z (update_at q (fun x => set_children x l))
                  _ _ _ N) as U.
    specialize (IH c parent H). lia.
Qed.

Lemma cnts_split (z : Z) (cs : list Element) (i : nat) (c : Element) :
  nth_error cs i = Some c ->
  cnts z cs = cnts z (firstn i cs) + cnt z c + cnts z (skipn (S i) cs).
Proof.
  revert i. induction cs as [|d cs IH]; intros [|i] H; simpl in H;
    try discriminate.
  - injection H as ->. cbn [firstn skipn]. rewrite cnts_cons, cnts_nil. lia.
  - simpl firstn. change (skipn (S (S i)) (d :: cs)) with (skipn (S i) cs).
    rewrite !cnts_cons, (IH i H). lia.
Qed.

Lemma cnt_of_ids (z : Z) (e : Element) (l : list Z) :
  change_ids e = l -> cnt z e = count_occ Z.eq_dec l z.
Proof. intros <-. reflexivity. Qed.

Lemma cnts_plain_run (z : Z) (x : string) : cnts z (plain_run x) = 0.
Proof.
  unfold plain_run. destruct (PyStr.truthy x); [|reflexivity].
  rewrite cnts_cons, cnts_nil, (cnt_of_ids z _ [] (change_ids_run x false false)).
  reflexivity.
Qed.

(** ** What a tracked replace does to the identifiers *)

Lemma handed_out_none (c z : Z) : handed_out c c z = 0.
Proof. unfold handed_out. destruct (Z.leb_spec c z), (Z.ltb_spec z c); simpl; lia. Qed.

Lemma handed_out_add (c c1 c2 z : Z) :
  (c <= c1)%Z -> (c1 <= c2)%Z ->
  handed_out c c1 z + handed_out c1 c2 z = handed_out c c2 z.
Proof.
  intros. unfold handed_out.
  destruct (Z.leb_spec c z), (Z.ltb_spec z c1), (Z.leb_spec c1 z),
    (Z.ltb_spec z c2); simpl; lia.
Qed.

Lemma handed_out_two (c z : Z) :
  count_occ Z.eq_dec [c] z + count_occ Z.eq_dec [(c + 1)%Z] z
  = handed_out c (c + 1 + 1) z.
Proof.
  unfold handed_out. simpl.
  destruct (Z.eq_dec c z), (Z.eq_dec (c + 1) z), (Z.leb_spec c z),
    (Z.ltb_spec z (c + 1 + 1)); simpl; lia.
Qed.

Lemma allocates_refl (e : Element) (st : EditState) : allocates e st e st.
Proof.
  unfold allocates. split; [lia|]. split; [lia|]. split; [lia|].
  intro z. rewrite handed_out_none. lia.
Qed.

Lemma allocates_trans (e e1 e2 : Element) (st st1 st2 : EditState) :
  allocates e st e1 st1 -> allocates e1 st1 e2 st2 -> allocates e st e2 st2.
Proof.
  intros (A1 & A2 & A3 & A4) (B1 & B2 & B3 & B4).
  unfold allocates. split; [lia|]. split; [lia|]. split; [lia|].
  intro z. specialize (A4 z). specialize (B4 z).
  rewrite <- (handed_out_add _ (change_id st1)) by lia. lia.
Qed.

Section TrackedIds.

Variable ts : nat -> string.
Variables (find_text replace_with author : string).

Lemma tracked_step_allocates (para run : Element) (q : Path) (i : nat)
      (st st' : EditState) (l : list Element) :
  subtree para (q ++ [i]) = Some run ->
  PyStr.contains find_text (get_text_content run) = true ->
  tracked_splice ts find_text replace_with author st (get_text_content run) i
                 (children_at para q) = Ok (l, st') ->
  allocates para st
            (update_at q (fun parent => set_children parent l) para)
            (count_replacement st').
Proof.
  intros Hrun Hc Hs.
  assert (Hne : find_text <> EmptyString).
  { intros ->. discriminate Hs. }
  unfold PyStr.contains in Hc.
  destruct (PyStr.find find_text (get_text_content run)) as [[before after]|] eqn:F;
    [clear Hc | discriminate].
  pose proof (child_at _ _ _ _ Hrun) as Hnth.
  assert (Hi : i < List.length (children_at para q)).
  { apply nth_error_Some. rewrite Hnth. discriminate. }
  rewrite (tracked_splice_spec ts find_text replace_with author st _ i _ _ _
             Hi F Hne) in Hs.
  injection Hs as <- <-.
  rewrite subtree_app in Hrun.
  destruct (subtree para q) as [parent|] eqn:Hq; [|discriminate].
  assert (Hch : children_at para q = children parent).
  { unfold children_at. now rewrite Hq. }
  unfold allocates, count_replacement. cbn [change_id replacements clock].
  split; [lia|]. split; [lia|]. split; [lia|].
  intro z.
  pose proof (cnt_update_children z
                (firstn i (children_at para q)
                 ++ plain_run before
                 ++ [create_tracked_deletion find_text author (change_id st)
                       (ts (clock st));
                     create_tracked_insertion replace_with author
                       (change_id st + 1) false false (ts (S (clock st)))]
                 ++ plain_run after
                 ++ skipn (S i) (children_at para q))
                q para parent Hq) as U.
  rewrite !cnts_app, !cnts_plain_run, !cnts_cons, cnts_nil in U.
  rewrite (cnt_of_ids z _ _ (change_ids_deletion _ _ _ _)) in U.
  rewrite (cnt_of_ids z _ _ (change_ids_insertion _ _ _ _)) in U.
  rewrite <- Hch in U.
  rewrite (cnts_split z _ _ _ Hnth) in U at 1.
  pose proof (handed_out_two (change_id st) z) as T.
  match type of U with
  | (?a + _ = _) =>
      assert (G : a <= cnt z para
                       + handed_out (change_id st) (change_id st + 1 + 1) z)
        by lia;
      exact G
  end.
Qed.

Lemma replace_in_runs_allocates (runs : list Handle) :
  forall para st moved para' st',
    replace_in_runs ts find_text replace_with author true para st moved runs
    = Ok (para', st') ->
    allocates para st para' st'.
Proof.
  induction runs as [|h0 runs IH]; intros para st moved para' st' H;
    cbn [replace_in_runs] in H.
  - injection H as <- <-. apply allocates_refl.
  - destruct (resolve para (moved h0)) as [run|] eqn:Hres; [|discriminate].
    destruct (PyStr.contains find_text (get_text_content run)) eqn:Hc;
      cbn [negb] in H; [|now apply IH in H].
    destruct (moved h0) as [p|]; [|discriminate].
    destruct (split_last p) as [[q i]|] eqn:Hsp; [|discriminate].
    apply split_last_inv in Hsp. subst p. simpl in Hres.
    destruct (tracked_splice ts find_text replace_with author st
                (get_text_content run) i (children_at para q))
      as [[l st1]|] eqn:Hs; [|discriminate].
    apply IH in H.
    eapply allocates_trans; [|exact H].
    eapply tracked_step_allocates; eauto.
Qed.

Lemma replace_in_paragraph_allocates (para para' : Element) (st st' : EditState) :
  replace_in_paragraph ts find_text replace_with author true para st
  = Ok (para', st') ->
  allocates para st para' st'.
Proof.
  unfold replace_in_paragraph.
  destruct (negb (PyStr.contains find_text (get_text_content para))).
  - intros [= <- <-]. apply allocates_refl.
  - apply replace_in_runs_allocates.
Qed.

End TrackedIds.

Lemma allocates_list_nil (st : EditState) : allocates_list [] st [] st.
Proof.
  unfold allocates_list. split; [lia|]. split; [lia|]. split; [lia|].
  intro z. rewrite handed_out_none. lia.
Qed.

Lemma allocates_list_cons (c c' : Element) (cs l : list Element)
      (st st1 st2 : EditState) :
  allocates c st c' st1 -> allocates_list cs st1 l st2 ->
  allocates_list (c :: cs) st (c' :: l) st2.
Proof.
  intros (A1 & A2 & A3 & A4) (B1 & B2 & B3 & B4).
  unfold allocates_list. split; [lia|]. split; [lia|]. split; [lia|].
  intro z. specialize (A4 z). specialize (B4 z). rewrite !cnts_cons.
  rewrite <- (handed_out_add _ (change_id st1)) by lia. lia.
Qed.

Lemma allocates_set_children (e : Element) (l : list Element)
      (st st' : EditState) :
  allocates_list (children e) st l st' -> allocates e st (set_children e l) st'.
Proof.
  intros (A1 & A2 & A3 & A4).
  unfold allocates. split; [lia|]. split; [lia|]. split; [lia|].
  intro z. specialize (A4 z). rewrite !cnt_unfold, own_set_children.
  replace (children (set_children e l)) with l by now destruct e. lia.
Qed.

Section TrackedTraversal.

Variable ts : nat -> string.
Variables (find_text replace_with author : string).

Let visit := replace_from ts find_text replace_with author true.

Lemma replace_children_allocates (k : nat) :
  (forall c st c' st', visit k c st = Some (Ok (c', st')) ->
                       allocates c st c' st') ->
  forall cs st l st',
    replace_children (visit k) cs st = Some (Ok (l, st')) ->
    allocates_list cs st l st'.
Proof.
  intros IH cs. induction cs as [|c cs IHcs]; intros st l st' H; simpl in H.
  - injection H as <- <-. apply allocates_list_nil.
  - destruct (visit k c st) as [[[c' st1]|]|] eqn:V; try discriminate.
    destruct (replace_children (visit k) cs st1) as [[[l' st2]|]|] eqn:R;
      try discriminate.
    injection H as <- <-.
    eapply allocates_list_cons; eauto.
Qed.

Lemma replace_from_allocates (fuel : nat) :
  forall e st e' st',
    visit fuel e st = Some (Ok (e', st')) -> allocates e st e' st'.
Proof.
  induction fuel as [|k IH]; intros e st e' st' H;
    unfold visit in H; rewrite replace_from_unfold in H;
    destruct (has_paragraph e); cbn [negb] in H;
    try discriminate;
    try (injection H as <- <-; apply allocates_refl).
  destruct (if is_paragraph e
            then replace_in_paragraph ts find_text replace_with author true e st
            else Ok (e, st)) as [[e1 st1]|] eqn:B; [|discriminate].
  assert (A1 : allocates e st e1 st1).
  { destruct (is_paragraph e).
    - now apply replace_in_paragraph_allocates in B.
    - injection B as <- <-. apply allocates_refl. }
  destruct (replace_children
              (replace_from ts find_text replace_with author true k)
              (children e1) st1) as [[[l st2]|]|] eqn:R; try discriminate.
  injection H as <- <-.
  eapply allocates_trans; [exact A1|].
  apply allocates_set_children.
  eapply replace_children_allocates; eauto.
Qed.

End TrackedTraversal.

(** Unique identifiers, all below the counter, stay unique. *)
Lemma allocates_NoDup (e e' : Element) (st st' : EditState) :
  allocates e st e' st' ->
  NoDup (change_ids e) ->
  Forall (fun z => (z < change_id st)%Z) (change_ids e) ->
  NoDup (change_ids e') /\
  Forall (fun z => (z < change_id st')%Z) (change_ids e') /\
  (forall z, In z (change_ids e') ->
             In z (change_ids e) \/ (change_id st <= z < change_id st')%Z).
Proof.
  intros (A1 & A2 & A3 & A4) N L.
  rewrite Forall_forall in L.
  assert (K : forall z, In z (change_ids e') ->
                        In z (change_ids e)
                        \/ (change_id st <= z < change_id st')%Z).
  { intros z Hz. specialize (A4 z).
    apply (count_occ_In Z.eq_dec) in Hz. unfold cnt in A4.
    destruct (in_dec Z.eq_dec z (change_ids e)) as [I|I]; [now left|].
    right. apply (count_occ_not_In Z.eq_dec) in I.
    unfold handed_out in A4.
    destruct (Z.leb_spec (change_id st) z), (Z.ltb_spec z (change_id st'));
      simpl in A4; lia. }
  split; [|split; [|exact K]].
  - apply (NoDup_count_occ Z.eq_dec). intro z. specialize (A4 z).
    unfold cnt in A4.
    rewrite (NoDup_count_occ Z.eq_dec) in N. specialize (N z).
    unfold handed_out in A4.
    destruct (Z.leb_spec (change_id st) z), (Z.ltb_spec z (change_id st'));
      simpl in A4; try lia.
    assert (count_occ Z.eq_dec (change_ids e) z = 0); [|lia].
    apply count_occ_not_In. intro I. specialize (L z I). lia.
  - apply Forall_forall. intros z Hz. destruct (K z Hz) as [I|I].
    + specialize (L z I). lia.
    + lia.
Qed.

(** ** The nesting of paragraphs does not grow *)

Lemma max_depth_app (a b : list Element) :
  max_depth (a ++ b) = Nat.max (max_depth a) (max_depth b).
Proof. induction a as [|c a IH]; simpl; [reflexivity|]. rewrite IH. lia. Qed.

Lemma max_depth_cons (c : Element) (cs : list Element) :
  max_depth (c :: cs) = Nat.max (paragraph_depth c) (max_depth cs).
Proof. reflexivity. Qed.

Lemma max_depth_firstn (i : nat) (cs : list Element) :
  max_depth (firstn i cs) <= max_depth cs.
Proof.
  rewrite <- (firstn_skipn i cs) at 2. rewrite max_depth_app. lia.
Qed.

Lemma max_depth_skipn (i : nat) (cs : list Element) :
  max_depth (skipn i cs) <= max_depth cs.
Proof.
  rewrite <- (firstn_skipn i cs) at 2. rewrite max_depth_app. lia.
Qed.

Lemma paragraph_depth_mono (e : Element) (l : list Element) :
  max_depth l <= max_depth (children e) ->
  paragraph_depth (set_children e l) <= paragraph_depth e.
Proof.
  intro H. rewrite !paragraph_depth_unfold.
  replace (children (set_children e l)) with l by now destruct e.
  replace (is_paragraph (set_children e l)) with (is_paragraph e)
    by now destruct e.
  destruct (is_paragraph e); simpl; [lia|].
  destruct (Nat.ltb_spec 0 (max_depth l)),
    (Nat.ltb_spec 0 (max_depth (children e))); lia.
Qed.

Lemma max_depth_update_nth (g : Element -> Element) (cs : list Element)
      (j : nat) (c : Element) :
  nth_error cs j = Some c ->
  paragraph_depth (g c) <= paragraph_depth c ->
  max_depth (update_nth j g cs) <= max_depth cs.
Proof.
  revert j. induction cs as [|d cs IH]; intros [|j] H D; simpl in H;
    try discriminate.
  - injection H as ->. simpl. lia.
  - simpl. specialize (IH j H D). lia.
Qed.

(** An update that does not deepen the element it is applied to does not
    deepen the tree. *)
Lemma paragraph_depth_update (g : Element -> Element) (q : Path) :
  forall e x,
    subtree e q = Some x ->
    paragraph_depth (g x) <= paragraph_depth x ->
    paragraph_depth (update_at q g e) <= paragraph_depth e.
Proof.
  induction q as [|j q IH]; intros e x H D; simpl in H.
  - injection H as <-. exact D.
  - destruct (nth_error (children e) j) as [c|] eqn:N; [|discriminate].
    simpl. apply paragraph_depth_mono.
    eapply max_depth_update_nth; eauto.
Qed.

Lemma paragraph_depth_without_text (e : Element) :
  paragraph_depth (without_text e) = paragraph_depth e.
Proof.
  induction e as [t a tx tl cs IH] using Element_ind.
  change (without_text (mkElement t a tx tl cs))
    with (mkElement t a None tl (map without_text cs)).
  rewrite !paragraph_depth_unfold. cbn [children].
  assert (M : max_depth (map without_text cs) = max_depth cs).
  { induction IH as [|c cs Hc _ IHcs]; [reflexivity|].
    cbn [map]. rewrite !max_depth_cons. now rewrite Hc, IHcs. }
  rewrite M. reflexivity.
Qed.

Lemma paragraph_depth_set_first (run : Element) (x : string) :
  paragraph_depth (set_first_text run x) = paragraph_depth run.
Proof.
  rewrite <- paragraph_depth_without_text, without_text_set_first.
  apply paragraph_depth_without_text.
Qed.

Lemma paragraph_depth_run (x : string) :
  paragraph_depth (create_run x false false) = 0.
Proof.
  unfold create_run, create_text_element. rewrite andb_true_l.
  destruct (PyStr.startswith_space x || PyStr.endswith_space x);
    vm_compute; reflexivity.
Qed.

Lemma paragraph_depth_deletion (x author : string) (n : Z) (s : string) :
  paragraph_depth (create_tracked_deletion x author n s) = 0.
Proof.
  unfold create_tracked_deletion, create_del_text.
  destruct (PyStr.startswith_space x || PyStr.endswith_space x);
    vm_compute; reflexivity.
Qed.

Lemma paragraph_depth_insertion (x author : string) (n : Z) (s : string) :
  paragraph_depth (create_tracked_insertion x author n false false s) = 0.
Proof.
  unfold create_tracked_insertion, create_run, create_text_element.
  rewrite andb_true_l.
  destruct (PyStr.startswith_space x || PyStr.endswith_space x);
    vm_compute; reflexivity.
Qed.

Lemma max_depth_plain_run (x : string) : max_depth (plain_run x) = 0.
Proof.
  unfold plain_run. destruct (PyStr.truthy x); [|reflexivity].
  rewrite max_depth_cons, paragraph_depth_run. reflexivity.
Qed.

Section Fuel.

Variable ts : nat -> string.
Variables (find_text replace_with author : string) (track_changes : bool).

Let visit := replace_from ts find_text replace_with author track_changes.

Lemma tracked_splice_depth (st st' : EditState) (run_text : string) (i : nat)
      (siblings l : list Element) :
  tracked_splice ts find_text replace_with author st run_text i siblings
  = Ok (l, st') ->
  max_depth l <= max_depth siblings.
Proof.
  unfold tracked_splice.
  destruct (PyStr.partition find_text run_text) as [[[before sep] after]|];
    [|discriminate].
  assert (R : max_depth (remove_at i siblings) <= max_depth siblings).
  { rewrite remove_at_split, max_depth_app.
    pose proof (max_depth_firstn i siblings).
    pose proof (max_depth_skipn (S i) siblings). lia. }
  assert (I : forall k x cs, paragraph_depth x = 0 ->
                             max_depth (insert_at k x cs) = max_depth cs).
  { intros k x cs Hx. revert k. induction cs as [|c cs IH]; intros [|k]; simpl;
      rewrite ?Hx; try reflexivity. now rewrite IH. }
  destruct (PyStr.truthy before), (PyStr.truthy after); cbv beta iota zeta;
    intro H;
    apply (f_equal (fun r => match r with
                             | Ok (l0, _) => max_depth l0
                             | Raise _ => 0
                             end)) in H;
    cbv beta iota in H; rewrite <- H;
    rewrite ?I by auto using paragraph_depth_run, paragraph_depth_deletion,
                       paragraph_depth_insertion;
    exact R.
Qed.

Lemma replace_in_runs_depth (runs : list Handle) :
  forall para st moved para' st',
    replace_in_runs ts find_text replace_with author track_changes
                    para st moved runs = Ok (para', st') ->
    paragraph_depth para' <= paragraph_depth para.
Proof.
  induction runs as [|h0 runs IH]; intros para st moved para' st' H;
    cbn [replace_in_runs] in H.
  - injection H as <- _. lia.
  - destruct (resolve para (moved h0)) as [run|] eqn:Hres; [|discriminate].
    destruct (PyStr.contains find_text (get_text_content run)) eqn:Hc;
      cbn [negb] in H; [|now apply IH in H].
    destruct (moved h0) as [p|]; [|discriminate].
    destruct (split_last p) as [[q i]|] eqn:Hsp; [|discriminate].
    apply split_last_inv in Hsp. subst p. simpl in Hres.
    destruct track_changes.
    + destruct (tracked_splice ts find_text replace_with author st
                  (get_text_content run) i (children_at para q))
        as [[l st1]|] eqn:Hs; [|discriminate].
      apply IH in H. etransitivity; [exact H|].
      apply tracked_splice_depth in Hs.
      rewrite subtree_app in Hres.
      destruct (subtree para q) as [parent|] eqn:Hq; [|discriminate].
      eapply paragraph_depth_update; [exact Hq|].
      apply paragraph_depth_mono.
      unfold children_at in Hs. now rewrite Hq in Hs.
    + apply IH in H. etransitivity; [exact H|].
      eapply paragraph_depth_update; [exact Hres|].
      unfold untracked_edit. now rewrite paragraph_depth_set_first.
Qed.

Lemma replace_in_paragraph_depth (para para' : Element) (st st' : EditState) :
  replace_in_paragraph ts find_text replace_with author track_changes para st
  = Ok (para', st') ->
  paragraph_depth para' <= paragraph_depth para.
Proof.
  unfold replace_in_paragraph.
  destruct (negb (PyStr.contains find_text (get_text_content para))).
  - intros [= <- _]. lia.
  - apply replace_in_runs_depth.
Qed.

Lemma children_depth (e : Element) (k : nat) :
  paragraph_depth e <= S k -> max_depth (children e) <= k.
Proof.
  rewrite paragraph_depth_unfold.
  destruct (Nat.ltb_spec 0 (max_depth (children e)));
    destruct (is_paragraph e); simpl; lia.
Qed.

(** The fuel [paragraph_depth e] is enough: the loop over the
    paragraphs always comes to an end. *)
Theorem replace_from_terminates (fuel : nat) :
  forall e st, paragraph_depth e <= fuel -> visit fuel e st <> None.
Proof.
  induction fuel as [|k IH]; intros e st D; unfold visit;
    rewrite replace_from_unfold;
    destruct (has_paragraph e) eqn:Hp; cbn [negb]; try discriminate.
  - apply has_paragraph_depth in Hp. lia.
  - destruct (if is_paragraph e
              then replace_in_paragraph ts find_text replace_with author
                                        track_changes e st
              else Ok (e, st)) as [[e1 st1]|] eqn:B; [|discriminate].
    assert (D1 : paragraph_depth e1 <= S k).
    { destruct (is_paragraph e).
      - apply replace_in_paragraph_depth in B. lia.
      - injection B as <- _. exact D. }
    apply children_depth in D1.
    assert (C : forall cs st0, max_depth cs <= k ->
                  replace_children
                    (replace_from ts find_text replace_with author
                                  track_changes k) cs st0 <> None).
    { induction cs as [|c cs IHcs]; intros st0 M; simpl; [discriminate|].
      rewrite max_depth_cons in M.
      pose proof (IH c st0 ltac:(lia)) as V. unfold visit in V.
      destruct (replace_from ts find_text replace_with author track_changes
                             k c st0) as [[[c' st2]|]|]; try discriminate;
        [|contradiction].
      pose proof (IHcs st2 ltac:(lia)) as W.
      destruct (replace_children _ cs st2) as [[[l st3]|]|]; try discriminate.
      contradiction. }
    specialize (C (children e1) st1 D1).
    destruct (replace_children _ (children e1) st1) as [[[l st2]|]|];
      try discriminate. contradiction.
Qed.

End Fuel.

(** ** Unique identifiers *)

Lemma insert_at_In {A} (i : nat) (x : A) (l : list A) : In x (insert_at i x l).
Proof.
  revert i. induction l as [|y l IH]; intros [|i]; simpl; auto.
Qed.

Lemma insert_at_incl {A} (i : nat) (x y : A) (l : list A) :
  In y l -> In y (insert_at i x l).
Proof.
  revert i. induction l as [|z l IH]; intros [|i]; simpl; auto.
  intros [->|H]; auto.
Qed.

(** Every turn of the tracked branch hands out the counter's value to
    the deletion record, the next value to the insertion record, and
    leaves the counter two higher. *)
Lemma tracked_splice_records
      (ts : nat -> string) (find_text replace_with author : string)
      (st st' : EditState) (run_text : string) (i : nat)
      (siblings l : list Element) :
  tracked_splice ts find_text replace_with author st run_text i siblings
  = Ok (l, st') ->
  change_id st' = (change_id st + 1 + 1)%Z /\
  In (create_tracked_deletion find_text author (change_id st) (ts (clock st))) l /\
  In (create_tracked_insertion replace_with author (change_id st + 1) false false
                               (ts (S (clock st)))) l.
Proof.
  unfold tracked_splice.
  destruct (PyStr.partition find_text run_text) as [[[before sep] after]|];
    [|discriminate].
  destruct (PyStr.truthy before), (PyStr.truthy after); cbv beta iota zeta;
    intro H;
    pose proof (f_equal (fun r => match r with
                                  | Ok (_, s) => change_id s
                                  | Raise _ => 0%Z
                                  end) H) as H1;
    apply (f_equal (fun r => match r with
                             | Ok (l0, _) => l0
                             | Raise _ => []
                             end)) in H;
    cbv beta iota in H, H1; cbn [change_id] in H1; rewrite <- H;
    (split; [now symmetry|]); split;
    auto using insert_at_In, insert_at_incl.
Qed.

(** C9 (what fails): the identifier 1 written with 4301 digits is the
    only one of the tree, the allocator passes it over and starts at 1,
    and the tracked replace writes the ID 1 beside it: the identifiers
    of the saved tree are not unique, and the new ID is not greater than
    the one that was there. *)
Lemma C9_long_id_counterexample :
  change_ids long_reviewed = [1%Z] /\
  NoDup (change_ids long_reviewed) /\
  get_next_change_id long_reviewed = 1%Z /\
  exists root',
    replace_text Element Some (fun e => e) stamp
      (mkFolder Element (Some long_reviewed) None) "$100" "$200" true "A"
    = (Ok 1, mkFolder Element (Some root') (Some settings_on)) /\
    root' = body [P [with_id long_one [];
                     create_tracked_deletion "$100" "A" 1 (stamp 0);
                     create_tracked_insertion "$200" "A" 2 false false
                                              (stamp 1)]] /\
    change_ids root' = [1%Z; 1%Z; 2%Z] /\
    ~ NoDup (change_ids root').
Proof.
  split; [vm_compute; reflexivity|].
  split.
  { assert (E : change_ids long_reviewed = [1%Z]) by (vm_compute; reflexivity).
    rewrite E. repeat constructor. intros []. }
  split; [vm_compute; reflexivity|].
  exists (body [P [with_id long_one [];
                   create_tracked_deletion "$100" "A" 1 (stamp 0);
                   create_tracked_insertion "$200" "A" 2 false false
                                            (stamp 1)]]).
  split; [vm_compute; reflexivity|].
  split; [reflexivity|].
  assert (E : change_ids
                (body [P [with_id long_one [];
                          create_tracked_deletion "$100" "A" 1 (stamp 0);
                          create_tracked_insertion "$200" "A" 2 false false
                                                   (stamp 1)]])
              = [1%Z; 1%Z; 2%Z]) by (vm_compute; reflexivity).
  split; [exact E|]. rewrite E. intro N.
  inversion N as [|? ? H _]. apply H. now left.
Qed.

(** C9 (amended): if the identifiers of the tree are unique and none of
    them has more than 4300 digits, then after a tracked replace that
    returns, the identifiers of the saved tree are unique again; every
    identifier that was not there before lies in the range handed out
    by the operation, which starts above every identifier of the old
    tree and has two values per replacement counted; and every turn
    gives the counter's value to the deletion record, the next one to
    the insertion record and leaves the counter two higher. *)
Theorem C9_ids_stay_unique
    (Bytes : Type) (parse : Bytes -> option Element)
    (serialize : Element -> Bytes) (ts : nat -> string)
    (folder folder' : Folder Bytes) (b : Bytes) (root : Element)
    (find_text replace_with author : string) (n : nat) :
  document_xml Bytes folder = Some b ->
  parse b = Some root ->
  NoDup (change_ids root) ->
  readable root = true ->
  replace_text Bytes parse serialize ts folder find_text replace_with true author
  = (Ok n, folder') ->
  exists root',
    document_xml Bytes folder' = Some (serialize root') /\
    NoDup (change_ids root') /\
    Forall (fun z => (z < get_next_change_id root)%Z) (change_ids root) /\
    (forall z, In z (change_ids root') ->
               In z (change_ids root) \/
               (get_next_change_id root <= z
                < get_next_change_id root + 2 * Z.of_nat n)%Z) /\
    (forall st st' run_text i siblings l,
        tracked_splice ts find_text replace_with author st run_text i siblings
        = Ok (l, st') ->
        let del_elem :=
          create_tracked_deletion find_text author (change_id st)
                                  (ts (clock st)) in
        let ins_elem :=
          create_tracked_insertion replace_with author (change_id st + 1)
                                   false false (ts (S (clock st))) in
        In del_elem l /\ In ins_elem l /\
        change_ids del_elem = [change_id st] /\
        change_ids ins_elem = [(change_id st + 1)%Z] /\
        change_id st' = (change_id st + 1 + 1)%Z).
Proof.
  intros Hd Hp N Hr H.
  unfold replace_text, parse_document in H. rewrite Hd, Hp in H.
  destruct (enable_track_changes Bytes parse serialize folder) as [folder1|];
    [|discriminate].
  destruct (replace_from ts find_text replace_with author true
              (paragraph_depth root) root
              (mkState (get_next_change_id root) 0 0))
    as [[[root' st']|]|] eqn:V; try discriminate.
  injection H as <- <-.
  apply replace_from_allocates in V.
  assert (L : Forall (fun z => (z < get_next_change_id root)%Z) (change_ids root)).
  { rewrite (get_next_change_id_max0 root Hr).
    eapply Forall_impl; [|apply max0_upper]. simpl. intros; lia. }
  destruct (allocates_NoDup _ _ _ _ V N L) as (N' & _ & K).
  destruct V as (_ & _ & A3 & _). cbn [change_id replacements] in *.
  exists root'. split; [reflexivity|]. split; [exact N'|]. split; [exact L|].
  split.
  - intros z Hz. destruct (K z Hz) as [I|I]; [now left|right]. lia.
  - intros st st0 run_text i siblings l Hs. cbv zeta.
    destruct (tracked_splice_records _ _ _ _ _ _ _ _ _ _ Hs) as (S1 & S2 & S3).
    auto using change_ids_deletion, change_ids_insertion.
Qed.

Lemma C9_ids_stay_unique_witness :
  exists root',
    NoDup (change_ids root') /\
    (change_ids root' = [7%Z; 8%Z; 9%Z; 3%Z]) /\
    (fst (replace_text Element Some (fun e => e) stamp
            (mkFolder Element (Some reviewed) None) "$100" "$200" true "A")
     = Ok 1).
Proof.
  assert (N : NoDup (change_ids reviewed)).
  { assert (E : change_ids reviewed = [7%Z; 3%Z]) by (vm_compute; reflexivity).
    rewrite E. repeat constructor; simpl; intuition discriminate. }
  destruct (C9_ids_stay_unique Element Some (fun e => e) stamp
              (mkFolder Element (Some reviewed) None)
              (snd (replace_text Element Some (fun e => e) stamp
                      (mkFolder Element (Some reviewed) None)
                      "$100" "$200" true "A"))
              reviewed reviewed "$100" "$200" "A" 1 eq_refl eq_refl N eq_refl)
    as (root' & D & N' & _).
  { vm_compute. reflexivity. }
  exists root'. split; [exact N'|].
  vm_compute in D. injection D as <-. split; vm_compute; reflexivity.
Defined.

(** ** The outcomes of the model are outcomes of the code *)

Lemma children_without_text (e : Element) :
  children (without_text e) = map without_text (children e).
Proof. now destruct e. Qed.

Lemma subtree_without_text (p : Path) :
  forall e, subtree (without_text e) p = option_map without_text (subtree e p).
Proof.
  induction p as [|i p IH]; intro e; simpl; [reflexivity|].
  rewrite children_without_text, nth_error_map.
  destruct (nth_error (children e) i); simpl; auto.
Qed.

Lemma without_text_update_at (g : Element -> Element) (p : Path) :
  forall e x,
    subtree e p = Some x -> without_text (g x) = without_text x ->
    without_text (update_at p g e) = without_text e.
Proof.
  induction p as [|i p IH]; intros e x H G; simpl in H.
  - now injection H as <-.
  - destruct (nth_error (children e) i) as [c|] eqn:N; [|discriminate].
    destruct e as [t a tx tl cs]. simpl in *. f_equal.
    clear t a tx tl. revert i N.
    induction cs as [|d cs IHcs]; intros [|i] N; simpl in N; try discriminate.
    + injection N as ->. simpl. f_equal. eapply IH; eauto.
    + simpl. f_equal. now apply IHcs.
Qed.

(** The same markup has the same paths. *)
Lemma same_markup_paths (e e' : Element) (p : Path) :
  without_text e' = without_text e ->
  subtree e p <> None -> subtree e' p <> None.
Proof.
  intros W H E. apply H.
  pose proof (subtree_without_text p e) as A.
  pose proof (subtree_without_text p e') as B.
  rewrite W, A, E in B. now destruct (subtree e p).
Qed.

Lemma strip_prefix_app (q p r : Path) :
  strip_prefix q p = Some r -> p = q ++ r.
Proof.
  revert p. induction q as [|i q IH]; intros p H; simpl in H.
  - now injection H as ->.
  - destruct p as [|j p]; [discriminate|].
    destruct (Nat.eqb_spec i j) as [->|]; [|discriminate].
    simpl. f_equal. now apply IH.
Qed.

Lemma nth_error_update_nth_same {A} (g : A -> A) (l : list A) (i : nat) :
  nth_error (update_nth i g l) i = option_map g (nth_error l i).
Proof.
  revert i. induction l as [|y l IH]; intros [|i]; simpl; auto.
Qed.

Lemma nth_error_update_nth_other {A} (g : A -> A) (l : list A) (i j : nat) :
  i <> j -> nth_error (update_nth i g l) j = nth_error l j.
Proof.
  revert i j. induction l as [|y l IH]; intros [|i] [|j] H; simpl; auto.
  contradiction.
Qed.

Lemma children_set_children (e : Element) (l : list Element) :
  children (set_children e l) = l.
Proof. now destruct e. Qed.

(** An update at [q] keeps the paths that do not pass through [q]. *)
Lemma subtree_update_off (g : Element -> Element) (q : Path) :
  forall e p,
    strip_prefix q p = None -> subtree e p <> None ->
    subtree (update_at q g e) p <> None.
Proof.
  induction q as [|i q IH]; intros e p S H; simpl in S; [discriminate|].
  destruct p as [|j p]; [simpl; discriminate|].
  simpl in *. rewrite ?children_set_children.
  destruct (Nat.eqb_spec i j) as [->|D].
  - rewrite nth_error_update_nth_same.
    destruct (nth_error (children e) j) as [c|]; [|contradiction].
    simpl. now apply IH.
  - now rewrite nth_error_update_nth_other.
Qed.

Lemma subtree_update_under (g : Element -> Element) (q r : Path) :
  forall e parent,
    subtree e q = Some parent ->
    subtree (update_at q g e) (q ++ r) = subtree (g parent) r.
Proof.
  induction q as [|i q IH]; intros e parent H; simpl in H.
  - now injection H as <-.
  - destruct (nth_error (children e) i) as [c|] eqn:N; [|discriminate].
    simpl. rewrite ?children_set_children, nth_error_update_nth_same, N.
    simpl. now apply IH.
Qed.

Lemma nth_error_splice_before {A} (l m : list A) (i j : nat) :
  j < i -> i <= List.length l ->
  nth_error (firstn i l ++ m ++ skipn (S i) l) j = nth_error l j.
Proof.
  intros H L. rewrite nth_error_app1 by (rewrite length_firstn; lia).
  rewrite nth_error_firstn.
  destruct (Nat.ltb_spec j i); [reflexivity | lia].
Qed.

Lemma nth_error_splice_after {A} (l m : list A) (i j : nat) :
  i < j -> i < List.length l ->
  nth_error (firstn i l ++ m ++ skipn (S i) l) (j + List.length m - 1)
  = nth_error l j.
Proof.
  intros H L.
  rewrite nth_error_app2 by (rewrite length_firstn; lia).
  rewrite length_firstn, Nat.min_l by lia.
  rewrite nth_error_app2 by lia.
  rewrite nth_error_skipn. f_equal. lia.
Qed.

(** After the child [i] of the element at [q] has given way to the
    elements [m], every run of the list is where [adjust] says. *)
Lemma adjust_valid (para parent old : Element) (q : Path) (i : nat)
      (m : list Element) (h : Handle) :
  subtree para q = Some parent ->
  nth_error (children parent) i = Some old ->
  resolve para h <> None ->
  resolve
    (update_at q
       (fun x => set_children x
                   (firstn i (children parent) ++ m
                    ++ skipn (S i) (children parent)))
       para)
    (adjust q i (List.length m) old h) <> None.
Proof.
  intros Hq Hi H. destruct h as [p|e]; [|simpl; discriminate].
  assert (Li : i < List.length (children parent)).
  { apply nth_error_Some. rewrite Hi. discriminate. }
  simpl in H. unfold adjust.
  destruct (strip_prefix q p) as [[|j p']|] eqn:S.
  - simpl. apply strip_prefix_app in S. subst p.
    rewrite (subtree_update_under _ q [] para parent Hq). discriminate.
  - apply strip_prefix_app in S. subst p.
    rewrite subtree_app, Hq in H. simpl in H.
    destruct (Nat.eqb_spec j i) as [->|D].
    + rewrite Hi in H. destruct (subtree old p'); [simpl; discriminate|].
      contradiction.
    + destruct (Nat.ltb_spec i j); cbn [resolve].
      * rewrite (subtree_update_under _ q _ para parent Hq). cbn [subtree].
        rewrite children_set_children, nth_error_splice_after by lia.
        exact H.
      * rewrite (subtree_update_under _ q _ para parent Hq). cbn [subtree].
        rewrite children_set_children, nth_error_splice_before by lia.
        exact H.
  - simpl. now apply subtree_update_off.
Qed.

Section Possible.

Variable ts : nat -> string.
Variables (find_text replace_with author : string) (track_changes : bool).

Lemma tracked_splice_raises (st : EditState) (run_text : string) (i : nat)
      (siblings : list Element) (err : Error) :
  tracked_splice ts find_text replace_with author st run_text i siblings
  = Raise err -> err = ValueError.
Proof.
  unfold tracked_splice.
  destruct (PyStr.partition find_text run_text) as [[[before sep] after]|].
  - destruct (PyStr.truthy before); discriminate.
  - now intros [= <-].
Qed.

Lemma replace_in_runs_possible (runs : list Handle) :
  forall para st moved,
    (forall h, In h runs -> resolve para (moved h) <> None) ->
    replace_in_runs ts find_text replace_with author track_changes
                    para st moved runs <> Raise Impossible.
Proof.
  induction runs as [|h0 runs IH]; intros para st moved V;
    cbn [replace_in_runs]; [discriminate|].
  pose proof (V h0 (or_introl eq_refl)) as V0.
  assert (Vr : forall h, In h runs -> resolve para (moved h) <> None)
    by (intros; apply V; now right).
  destruct (resolve para (moved h0)) as [run|] eqn:Hres; [|contradiction].
  destruct (PyStr.contains find_text (get_text_content run)) eqn:Hc;
    cbn [negb]; [|now apply IH].
  destruct (moved h0) as [p|]; [|discriminate].
  destruct (split_last p) as [[q i]|] eqn:Hsp; [|discriminate].
  apply split_last_inv in Hsp. subst p. simpl in Hres.
  destruct track_changes.
  - destruct (tracked_splice ts find_text replace_with author st
                (get_text_content run) i (children_at para q))
      as [[l st1]|err] eqn:Hs.
    2:{ apply tracked_splice_raises in Hs. subst err. discriminate. }
    assert (Hne : find_text <> EmptyString).
    { intros ->. discriminate Hs. }
    unfold PyStr.contains in Hc.
    destruct (PyStr.find find_text (get_text_content run))
      as [[before after]|] eqn:F; [clear Hc | discriminate].
    pose proof (child_at _ _ _ _ Hres) as Hnth.
    assert (Hi : i < List.length (children_at para q)).
    { apply nth_error_Some. rewrite Hnth. discriminate. }
    rewrite (tracked_splice_spec ts find_text replace_with author st _ i _ _ _
               Hi F Hne) in Hs.
    rewrite subtree_app in Hres.
    destruct (subtree para q) as [parent|] eqn:Hq; [|discriminate].
    assert (Hch : children_at para q = children parent).
    { unfold children_at. now rewrite Hq. }
    rewrite Hch in *.
    set (m := plain_run before
              ++ [create_tracked_deletion find_text author (change_id st)
                    (ts (clock st));
                  create_tracked_insertion replace_with author
                    (change_id st + 1) false false (ts (S (clock st)))]
              ++ plain_run after) in *.
    assert (El : l = firstn i (children parent) ++ m
                     ++ skipn (S i) (children parent)).
    { apply (f_equal (fun r => match r with
                               | Ok (l0, _) => l0
                               | Raise _ => []
                               end)) in Hs.
      cbv beta iota in Hs. rewrite <- Hs. unfold m.
      now rewrite <- !app_assoc. }
    assert (Ek : List.length l + 1 - List.length (children parent)
                 = List.length m).
    { rewrite El, !length_app, length_firstn, length_skipn. lia. }
    rewrite Ek. apply IH. intros h Hh. rewrite El.
    apply adjust_valid; auto.
  - apply IH. intros h Hh. specialize (Vr h Hh).
    destruct (moved h) as [p|e]; [|simpl; discriminate].
    simpl in *. apply (same_markup_paths para); [|exact Vr].
    eapply without_text_update_at; [exact Hres|].
    apply without_text_set_first.
Qed.

End Possible.

Section PossibleTraversal.

Variable ts : nat -> string.
Variables (find_text replace_with author : string) (track_changes : bool).

Let visit := replace_from ts find_text replace_with author track_changes.

Lemma replace_in_paragraph_possible (para : Element) (st : EditState) :
  replace_in_paragraph ts find_text replace_with author track_changes para st
  <> Raise Impossible.
Proof.
  unfold replace_in_paragraph.
  destruct (negb (PyStr.contains find_text (get_text_content para)));
    [discriminate|].
  apply replace_in_runs_possible. intros h Hh.
  apply in_map_iff in Hh. destruct Hh as (p & <- & Hp).
  unfold iter_paths in Hp. apply in_map_iff in Hp.
  destruct Hp as ([p' x] & <- & Hp). simpl.
  apply iter_located_subtree in Hp. destruct Hp as [-> _]. discriminate.
Qed.

Lemma replace_from_possible (fuel : nat) :
  forall e st, visit fuel e st <> Some (Raise Impossible).
Proof.
  induction fuel as [|k IH]; intros e st; unfold visit;
    rewrite replace_from_unfold;
    destruct (has_paragraph e); cbn [negb]; try discriminate.
  pose proof (replace_in_paragraph_possible e st) as B.
  destruct (if is_paragraph e
            then replace_in_paragraph ts find_text replace_with author
                                      track_changes e st
            else Ok (e, st)) as [[e1 st1]|err] eqn:E.
  2:{ destruct (is_paragraph e); [|discriminate]. congruence. }
  assert (C : forall cs st0,
             replace_children
               (replace_from ts find_text replace_with author track_changes k)
               cs st0 <> Some (Raise Impossible)).
  { induction cs as [|c cs IHcs]; intro st0; simpl; [discriminate|].
    pose proof (IH c st0) as V. unfold visit in V.
    destruct (replace_from ts find_text replace_with author track_changes
                           k c st0) as [[[c' st2]|err]|]; try discriminate.
    - pose proof (IHcs st2) as W.
      destruct (replace_children _ cs st2) as [[[l st3]|err]|];
        try discriminate. congruence.
    - congruence. }
  specialize (C (children e1) st1).
  destruct (replace_children _ (children e1) st1) as [[[l st2]|err]|];
    try discriminate. congruence.
Qed.

End PossibleTraversal.

(** The outcomes of the model are outcomes of the code: neither
    operation ever comes out as [Impossible]. *)
Theorem replace_text_possible
    (Bytes : Type) (parse : Bytes -> option Element)
    (serialize : Element -> Bytes) (ts : nat -> string)
    (folder : Folder Bytes) (find_text replace_with author : string)
    (track_changes : bool) :
  fst (replace_text Bytes parse serialize ts folder find_text replace_with
                    track_changes author) <> Raise Impossible.
Proof.
  unfold replace_text, parse_document.
  destruct (document_xml Bytes folder) as [b|]; [|discriminate].
  destruct (parse b) as [root|]; [|discriminate].
  assert (E : forall f, (if track_changes
                         then enable_track_changes Bytes parse serialize folder
                         else Ok folder) = Raise f -> f = ParseError).
  { intro f. destruct track_changes; [|discriminate].
    unfold enable_track_changes.
    destruct (settings_xml Bytes folder) as [sb|]; [|discriminate].
    destruct (parse sb); [discriminate|]. now intros [= <-]. }
  destruct (if track_changes
            then enable_track_changes Bytes parse serialize folder
            else Ok folder) as [folder1|f].
  2:{ rewrite (E f eq_refl). discriminate. }
  set (st0 := mkState (if track_changes then get_next_change_id root else 0%Z)
                      0 0).
  pose proof (replace_from_terminates ts find_text replace_with author
                track_changes (paragraph_depth root) root st0 (le_n _)) as Tm.
  pose proof (replace_from_possible ts find_text replace_with author
                track_changes (paragraph_depth root) root st0) as Ps.
  destruct (replace_from ts find_text replace_with author track_changes
              (paragraph_depth root) root st0) as [[[root' st']|err]|];
    simpl; try discriminate; congruence.
Qed.

Lemma insert_in_paragraphs_possible
      (ts : nat -> string) (after_text new_text author : string)
      (track_changes : bool) (change_id0 : Z) (root : Element)
      (paras : list (Path * Element)) :
  insert_in_paragraphs ts after_text new_text author track_changes change_id0
                       root paras <> Some (Raise Impossible).
Proof.
  assert (A : forall para p run_text,
             insert_at_run ts after_text new_text author track_changes
                           change_id0 para p run_text <> Raise Impossible).
  { intros para p run_text. unfold insert_at_run.
    destruct (split_last p) as [[q i]|]; [|discriminate].
    destruct (PyStr.partition after_text run_text) as [[[b s] a]|];
      discriminate. }
  assert (B : forall para runs,
             insert_in_runs ts after_text new_text author track_changes
                            change_id0 para runs <> Some (Raise Impossible)).
  { intros para runs. induction runs as [|[p run] runs IH]; simpl;
      [discriminate|].
    destruct (negb (PyStr.contains after_text (get_text_content run)));
      [exact IH|].
    specialize (A para p (get_text_content run)). congruence. }
  induction paras as [|[pp para] paras IH]; simpl; [discriminate|].
  destruct (negb (PyStr.contains after_text (get_text_content para)));
    [exact IH|].
  specialize (B para (iter_located (w "r") para)).
  destruct (insert_in_runs ts after_text new_text author track_changes
              change_id0 para (iter_located (w "r") para)) as [[?|?]|];
    try discriminate; [congruence | exact IH].
Qed.

Theorem insert_text_after_possible
    (Bytes : Type) (parse : Bytes -> option Element)
    (serialize : Element -> Bytes) (ts : nat -> string)
    (folder : Folder Bytes) (after_text new_text author : string)
    (track_changes : bool) :
  fst (insert_text_after Bytes parse serialize ts folder after_text new_text
                         track_changes author) <> Raise Impossible.
Proof.
  unfold insert_text_after, parse_document.
  destruct (document_xml Bytes folder) as [b|]; [|discriminate].
  destruct (parse b) as [root|]; [|discriminate].
  assert (E : forall f, (if track_changes
                         then enable_track_changes Bytes parse serialize folder
                         else Ok folder) = Raise f -> f = ParseError).
  { intro f. destruct track_changes; [|discriminate].
    unfold enable_track_changes.
    destruct (settings_xml Bytes folder) as [sb|]; [|discriminate].
    destruct (parse sb); [discriminate|]. now intros [= <-]. }
  destruct (if track_changes
            then enable_track_changes Bytes parse serialize folder
            else Ok folder) as [folder1|f].
  2:{ rewrite (E f eq_refl). discriminate. }
  pose proof (insert_in_paragraphs_possible ts after_text new_text author
                track_changes
                (if track_changes then get_next_change_id root else 0%Z)
                root (iter_located (w "p") root)) as Ps.
  destruct (insert_in_paragraphs _ _ _ _ _ _ root (iter_located (w "p") root))
    as [[?|?]|]; simpl; try discriminate. congruence.
Qed.

(** ** Replace is the edit as worded *)

Lemma handles_at_unfold (p0 : Path) (e : Element) :
  handles_at p0 e
  = (if String.eqb (tag e) (w "r") then [Attached (p0 ++ [])] else [])
    ++ handles_list p0 0 (children e).
Proof.
  unfold handles_at, handles_list, iter_located.
  rewrite located_all_unfold. simpl.
  now destruct (String.eqb (tag e) (w "r")).
Qed.

Lemma handles_list_cons (p0 : Path) (j : nat) (c : Element) (cs : list Element) :
  handles_list p0 j (c :: cs)
  = handles_at (p0 ++ [j]) c ++ handles_list p0 (S j) cs.
Proof.
  unfold handles_list, handles_at. simpl.
  rewrite filter_app, map_app. f_equal.
  rewrite filter_located_shift, map_map. unfold iter_located.
  apply map_ext. intros [p x]. simpl. now rewrite <- app_assoc.
Qed.

Lemma handles_list_nil (p0 : Path) (j : nat) : handles_list p0 j [] = [].
Proof. reflexivity. Qed.

Lemma no_nested_runs_child (e c : Element) :
  no_nested_runs e -> In c (children e) -> no_nested_runs c.
Proof.
  intros H Hc x Hx. apply H. apply iter_In in Hx. destruct Hx as [Hx T].
  apply iter_In. split; [|exact T].
  rewrite iter_all_unfold. right. apply in_flat_map. eauto.
Qed.

Lemma no_nested_runs_self (e : Element) :
  no_nested_runs e -> tag e = w "r" -> iter_located (w "r") e = [([], e)].
Proof.
  intros H T. apply H. apply iter_In. split; [apply iter_all_self | exact T].
Qed.

Lemma run_handles (p0 : Path) (e : Element) :
  no_nested_runs e -> tag e = w "r" -> handles_at p0 e = [Attached (p0 ++ [])].
Proof.
  intros H T. unfold handles_at. now rewrite (no_nested_runs_self e H T).
Qed.

Lemma strip_prefix_self (q r : Path) : strip_prefix q (q ++ r) = Some r.
Proof.
  induction q as [|i q IH]; simpl; [reflexivity|]. now rewrite Nat.eqb_refl.
Qed.

Lemma strip_prefix_longer (q r p : Path) :
  strip_prefix q p = None -> strip_prefix (q ++ r) p = None.
Proof.
  revert p. induction q as [|i q IH]; intros p H; simpl in *; [discriminate|].
  destruct p as [|j p]; [reflexivity|].
  destruct (Nat.eqb i j); [now apply IH | reflexivity].
Qed.

Lemma strip_prefix_sibling (q r : Path) (i j : nat) :
  i <> j -> strip_prefix (q ++ [i]) (q ++ j :: r) = None.
Proof.
  intro D. induction q as [|k q IH]; simpl.
  - destruct (Nat.eqb_spec i j); [contradiction | reflexivity].
  - now rewrite Nat.eqb_refl.
Qed.

Lemma adjust_outside (q p : Path) (i k : nat) (old : Element) :
  strip_prefix q p = None -> adjust q i k old (Attached p) = Attached p.
Proof. intro H. unfold adjust. now rewrite H. Qed.

Lemma adjust_right (q r : Path) (i j k : nat) (old : Element) :
  i < j ->
  adjust q i k old (Attached (q ++ j :: r)) = Attached (q ++ (j + k - 1) :: r).
Proof.
  intro H. unfold adjust. rewrite strip_prefix_self.
  destruct (Nat.eqb_spec j i); [lia|].
  destruct (Nat.ltb_spec i j); [reflexivity | lia].
Qed.

Lemma update_nth_same {A} (g : A -> A) (l : list A) (i : nat) (y : A) :
  nth_error l i = Some y -> g y = y -> update_nth i g l = l.
Proof.
  revert i. induction l as [|z l IH]; intros [|i] N G; simpl in *;
    try discriminate.
  - injection N as ->. now rewrite G.
  - f_equal. now apply IH.
Qed.

Lemma update_at_same (p : Path) :
  forall e x, subtree e p = Some x -> update_at p (fun _ => x) e = e.
Proof.
  induction p as [|i p IH]; intros e x H; simpl in H.
  - now injection H as ->.
  - destruct (nth_error (children e) i) as [c|] eqn:N; [|discriminate].
    simpl. rewrite (update_nth_same _ _ _ _ N (IH c x H)).
    apply set_children_same.
Qed.

Lemma update_nth_twice {A} (g1 g2 : A -> A) (l : list A) (i : nat) :
  update_nth i g2 (update_nth i g1 l) = update_nth i (fun x => g2 (g1 x)) l.
Proof.
  revert i. induction l as [|z l IH]; intros [|i]; simpl; auto.
  now rewrite IH.
Qed.

Lemma update_at_twice (p : Path) (g1 g2 : Element -> Element) :
  forall e, update_at p g2 (update_at p g1 e)
            = update_at p (fun x => g2 (g1 x)) e.
Proof.
  induction p as [|i p IH]; intro e; [reflexivity|].
  cbn [update_at]. rewrite children_set_children, update_nth_twice.
  destruct e as [t a tx tl cs]. unfold set_children. cbn [tag attrib text tail children].
  f_equal. now apply update_nth_ext.
Qed.

Lemma subtree_update_self (g : Element -> Element) (q : Path) (e x : Element) :
  subtree e q = Some x -> subtree (update_at q g e) q = Some (g x).
Proof.
  intro H. rewrite <- (app_nil_r q) at 2.
  now rewrite (subtree_update_under g q [] e x H).
Qed.

Lemma update_nth_middle {A} (g : A -> A) (a b : list A) (x : A) :
  update_nth (List.length a) g (a ++ x :: b) = a ++ g x :: b.
Proof. induction a as [|y a IH]; simpl; [reflexivity | now rewrite IH]. Qed.

Lemma nth_error_middle {A} (a b : list A) (x : A) :
  nth_error (a ++ x :: b) (List.length a) = Some x.
Proof. induction a; simpl; auto. Qed.

Lemma firstn_middle {A} (a b : list A) : firstn (List.length a) (a ++ b) = a.
Proof. induction a as [|y a IH]; simpl; [now destruct b | now rewrite IH]. Qed.

Lemma skipn_middle {A} (a b : list A) (x : A) :
  skipn (S (List.length a)) (a ++ x :: b) = b.
Proof. induction a as [|y a IH]; simpl; auto. Qed.

Section WordedFacts.

Variable ts : nat -> string.
Variables (find_text replace_with author : string) (track_changes : bool).

Local Abbreviation ed := (edited ts find_text replace_with author track_changes).
Local Abbreviation edl :=
  (edited_list ts find_text replace_with author track_changes ed).

Lemma edited_unfold (e : Element) (st : EditState) :
  ed e st = (set_children e (fst (edl (children e) st)),
             snd (edl (children e) st)).
Proof.
  destruct e as [t a x tl cs]. simpl.
  now destruct (edited_list ts find_text replace_with author track_changes
                            ed cs st).
Qed.

Lemma edited_list_match (c : Element) (cs : list Element) (st : EditState) :
  matches find_text c = true ->
  edl (c :: cs) st
  = (fst (replaced_run ts find_text replace_with author track_changes c st)
     ++ fst (edl cs (snd (replaced_run ts find_text replace_with author
                                       track_changes c st))),
     snd (edl cs (snd (replaced_run ts find_text replace_with author
                                    track_changes c st)))).
Proof.
  intro M. simpl. rewrite M.
  destruct (replaced_run ts find_text replace_with author track_changes c st)
    as [new st1]. simpl.
  now destruct (edited_list ts find_text replace_with author track_changes
                            ed cs st1).
Qed.

Lemma edited_list_other (c : Element) (cs : list Element) (st : EditState) :
  matches find_text c = false ->
  edl (c :: cs) st
  = (fst (ed c st) :: fst (edl cs (snd (ed c st))),
     snd (edl cs (snd (ed c st)))).
Proof.
  intro M. simpl. rewrite M.
  destruct (ed c st) as [c' st1]. simpl.
  now destruct (edited_list ts find_text replace_with author track_changes
                            ed cs st1).
Qed.

Lemma edited_unmatched (e : Element) :
  forall st,
    (forall x, In x (flat_map iter_all (children e)) ->
               matches find_text x = false) ->
    ed e st = (e, st).
Proof.
  induction e as [t a tx tl cs IH] using Element_ind. intros st H.
  rewrite edited_unfold. simpl children in *.
  assert (L : edl cs st = (cs, st)).
  { clear t a tx tl. revert st.
    induction IH as [|c cs Hc _ IHcs]; intro st; [reflexivity|].
    assert (Mc : matches find_text c = false).
    { apply H. simpl. apply in_or_app. left. apply iter_all_self. }
    rewrite (edited_list_other c cs st Mc).
    rewrite Hc.
    - simpl. rewrite IHcs; [reflexivity|].
      intros x Hx. apply H. simpl. apply in_or_app. now right.
    - intros x Hx. apply H. simpl. apply in_or_app. left.
      rewrite iter_all_unfold. now right. }
  rewrite L. reflexivity.
Qed.

End WordedFacts.

Section LoopIsWorded.

Variable ts : nat -> string.
Variables (find_text replace_with author : string) (track_changes : bool).
Hypothesis find_text_not_empty : find_text <> EmptyString.

Local Abbreviation ed := (edited ts find_text replace_with author track_changes).
Local Abbreviation edl :=
  (edited_list ts find_text replace_with author track_changes ed).
Local Abbreviation loop :=
  (replace_in_runs ts find_text replace_with author track_changes).
Local Abbreviation rr :=
  (replaced_run ts find_text replace_with author track_changes).

(** One turn on a matched run that is child [d] of the element at [p]. *)
Lemma loop_matched (para parent c : Element) (st : EditState)
      (moved : Handle -> Handle) (h0 : Handle) (rest : list Handle)
      (p : Path) (done cs : list Element) :
  subtree para p = Some parent ->
  children parent = done ++ c :: cs ->
  moved h0 = Attached (p ++ [List.length done]) ->
  matches find_text c = true ->
  exists moved1,
    loop para st moved (h0 :: rest)
    = loop (update_at p
              (fun x => set_children x (done ++ fst (rr c st) ++ cs)) para)
           (snd (rr c st)) moved1 rest /\
    (forall h q, moved h = Attached q -> strip_prefix p q = None ->
                 moved1 h = Attached q) /\
    (forall h j r, moved h = Attached (p ++ j :: r) -> List.length done < j ->
                   moved1 h
                   = Attached (p ++ (j + List.length (fst (rr c st)) - 1) :: r)).
Proof.
  intros Hp Hch Hm M.
  unfold matches in M. apply andb_true_iff in M. destruct M as [_ Hc].
  set (d := List.length done) in *.
  assert (Hc' : subtree para (p ++ [d]) = Some c).
  { rewrite subtree_app, Hp. simpl. rewrite Hch. unfold d.
    now rewrite nth_error_middle. }
  assert (Hsib : children_at para p = done ++ c :: cs).
  { unfold children_at. now rewrite Hp. }
  cbn [replace_in_runs]. rewrite Hm. cbn [resolve]. rewrite Hc', Hc.
  cbn [negb]. rewrite split_last_snoc. unfold replaced_run.
  destruct track_changes.
  - pose proof Hc as Hf. unfold PyStr.contains in Hf.
    destruct (PyStr.find find_text (get_text_content c))
      as [[before after]|] eqn:F; [clear Hf | discriminate].
    assert (Hi : d < List.length (children_at para p)).
    { rewrite Hsib, length_app. simpl. unfold d. lia. }
    rewrite (tracked_splice_spec ts find_text replace_with author st _ d _ _ _
               Hi F find_text_not_empty).
    rewrite Hsib. subst d. rewrite firstn_middle, skipn_middle.
    cbn [fst snd].
    set (new := plain_run before
                ++ [create_tracked_deletion find_text author (change_id st)
                      (ts (clock st));
                    create_tracked_insertion replace_with author
                      (change_id st + 1) false false (ts (S (clock st)))]
                ++ plain_run after).
    assert (El : done ++ plain_run before
                 ++ [create_tracked_deletion find_text author (change_id st)
                       (ts (clock st));
                     create_tracked_insertion replace_with author
                       (change_id st + 1) false false (ts (S (clock st)))]
                 ++ plain_run after ++ cs
                 = done ++ new ++ cs).
    { unfold new. now rewrite <- !app_assoc. }
    rewrite El.
    assert (Ek : List.length (done ++ new ++ cs) + 1
                 - List.length (done ++ c :: cs) = List.length new).
    { rewrite !length_app. simpl. lia. }
    rewrite Ek.
    eexists. split; [reflexivity|]. split.
    + intros h q Hh Hq. rewrite Hh. now apply adjust_outside.
    + intros h j r Hh Hj. rewrite Hh. now apply adjust_right.
  - cbn [fst snd].
    exists moved. split; [|split].
    + f_equal. rewrite update_at_app.
      rewrite (update_at_const p _ para parent Hp).
      rewrite (update_at_const p (fun x => set_children x _) para parent Hp).
      f_equal. simpl. rewrite Hch. unfold d. now rewrite update_nth_middle.
    + auto.
    + intros h j r Hh Hj. rewrite Hh. simpl. do 3 f_equal. lia.
Qed.

End LoopIsWorded.

Section LoopIsWorded2.

Variable ts : nat -> string.
Variables (find_text replace_with author : string) (track_changes : bool).
Hypothesis find_text_not_empty : find_text <> EmptyString.

Local Abbreviation ed := (edited ts find_text replace_with author track_changes).
Local Abbreviation edl :=
  (edited_list ts find_text replace_with author track_changes ed).
Local Abbreviation loop :=
  (replace_in_runs ts find_text replace_with author track_changes).
Local Abbreviation rr :=
  (replaced_run ts find_text replace_with author track_changes).
Local Abbreviation ok :=
  (edit_ok ts find_text replace_with author track_changes).

Lemma update_children_again (para parent : Element) (p : Path)
      (g : Element -> Element) (l : list Element) :
  subtree para p = Some parent ->
  (forall x, set_children (g x) l = set_children x l) ->
  update_at p (fun x => set_children x l) (update_at p g para)
  = update_at p (fun x => set_children x l) para.
Proof.
  intros Hp G. rewrite update_at_twice.
  rewrite (update_at_const p _ para parent Hp).
  rewrite (update_at_const p (fun x => set_children x l) para parent Hp).
  now rewrite G.
Qed.

Lemma edit_children (cs : list Element) :
  Forall ok cs ->
  forall para st moved p0 p j0 done rest parent,
    subtree para p = Some parent ->
    children parent = done ++ cs ->
    (forall t r, moved (Attached (p0 ++ (j0 + t) :: r))
                 = Attached (p ++ (List.length done + t) :: r)) ->
    Forall no_nested_runs cs ->
    exists moved',
      loop para st moved (handles_list p0 j0 cs ++ rest)
      = loop (update_at p (fun x => set_children x (done ++ fst (edl cs st)))
                        para)
             (snd (edl cs st)) moved' rest /\
      (forall h q, moved h = Attached q -> strip_prefix p q = None ->
                   moved' h = Attached q).
Proof.
  induction 1 as [|c cs Hc _ IH];
    intros para st moved p0 p j0 done rest parent Hp Hch Hm Hn.
  - exists moved. split; [|auto]. simpl.
    rewrite (update_at_const p _ para parent Hp).
    rewrite app_nil_r in *. rewrite <- Hch, set_children_same.
    now rewrite (update_at_same p para parent Hp).
  - inversion Hn as [|? ? Hnc Hncs]; subst.
    rewrite handles_list_cons, <- app_assoc.
    set (d := List.length done) in *.
    assert (Hm0 : forall r, moved (Attached ((p0 ++ [j0]) ++ r))
                            = Attached ((p ++ [d]) ++ r)).
    { intro r. rewrite <- !app_assoc. simpl.
      specialize (Hm 0 r). now rewrite !Nat.add_0_r in Hm. }
    assert (Hc' : subtree para (p ++ [d]) = Some c).
    { rewrite subtree_app, Hp. simpl. rewrite Hch. unfold d.
      now rewrite nth_error_middle. }
    destruct (matches find_text c) eqn:M.
    + pose proof M as M'. unfold matches in M'. apply andb_true_iff in M'.
      destruct M' as [Tc _]. apply String.eqb_eq in Tc.
      rewrite (run_handles _ c Hnc Tc). cbn [app].
      specialize (Hm0 []). rewrite !app_nil_r in Hm0.
      rewrite app_nil_r.
      destruct (loop_matched ts find_text replace_with author track_changes
                  find_text_not_empty para parent c st moved
                  (Attached (p0 ++ [j0]))
                  (handles_list p0 (S j0) cs ++ rest) p done cs Hp Hch Hm0 M)
        as (moved1 & E1 & A1 & S1).
      rewrite E1.
      set (new := fst (rr c st)) in *. set (st1 := snd (rr c st)) in *.
      set (para1 := update_at p (fun x => set_children x (done ++ new ++ cs))
                              para).
      assert (Hp1 : subtree para1 p
                    = Some (set_children parent (done ++ new ++ cs))).
      { unfold para1.
        exact (subtree_update_self
                 (fun x => set_children x (done ++ new ++ cs)) p para parent
                 Hp). }
      destruct (IH para1 st1 moved1 p0 p (S j0) (done ++ new) rest
                  (set_children parent (done ++ new ++ cs)) Hp1)
        as (moved' & E2 & A2).
      * rewrite children_set_children. now rewrite <- app_assoc.
      * intros t r.
        rewrite (S1 _ (d + S t) r).
        -- do 3 f_equal. rewrite length_app. fold new. unfold d. lia.
        -- replace (S j0 + t) with (j0 + S t) by lia. apply Hm.
        -- lia.
      * assumption.
      * exists moved'. split.
        -- rewrite E2. rewrite (edited_list_match _ _ _ _ _ c cs st M).
           cbn [fst snd]. fold new st1.
           f_equal. unfold para1.
           rewrite <- !app_assoc.
           apply (update_children_again para parent p); auto.
        -- intros h q Hh Hq. apply A2; auto.
    + destruct (Hc para st moved (p0 ++ [j0]) (p ++ [d])
                   (handles_list p0 (S j0) cs ++ rest) Hc' Hm0 M Hnc)
        as (moved1 & E1 & A1).
      rewrite E1.
      set (c' := fst (ed c st)) in *. set (st1 := snd (ed c st)) in *.
      set (para1 := update_at (p ++ [d]) (fun _ => c') para) in *.
      assert (Epara1 : para1
                       = update_at p
                           (fun x => set_children x (done ++ c' :: cs)) para).
      { unfold para1. rewrite update_at_app.
        rewrite (update_at_const p _ para parent Hp).
        rewrite (update_at_const p (fun x => set_children x _) para parent Hp).
        f_equal. simpl. rewrite Hch. unfold d. now rewrite update_nth_middle. }
      assert (Hp1 : subtree para1 p
                    = Some (set_children parent (done ++ c' :: cs))).
      { rewrite Epara1.
        exact (subtree_update_self
                 (fun x => set_children x (done ++ c' :: cs)) p para parent
                 Hp). }
      destruct (IH para1 st1 moved1 p0 p (S j0) (done ++ [c']) rest
                  (set_children parent (done ++ c' :: cs)) Hp1)
        as (moved' & E2 & A2).
      * rewrite children_set_children. now rewrite <- app_assoc.
      * intros t r. rewrite length_app. cbn [List.length].
        replace (List.length done + 1 + t) with (d + S t) by (unfold d; lia).
        apply A1.
        -- replace (S j0 + t) with (j0 + S t) by lia. apply Hm.
        -- apply strip_prefix_sibling. lia.
      * assumption.
      * exists moved'. split.
        -- rewrite E2. rewrite (edited_list_other _ _ _ _ _ c cs st M).
           cbn [fst snd]. fold c' st1.
           f_equal. rewrite Epara1.
           rewrite <- !app_assoc. simpl.
           apply (update_children_again para parent p); auto.
        -- intros h q Hh Hq. apply A2; [|assumption].
           apply A1; [assumption|]. now apply strip_prefix_longer.
Qed.

End LoopIsWorded2.

Lemma run_children_no_runs (s x : Element) :
  iter_located (w "r") s = [([], s)] ->
  In x (flat_map iter_all (children s)) ->
  String.eqb (tag x) (w "r") = false.
Proof.
  intros H Hx. unfold iter_located in H. rewrite located_all_unfold in H.
  simpl in H.
  assert (F : filter (fun px => String.eqb (tag (snd px)) (w "r"))
                     (located_list 0 (children s)) = []).
  { destruct (String.eqb (tag s) (w "r")).
    - now injection H.
    - exfalso.
      assert (I : In ([], s)
                     (filter (fun px => String.eqb (tag (snd px)) (w "r"))
                             (located_list 0 (children s)))).
      { rewrite H. now left. }
      apply filter_In in I. destruct I as [I _].
      apply located_list_In in I. destruct I as (j & c & p' & E & _).
      discriminate. }
  apply (f_equal (map snd)) in F. rewrite iter_list_located in F.
  destruct (String.eqb (tag x) (w "r")) eqn:T; [exfalso | reflexivity].
  assert (I : In x (filter (fun y => String.eqb (tag y) (w "r"))
                           (flat_map iter_all (children s)))).
  { apply filter_In. auto. }
  rewrite F in I. contradiction.
Qed.

Section LoopIsWorded3.

Variable ts : nat -> string.
Variables (find_text replace_with author : string) (track_changes : bool).
Hypothesis find_text_not_empty : find_text <> EmptyString.

Local Abbreviation ed := (edited ts find_text replace_with author track_changes).
Local Abbreviation edl :=
  (edited_list ts find_text replace_with author track_changes ed).
Local Abbreviation loop :=
  (replace_in_runs ts find_text replace_with author track_changes).
Local Abbreviation ok :=
  (edit_ok ts find_text replace_with author track_changes).

Lemma edit_all (s : Element) : ok s.
Proof.
  induction s as [t a tx tl cs IH] using Element_ind.
  set (s := mkElement t a tx tl cs) in *.
  intros para st moved p0 p rest Hs Hm M Hn.
  destruct (String.eqb (tag s) (w "r")) eqn:T.
  - assert (Tr : tag s = w "r") by now apply String.eqb_eq.
    rewrite (run_handles p0 s Hn Tr). cbn [app replace_in_runs].
    rewrite (Hm []). cbn [resolve]. rewrite app_nil_r, Hs.
    unfold matches in M. rewrite T in M. simpl in M. rewrite M. cbn [negb].
    rewrite (edited_unmatched ts find_text replace_with author track_changes s).
    + simpl. rewrite (update_at_same p para s Hs). exists moved. auto.
    + intros x Hx. unfold matches.
      now rewrite (run_children_no_runs s x (no_nested_runs_self s Hn Tr) Hx).
  - rewrite handles_at_unfold, T. cbn [app].
    destruct (edit_children ts find_text replace_with author track_changes
                find_text_not_empty cs IH para st moved p0 p 0 [] rest s Hs)
      as (moved' & E & A).
    + reflexivity.
    + intros t0 r. exact (Hm (t0 :: r)).
    + apply Forall_forall. intros c Hc.
      now apply (no_nested_runs_child s c Hn).
    + exists moved'. split; [|exact A].
      change (children s) with cs. rewrite E. f_equal.
      * rewrite edited_unfold. cbn [fst app].
        exact (update_at_const p
                 (fun x => set_children x (fst (edl (children s) st)))
                 para s Hs).
      * now rewrite edited_unfold.
Qed.

(** In a paragraph without runs inside runs the loop over the runs
    makes the edit. *)
Lemma replace_in_paragraph_edited (para : Element) (st : EditState) :
  String.eqb (tag para) (w "r") = false ->
  no_nested_runs para ->
  replace_in_paragraph ts find_text replace_with author track_changes para st
  = Ok (ed para st).
Proof.
  intros T Hn. unfold replace_in_paragraph.
  destruct (PyStr.contains find_text (get_text_content para)) eqn:C;
    cbn [negb].
  - destruct (edit_all para para st (fun h => h) [] [] []) as (moved' & E & _);
      auto.
    + unfold matches. now rewrite T.
    + unfold handles_at in E. cbn [app] in E. rewrite app_nil_r in E.
      unfold iter_paths. rewrite map_map.
      refine (eq_trans E _).
      cbn [update_at replace_in_runs]. now destruct (ed para st).
  - rewrite (edited_unmatched ts find_text replace_with author track_changes
               para); [reflexivity|].
    intros x Hx. unfold matches.
    destruct (String.eqb (tag x) (w "r")); [simpl | reflexivity].
    destruct (PyStr.contains find_text (get_text_content x)) eqn:Cx;
      [|reflexivity].
    assert (In x (iter_all para)).
    { rewrite iter_all_unfold. now right. }
    rewrite (contains_within find_text para x) in C; auto.
Qed.

End LoopIsWorded3.

Lemma only_self (t : string) (s x : Element) :
  iter_located t s = [([], s)] ->
  In x (flat_map iter_all (children s)) ->
  String.eqb (tag x) t = false.
Proof.
  intros H Hx. unfold iter_located in H. rewrite located_all_unfold in H.
  simpl in H.
  assert (F : filter (fun px => String.eqb (tag (snd px)) t)
                     (located_list 0 (children s)) = []).
  { destruct (String.eqb (tag s) t).
    - now injection H.
    - exfalso.
      assert (I : In ([], s)
                     (filter (fun px => String.eqb (tag (snd px)) t)
                             (located_list 0 (children s)))).
      { rewrite H. now left. }
      apply filter_In in I. destruct I as [I _].
      apply located_list_In in I. destruct I as (j & c & p' & E & _).
      discriminate. }
  apply (f_equal (map snd)) in F. rewrite iter_list_located in F.
  destruct (String.eqb (tag x) t) eqn:T; [exfalso | reflexivity].
  assert (I : In x (filter (fun y => String.eqb (tag y) t)
                           (flat_map iter_all (children s)))).
  { apply filter_In. auto. }
  rewrite F in I. contradiction.
Qed.

Lemma no_paragraph_depth (e : Element) :
  has_paragraph e = false -> paragraph_depth e = 0.
Proof.
  induction e as [t a tx tl cs IH] using Element_ind.
  rewrite has_paragraph_unfold, paragraph_depth_unfold. simpl children.
  intro H. apply orb_false_iff in H. destruct H as [P C].
  rewrite P. simpl. clear P.
  assert (M : max_depth cs = 0).
  { induction IH as [|c cs Hc _ IHcs]; [reflexivity|].
    simpl in C. apply orb_false_iff in C. destruct C as [C1 C2].
    rewrite max_depth_cons, (Hc C1), (IHcs C2). reflexivity. }
  now rewrite M.
Qed.

Lemma depth_no_paragraph (e : Element) :
  paragraph_depth e = 0 -> has_paragraph e = false.
Proof.
  intro D. destruct (has_paragraph e) eqn:H; [|reflexivity].
  apply has_paragraph_depth in H. lia.
Qed.

Lemma no_paragraph_below (s c : Element) :
  iter_located (w "p") s = [([], s)] -> In c (children s) ->
  has_paragraph c = false.
Proof.
  intros H Hc. unfold has_paragraph.
  destruct (existsb is_paragraph (iter_all c)) eqn:E; [|reflexivity].
  apply existsb_exists in E. destruct E as (x & Hx & Px).
  unfold is_paragraph in Px.
  rewrite (only_self (w "p") s x H) in Px; [discriminate|].
  apply in_flat_map. eauto.
Qed.

Lemma well_nested_child (e c : Element) :
  well_nested e -> In c (children e) -> well_nested c.
Proof.
  intros H Hc x Hx. apply H. apply iter_In in Hx. destruct Hx as [Hx T].
  apply iter_In. split; [|exact T].
  rewrite iter_all_unfold. right. apply in_flat_map. eauto.
Qed.

Section DocumentIsWorded.

Variable ts : nat -> string.
Variables (find_text replace_with author : string) (track_changes : bool).
Hypothesis find_text_not_empty : find_text <> EmptyString.

Local Abbreviation ed := (edited ts find_text replace_with author track_changes).
Local Abbreviation edd :=
  (edited_doc ts find_text replace_with author track_changes).
Local Abbreviation visit :=
  (replace_from ts find_text replace_with author track_changes).

Lemma edited_doc_unfold (e : Element) (st : EditState) :
  edd e st
  = if is_paragraph e then ed e st
    else (set_children e (fst (in_turn edd (children e) st)),
          snd (in_turn edd (children e) st)).
Proof.
  destruct e as [t a x tl cs]. simpl.
  destruct (is_paragraph (mkElement t a x tl cs)); [reflexivity|].
  now destruct (in_turn edd cs st).
Qed.

Lemma edited_doc_no_paragraph (e : Element) :
  forall st, has_paragraph e = false -> edd e st = (e, st).
Proof.
  induction e as [t a tx tl cs IH] using Element_ind. intros st H.
  rewrite edited_doc_unfold. rewrite has_paragraph_unfold in H.
  apply orb_false_iff in H. destruct H as [P C]. rewrite P.
  simpl children in *. clear P.
  assert (L : in_turn edd cs st = (cs, st)).
  { revert st. induction IH as [|c cs Hc _ IHcs]; intro st; [reflexivity|].
    simpl in C. apply orb_false_iff in C. destruct C as [C1 C2].
    simpl. rewrite (Hc st C1), (IHcs C2). reflexivity. }
  now rewrite L.
Qed.

Lemma visit_no_paragraph (k : nat) (c : Element) (st : EditState) :
  has_paragraph c = false -> visit k c st = Some (Ok (c, st)).
Proof. intro H. rewrite replace_from_unfold, H. reflexivity. Qed.

Lemma replace_children_same (k : nat) (cs : list Element) (st : EditState) :
  (forall c, In c cs -> has_paragraph c = false) ->
  replace_children (visit k) cs st = Some (Ok (cs, st)).
Proof.
  induction cs as [|c cs IH]; intro H; simpl; [reflexivity|].
  rewrite visit_no_paragraph by (apply H; now left).
  rewrite IH; [reflexivity|]. intros; apply H; now right.
Qed.

(** On a tree of the data model the loop over the paragraphs makes the
    edit of the document. *)
Lemma replace_from_edited (fuel : nat) :
  forall e st,
    paragraph_depth e <= fuel -> well_nested e ->
    visit fuel e st = Some (Ok (edd e st)).
Proof.
  induction fuel as [|k IH]; intros e st D W; rewrite replace_from_unfold;
    destruct (has_paragraph e) eqn:Hp; cbn [negb];
    try (now rewrite edited_doc_no_paragraph).
  - apply has_paragraph_depth in Hp. lia.
  - rewrite edited_doc_unfold.
    destruct (is_paragraph e) eqn:P.
    + assert (Te : tag e = w "p") by now apply String.eqb_eq.
      assert (In e (iter (w "p") e)).
      { apply iter_In. split; [apply iter_all_self | exact Te]. }
      destruct (W e) as [Ws Wr]; [assumption|].
      rewrite replace_in_paragraph_edited; auto.
      2:{ rewrite Te. apply String.eqb_neq. intro E.
          apply run_not_paragraph. now symmetry. }
      destruct (ed e st) as [e1 st1] eqn:E.
      assert (D1 : paragraph_depth e1 <= 1).
      { pose proof (replace_in_paragraph_depth ts find_text replace_with author
                      track_changes e e1 st st1) as R.
        rewrite replace_in_paragraph_edited in R; auto.
        2:{ rewrite Te. apply String.eqb_neq. intro E'.
            apply run_not_paragraph. now symmetry. }
        specialize (R (f_equal Ok E)).
        assert (paragraph_depth e = 1); [|lia].
        rewrite paragraph_depth_unfold, P. simpl. f_equal.
        assert (M : forall cs, (forall c, In c cs -> has_paragraph c = false) ->
                               max_depth cs = 0).
        { induction cs as [|c cs IHcs]; intro Hcs; [reflexivity|].
          rewrite max_depth_cons, no_paragraph_depth, IHcs.
          - reflexivity.
          - intros; apply Hcs; now right.
          - apply Hcs. now left. }
        apply M. intros c Hc. now apply (no_paragraph_below e c Ws). }
      apply children_depth in D1.
      rewrite replace_children_same.
      * now rewrite set_children_same.
      * intros c Hc. apply depth_no_paragraph.
        pose proof (max_depth_child c _ Hc). lia.
    + assert (L : forall cs st0,
                 (forall c, In c cs -> In c (children e)) ->
                 replace_children (visit k) cs st0
                 = Some (Ok (in_turn edd cs st0))).
      { induction cs as [|c cs IHcs]; intros st0 Sub; simpl; [reflexivity|].
        rewrite IH.
        - destruct (edd c st0) as [c' st1]. rewrite IHcs.
          + now destruct (in_turn edd cs st1).
          + intros; apply Sub; now right.
        - apply has_paragraph_depth in Hp.
          pose proof (max_depth_child c (children e)
                        (Sub c (or_introl eq_refl))). lia.
        - apply (well_nested_child e); [assumption|]. apply Sub. now left. }
      rewrite L by auto.
      now destruct (in_turn edd (children e) st).
Qed.

End DocumentIsWorded.

(** On a document of the data model, replace is the edit as worded:
    it returns the number of runs replaced and saves the edited tree. *)
Theorem replace_text_edited
    (Bytes : Type) (parse : Bytes -> option Element)
    (serialize : Element -> Bytes) (ts : nat -> string)
    (folder folder1 : Folder Bytes) (b : Bytes) (root : Element)
    (find_text replace_with author : string) (track_changes : bool) :
  find_text <> EmptyString ->
  document_xml Bytes folder = Some b ->
  parse b = Some root ->
  (if track_changes then enable_track_changes Bytes parse serialize folder
   else Ok folder) = Ok folder1 ->
  well_nested root ->
  let st0 :=
    mkState (if track_changes then get_next_change_id root else 0%Z) 0 0 in
  let result :=
    edited_doc ts find_text replace_with author track_changes root st0 in
  replace_text Bytes parse serialize ts folder find_text replace_with
               track_changes author
  = (Ok (replacements (snd result)),
     save_document Bytes serialize (fst result) folder1).
Proof.
  intros Hne Hd Hp He W st0 result.
  unfold replace_text, parse_document. rewrite Hd, Hp, He.
  fold st0.
  rewrite (replace_from_edited ts find_text replace_with author track_changes
             Hne (paragraph_depth root) root st0 (le_n _) W).
  fold result. now destruct result.
Qed.

(** What a matched run gives way to in the tracked edit. *)
Lemma replaced_run_tracked
      (ts : nat -> string) (find_text replace_with author : string)
      (c : Element) (st : EditState) :
  find_text <> EmptyString ->
  matches find_text c = true ->
  exists before after,
    get_text_content c = (before ++ find_text ++ after)%string /\
    (forall b a, get_text_content c = (b ++ find_text ++ a)%string ->
                 String.length before <= String.length b) /\
    replaced_run ts find_text replace_with author true c st
    = (plain_run before
       ++ [create_tracked_deletion find_text author (change_id st)
                                   (ts (clock st));
           create_tracked_insertion replace_with author (change_id st + 1)
                                    false false (ts (S (clock st)))]
       ++ plain_run after,
       mkState (change_id st + 1 + 1) (S (replacements st)) (clock st + 2)).
Proof.
  intros Hne M. unfold matches in M. apply andb_true_iff in M.
  destruct M as [_ C]. unfold PyStr.contains in C. unfold replaced_run.
  destruct (PyStr.find find_text (get_text_content c)) as [[before after]|] eqn:F;
    [|discriminate].
  exists before, after. split; [now apply find_split|].
  split; [now apply (find_leftmost _ _ _ _ F) | reflexivity].
Qed.

(** The text of synthesized markup. *)
Lemma text_part_text_element (x : string) (ps : bool) :
  text_part (create_text_element x ps) = x.
Proof.
  unfold create_text_element.
  now destruct (ps && (PyStr.startswith_space x || PyStr.endswith_space x)).
Qed.

Lemma get_text_content_run (x : string) (bold italic : bool) :
  get_text_content (create_run x bold italic) = x.
Proof.
  unfold get_text_content. rewrite create_run_leaf. cbn [map].
  now rewrite text_part_text_element.
Qed.

Lemma iter_insertion (t x author : string) (n : Z) (bold italic : bool) (ts : string) :
  t <> w "ins" ->
  iter t (create_tracked_insertion x author n bold italic ts)
  = iter t (create_run x bold italic).
Proof.
  intro H. unfold iter, create_tracked_insertion.
  rewrite iter_all_unfold. cbn [filter].
  replace (String.eqb (tag _) t) with false.
  2:{ symmetry. apply String.eqb_neq. intro E. apply H. rewrite <- E. reflexivity. }
  cbn [children append set set_children new_element flat_map app].
  now rewrite app_nil_r.
Qed.

Lemma get_text_content_insertion (x author : string) (n : Z) (bold italic : bool)
      (ts : string) :
  get_text_content (create_tracked_insertion x author n bold italic ts) = x.
Proof.
  unfold get_text_content. rewrite iter_insertion.
  - apply get_text_content_run.
  - intro H. vm_compute in H. discriminate.
Qed.

Lemma get_text_content_deletion (x author : string) (n : Z) (ts : string) :
  get_text_content (create_tracked_deletion x author n ts) = EmptyString.
Proof.
  unfold get_text_content, create_tracked_deletion, create_del_text.
  destruct (PyStr.startswith_space x || PyStr.endswith_space x); reflexivity.
Qed.

(** The markup of the synthesizer, written out. *)
Lemma create_run_plain (x : string) :
  create_run x false false
  = mkElement (w "r") [] None None
      [mkElement (w "t")
         (if PyStr.startswith_space x || PyStr.endswith_space x
          then [(xml_space, "preserve")] else [])
         (Some x) None []].
Proof.
  unfold create_run, create_text_element. rewrite andb_true_l.
  destruct (PyStr.startswith_space x || PyStr.endswith_space x); reflexivity.
Qed.

Lemma create_tracked_deletion_plain (x author : string) (n : Z) (date : string) :
  create_tracked_deletion x author n date
  = mkElement (w "del")
      [(w "id", PyInt.str n); (w "author", author); (w "date", date)] None None
      [mkElement (w "r") [] None None
         [mkElement (w "delText")
            (if PyStr.startswith_space x || PyStr.endswith_space x
             then [(xml_space, "preserve")] else [])
            (Some x) None []]].
Proof.
  unfold create_tracked_deletion, create_del_text.
  destruct (PyStr.startswith_space x || PyStr.endswith_space x); reflexivity.
Qed.

Lemma create_tracked_insertion_plain (x author : string) (n : Z) (date : string) :
  create_tracked_insertion x author n false false date
  = mkElement (w "ins")
      [(w "id", PyInt.str n); (w "author", author); (w "date", date)] None None
      [create_run x false false].
Proof. reflexivity. Qed.




Example reviewed_tracked :
  fst (edited_doc stamp "$100" "$200" "A" true reviewed
                  (mkState (get_next_change_id reviewed) 0 0))
  = body [P [R [T "Revenue: "];
             mkElement (w "ins") [(w "id", "7")] None None
               [create_tracked_deletion "$100" "A" 8 (stamp 0);
                create_tracked_insertion "$200" "A" 9 false false (stamp 1)];
             mkElement (w "del") [(w "id", "3")] None None
               [R [mkElement (w "delText") [] (Some "$90") None []]]]].
Proof. vm_compute. reflexivity. Qed.

(** ** The search goes in document order *)

Lemma path_lt_app (c a b : Path) : path_lt a b -> path_lt (c ++ a) (c ++ b).
Proof. induction c as [|k c IH]; simpl; auto. Qed.

Lemma path_lt_below (a c : Path) : c <> [] -> path_lt a (a ++ c).
Proof.
  intro H. induction a as [|k a IH]; simpl.
  - destruct c; [contradiction | exact I].
  - right. auto.
Qed.

Lemma parts_left_lt (a b x y : Path) :
  parts_left a b -> path_lt (a ++ x) (b ++ y).
Proof.
  intros (c & i & j & a' & b' & -> & -> & H).
  rewrite <- !app_assoc. apply path_lt_app. simpl. now left.
Qed.

Lemma path_lt_cases (a b : Path) :
  path_lt a b -> (exists c, c <> [] /\ b = a ++ c) \/ parts_left a b.
Proof.
  revert b. induction a as [|i a IH]; intros [|j b] H; simpl in H;
    try contradiction.
  - left. exists (j :: b). split; [discriminate | reflexivity].
  - destruct H as [H|[-> H]].
    + right. exists [], i, j, a, b. auto.
    + destruct (IH b H) as [(c & Hc & ->)|(c & i' & j' & a' & b' & -> & -> & L)].
      * left. exists c. auto.
      * right. exists (j :: c), i', j', a', b'. auto.
Qed.

Lemma StronglySorted_app {A} (R : A -> A -> Prop) (a b : list A) :
  StronglySorted R a -> StronglySorted R b ->
  (forall x y, In x a -> In y b -> R x y) ->
  StronglySorted R (a ++ b).
Proof.
  intros Ha Hb H. induction Ha as [|x a Ha IH Hx]; simpl; [exact Hb|].
  constructor.
  - apply IH. intros; apply H; auto. now right.
  - apply Forall_app. split; [exact Hx|].
    apply Forall_forall. intros y Hy. apply H; auto. now left.
Qed.

Lemma StronglySorted_after {A} (R : A -> A -> Prop) (a b : list A) (x y : A) :
  StronglySorted R (a ++ x :: b) -> In y b -> R x y.
Proof.
  induction a as [|z a IH]; simpl; intros H Hy.
  - inversion H as [|? ? _ F]; subst. rewrite Forall_forall in F. auto.
  - inversion H; subst. auto.
Qed.

Lemma StronglySorted_filter {A B} (R : B -> B -> Prop) (g : A -> B)
      (f : A -> bool) (l : list A) :
  StronglySorted R (map g l) -> StronglySorted R (map g (filter f l)).
Proof.
  induction l as [|x l IH]; simpl; intro H; [constructor|].
  inversion H as [|? ? Hl Hx]; subst.
  destruct (f x); simpl; [|auto].
  constructor; [auto|].
  apply Forall_forall. intros y Hy. rewrite Forall_forall in Hx. apply Hx.
  apply in_map_iff in Hy. destruct Hy as (z & <- & Hz).
  apply filter_In in Hz. apply in_map. tauto.
Qed.

Lemma located_list_sorted (cs : list Element) (i : nat) :
  Forall (fun c => StronglySorted path_lt (map fst (located_all c))) cs ->
  StronglySorted path_lt (map fst (located_list i cs)) /\
  Forall (fun p => exists j r, p = j :: r /\ i <= j)
         (map fst (located_list i cs)).
Proof.
  intro H. revert i. induction H as [|c cs Hc _ IH]; intro i; simpl.
  - split; constructor.
  - destruct (IH (S i)) as [S1 F1]. rewrite map_app, map_map. simpl.
    assert (Sc : StronglySorted path_lt
                   (map (fun x => i :: fst x) (located_all c))).
    { clear - Hc. induction (located_all c) as [|x l IHl]; simpl;
        [constructor|].
      inversion Hc as [|? ? Hl Hx]; subst. constructor; [auto|].
      rewrite Forall_forall in *. intros y Hy.
      apply in_map_iff in Hy. destruct Hy as (z & <- & Hz).
      simpl. right. split; [reflexivity|]. apply Hx. now apply in_map. }
    split.
    + apply StronglySorted_app; auto.
      intros x y Hx Hy. apply in_map_iff in Hx. destruct Hx as (z & <- & _).
      rewrite Forall_forall in F1. destruct (F1 y Hy) as (j & r & -> & L).
      simpl. left. lia.
    + apply Forall_app. split.
      * apply Forall_forall. intros x Hx.
        apply in_map_iff in Hx. destruct Hx as (z & <- & _). eauto.
      * eapply Forall_impl; [|exact F1].
        intros p (j & r & -> & L). exists j, r. split; [reflexivity | lia].
Qed.

(** [located_all] lists the paths in document order. *)
Lemma located_all_sorted (e : Element) :
  StronglySorted path_lt (map fst (located_all e)).
Proof.
  induction e as [t a tx tl cs IH] using Element_ind.
  rewrite located_all_unfold. simpl.
  destruct (located_list_sorted cs 0 IH) as [S F].
  constructor; [exact S|].
  eapply Forall_impl; [|exact F]. intros p (j & r & -> & _). exact I.
Qed.

Lemma iter_located_sorted (t : string) (e : Element) :
  StronglySorted path_lt (map fst (iter_located t e)).
Proof. apply StronglySorted_filter, located_all_sorted. Qed.

Lemma located_list_complete (cs : list Element) :
  forall i j c p x,
    nth_error cs j = Some c -> In (p, x) (located_all c) ->
    In ((i + j) :: p, x) (located_list i cs).
Proof.
  induction cs as [|d cs IH]; intros i [|j] c p x N H; simpl in N;
    try discriminate; simpl; apply in_or_app.
  - injection N as ->. left. rewrite Nat.add_0_r.
    apply in_map_iff. exists (p, x). auto.
  - right. replace (i + S j) with (S i + j) by lia. eapply IH; eauto.
Qed.

(** Every path of the tree is listed. *)
Lemma located_complete (p : Path) :
  forall e x, subtree e p = Some x -> In (p, x) (located_all e).
Proof.
  induction p as [|i p IH]; intros e x H; simpl in H.
  - injection H as <-. rewrite located_all_unfold. now left.
  - destruct (nth_error (children e) i) as [c|] eqn:N; [|discriminate].
    rewrite located_all_unfold. right.
    apply (located_list_complete (children e) 0 i c p x N). now apply IH.
Qed.

Lemma first_of_sorted (f : Path * Element -> bool)
      (l l1 l2 : list (Path * Element)) (x y : Path * Element) :
  StronglySorted path_lt (map fst l) ->
  l = l1 ++ x :: l2 ->
  (forall z, In z l1 -> f z = false) ->
  In y l -> f y = true ->
  y = x \/ path_lt (fst x) (fst y).
Proof.
  intros S -> N Hy Fy.
  apply in_app_or in Hy. destruct Hy as [Hy|[Hy|Hy]].
  - rewrite (N y Hy) in Fy. discriminate.
  - now left.
  - right. rewrite map_app in S. simpl in S.
    eapply StronglySorted_after; [exact S|]. now apply in_map.
Qed.

(** The run that the paragraph-then-run search stops at is the first
    run in document order, among the runs inside paragraphs, that has
    the text. *)
Lemma first_in_document_order (s : string) (root para run : Element)
      (p1 p2 r1 r2 : list (Path * Element)) (pp pr : Path) :
  iter_located (w "p") root = p1 ++ (pp, para) :: p2 ->
  (forall y, In y p1 -> paragraph_matches s y = false) ->
  iter_located (w "r") para = r1 ++ (pr, run) :: r2 ->
  (forall y, In y r1 -> run_matches s y = false) ->
  forall pp' para' pr' run',
    In (pp', para') (iter_located (w "p") root) ->
    In (pr', run') (iter_located (w "r") para') ->
    PyStr.contains s (get_text_content run') = true ->
    pp ++ pr = pp' ++ pr' \/ path_lt (pp ++ pr) (pp' ++ pr').
Proof.
  intros LP NP LR NR pp' para' pr' run' Hp Hr C.
  assert (M : paragraph_matches s (pp', para') = true).
  { unfold paragraph_matches. apply existsb_exists. exists (pr', run'). auto. }
  assert (Inside : forall c, subtree para c = Some para' ->
                             pp ++ pr = pp ++ c ++ pr' \/
                             path_lt (pp ++ pr) (pp ++ c ++ pr')).
  { intros c Hc.
    apply iter_located_subtree in Hr. destruct Hr as [Hr Tr].
    assert (I : In (c ++ pr', run') (iter_located (w "r") para)).
    { apply iter_located_In. split; [|exact Tr].
      apply located_complete. now rewrite subtree_app, Hc. }
    destruct (first_of_sorted (run_matches s) _ r1 r2 (pr, run)
                (c ++ pr', run') (iter_located_sorted (w "r") para) LR NR I C)
      as [E|L].
    - injection E as E _. left. now rewrite E.
    - right. now apply path_lt_app. }
  destruct (first_of_sorted (paragraph_matches s) _ p1 p2 (pp, para)
              (pp', para') (iter_located_sorted (w "p") root) LP NP Hp M)
    as [E|L].
  - injection E as -> ->. apply (Inside []). reflexivity.
  - simpl in L. destruct (path_lt_cases pp pp' L) as [(c & _ & ->)|D].
    + rewrite <- app_assoc. apply Inside.
      assert (Sp : subtree root pp = Some para).
      { apply (iter_located_subtree (w "p")). rewrite LP. apply in_elt. }
      apply iter_located_subtree in Hp. destruct Hp as [Hp _].
      now rewrite subtree_app, Sp in Hp.
    + right. now apply parts_left_lt.
Qed.



(** * Further properties of the code *)

(** ** The hits of [find_text] *)

Lemma find_text_runs (s : string) (p : Path * Element)
      (runs : list (Path * Element)) (acc : list ((Path * Element) * (Path * Element))) :
  fold_left
    (fun results r =>
       let run_text := get_text_content (snd r) in
       if PyStr.contains s run_text then results ++ [(p, r)] else results)
    runs acc
  = acc ++ map (fun r => (p, r)) (filter (run_matches s) runs).
Proof.
  revert acc. induction runs as [|r runs IH]; intro acc; simpl.
  - now rewrite app_nil_r.
  - rewrite IH. unfold run_matches at 2.
    destruct (PyStr.contains s (get_text_content (snd r))); [|reflexivity].
    simpl. now rewrite <- app_assoc.
Qed.

Lemma no_run_matches (s : string) (para : Element) :
  PyStr.contains s (get_text_content para) = false ->
  filter (run_matches s) (iter_located (w "r") para) = [].
Proof.
  intro C.
  destruct (filter (run_matches s) (iter_located (w "r") para)) as [|[pr run] l] eqn:E;
    [reflexivity|].
  assert (H : In (pr, run) (filter (run_matches s) (iter_located (w "r") para)))
    by (rewrite E; now left).
  apply filter_In in H. destruct H as [H M].
  apply iter_located_In in H. destruct H as [H _].
  apply (in_map snd) in H. rewrite located_all_snd in H. simpl in H.
  unfold run_matches in M. simpl in M.
  rewrite (contains_within s para run H M) in C. discriminate.
Qed.

Lemma find_text_flat (root : Element) (s : string) :
  find_text root s
  = flat_map (fun p => map (fun r => (p, r))
                           (filter (run_matches s) (iter_located (w "r") (snd p))))
             (iter_located (w "p") root).
Proof.
  unfold find_text.
  assert (G : forall (paras : list (Path * Element)) acc,
    fold_left
      (fun results p =>
         let para_text := get_text_content (snd p) in
         if PyStr.contains s para_text then
           fold_left
             (fun results r =>
                let run_text := get_text_content (snd r) in
                if PyStr.contains s run_text
                then results ++ [(p, r)]
                else results)
             (iter_located (w "r") (snd p)) results
         else results) paras acc
    = acc ++ flat_map (fun p => map (fun r => (p, r))
                           (filter (run_matches s) (iter_located (w "r") (snd p))))
                      paras).
  { induction paras as [|p paras IH]; intro acc; simpl.
    - now rewrite app_nil_r.
    - rewrite IH.
      destruct (PyStr.contains s (get_text_content (snd p))) eqn:C.
      + rewrite find_text_runs. now rewrite <- app_assoc.
      + rewrite (no_run_matches s (snd p) C). reflexivity. }
  apply (G _ []).
Qed.

Lemma find_text_In (root : Element) (s : string)
        (pp pr : Path) (para run : Element) :
  In ((pp, para), (pr, run)) (find_text root s)
  <-> In (pp, para) (iter_located (w "p") root) /\
      In (pr, run) (iter_located (w "r") para) /\
      PyStr.contains s (get_text_content run) = true.
Proof.
  rewrite find_text_flat, in_flat_map. split.
  - intros ([pp' para'] & Hp & H). apply in_map_iff in H.
    destruct H as ([pr' run'] & [= -> -> -> ->] & H).
    apply filter_In in H. simpl in H. tauto.
  - intros (Hp & Hr & C). exists (pp, para). split; [assumption|].
    apply in_map_iff. exists (pr, run). split; [reflexivity|].
    apply filter_In. auto.
Qed.

(** ** Insertion and the hits of the anchor *)

Lemma find_text_nil (root : Element) (s : string) :
  find_text root s = [] <->
  (forall para run, In para (find_paragraphs root) -> In run (find_runs para) ->
                    PyStr.contains s (get_text_content run) = false).
Proof.
  unfold find_paragraphs, find_runs. split.
  - intros E para run Hp Hr.
    destruct (PyStr.contains s (get_text_content run)) eqn:C; [|reflexivity].
    rewrite <- iter_located_snd in Hp, Hr.
    apply in_map_iff in Hp. destruct Hp as ([pp x] & <- & Hp).
    apply in_map_iff in Hr. destruct Hr as ([pr y] & <- & Hr).
    assert (H : In ((pp, x), (pr, y)) (find_text root s)).
    { apply find_text_In. auto. }
    rewrite E in H. contradiction.
  - intro H. destruct (find_text root s) as [|[[pp para] [pr run]] l] eqn:E;
      [reflexivity|].
    assert (I : In ((pp, para), (pr, run)) (find_text root s))
      by (rewrite E; now left).
    apply find_text_In in I. destruct I as (Hp & Hr & C).
    rewrite (H para run) in C; [discriminate | |].
    + rewrite <- iter_located_snd. now apply (in_map snd) in Hp.
    + rewrite <- iter_located_snd. now apply (in_map snd) in Hr.
Qed.


Lemma insert_iff_found
    (Bytes : Type) (parse : Bytes -> option Element)
    (serialize : Element -> Bytes) (ts : nat -> string)
    (folder folder1 : Folder Bytes) (b : Bytes) (root : Element)
    (after_text new_text author : string) (track_changes : bool) :
  after_text <> EmptyString ->
  document_xml Bytes folder = Some b ->
  parse b = Some root ->
  (if track_changes then enable_track_changes Bytes parse serialize folder
   else Ok folder) = Ok folder1 ->
  let outcome :=
    insert_text_after Bytes parse serialize ts folder after_text new_text
                      track_changes author in
  (find_text root after_text = [] -> outcome = (Ok false, folder1)) /\
  (find_text root after_text <> [] ->
   fst outcome = Ok true /\
   exists root', snd outcome = save_document Bytes serialize root' folder1).
Proof.
  intros Hne Hd Hp He outcome. split.
  - intro E. unfold outcome, insert_text_after, parse_document.
    rewrite Hd, Hp, He. rewrite insert_in_paragraphs_none; [reflexivity|].
    intros para run Hpara Hrun. rewrite find_text_nil in E.
    apply (E para run); [|exact Hrun].
    unfold find_paragraphs. now rewrite <- iter_located_snd.
  - intro N.
    assert (X : exists para run,
               In para (find_paragraphs root) /\ In run (find_runs para) /\
               PyStr.contains after_text (get_text_content run) = true).
    { destruct (find_text root after_text) as [|[[pp para] [pr run]] l] eqn:E;
        [contradiction|].
      assert (I : In ((pp, para), (pr, run)) (find_text root after_text))
        by (rewrite E; now left).
      apply find_text_In in I. destruct I as (H1 & H2 & C).
      exists para, run. unfold find_paragraphs, find_runs.
      rewrite <- !iter_located_snd. repeat split; auto.
      - now apply (in_map snd) in H1.
      - now apply (in_map snd) in H2. }
    destruct (insert_after_first_match Bytes parse serialize ts folder folder1
                b root after_text new_text author track_changes
                Hne Hd Hp He X)
      as (p1 & pp & para & p2 & r1 & q & i & run & r2 & before & after
          & _ & _ & _ & _ & _ & _ & _ & _ & _ & R).
    unfold outcome. rewrite R. split; [reflexivity|]. eexists. reflexivity.
Qed.

(** ** Counting the replacements *)

Lemma filter_run_matches_shift (s : string) (i : nat) (l : list (Path * Element)) :
  List.length (filter (run_matches s) (map (fun px => (i :: fst px, snd px)) l))
  = List.length (filter (run_matches s) l).
Proof.
  induction l as [|[p e] l IH]; [reflexivity|].
  cbn [map filter fst snd].
  change (run_matches s (i :: p, e)) with (run_matches s (p, e)).
  destruct (run_matches s (p, e)); cbn [List.length]; now rewrite IH.
Qed.

Lemma hits_located_list (s : string) (cs : list Element) (j : nat) :
  List.length (filter (run_matches s)
                 (filter (fun px => String.eqb (tag (snd px)) (w "r"))
                         (located_list j cs)))
  = hits_list s cs.
Proof.
  revert j. induction cs as [|c cs IH]; intro j; simpl; [reflexivity|].
  rewrite !filter_app, length_app, IH. f_equal.
  rewrite filter_located_shift, filter_run_matches_shift. reflexivity.
Qed.

Lemma hits_unfold (s : string) (e : Element) :
  hits s e = (if matches s e then 1 else 0) + hits_list s (children e).
Proof.
  unfold hits, iter_located. rewrite located_all_unfold.
  cbn [filter snd]. unfold matches.
  destruct (String.eqb (tag e) (w "r")); cbn [andb].
  - cbn [filter]. unfold run_matches at 1. cbn [snd].
    destruct (PyStr.contains s (get_text_content e)); cbn [List.length];
      now rewrite hits_located_list.
  - now rewrite hits_located_list.
Qed.

Lemma hits_matched (s : string) (c : Element) :
  no_nested_runs c -> matches s c = true -> hits s c = 1.
Proof.
  intros N M. pose proof M as M'. unfold matches in M'.
  apply andb_true_iff in M'. destruct M' as [T C]. apply String.eqb_eq in T.
  unfold hits. rewrite (no_nested_runs_self c N T). simpl.
  unfold run_matches. simpl. now rewrite C.
Qed.

Section Count.

Variable ts : nat -> string.
Variables (s replace_with author : string) (track_changes : bool).

Local Abbreviation ed := (edited ts s replace_with author track_changes).
Local Abbreviation edl := (edited_list ts s replace_with author track_changes ed).
Local Abbreviation edd := (edited_doc ts s replace_with author track_changes).

Lemma replaced_run_count (c : Element) (st : EditState) :
  matches s c = true ->
  replacements (snd (replaced_run ts s replace_with author track_changes c st))
  = S (replacements st).
Proof.
  intro M. unfold matches in M. apply andb_true_iff in M. destruct M as [_ C].
  unfold replaced_run. destruct track_changes; [|reflexivity].
  unfold PyStr.contains in C.
  destruct (PyStr.find s (get_text_content c)) as [[b a]|]; [reflexivity|discriminate].
Qed.

Lemma edited_count (e : Element) :
  forall st, matches s e = false -> no_nested_runs e ->
             replacements (snd (ed e st)) = replacements st + hits s e.
Proof.
  induction e as [t a tx tl cs IH] using Element_ind. intros st M N.
  rewrite edited_unfold, hits_unfold, M. cbn [snd children plus].
  assert (Nc : forall c, In c cs -> no_nested_runs c).
  { intros c Hc. apply (no_nested_runs_child _ c N). exact Hc. }
  clear M N t a tx tl. revert st.
  induction IH as [|c cs Hc _ IHcs]; intro st; [simpl; lia|].
  change (hits_list s (c :: cs)) with (hits s c + hits_list s cs).
  destruct (matches s c) eqn:Mc.
  - rewrite (edited_list_match ts s replace_with author track_changes c cs st Mc).
    cbn [snd]. rewrite IHcs by (intros; apply Nc; now right).
    rewrite replaced_run_count by assumption.
    rewrite hits_matched; [lia | apply Nc; now left | assumption].
  - rewrite (edited_list_other ts s replace_with author track_changes c cs st Mc).
    cbn [snd]. rewrite IHcs by (intros; apply Nc; now right).
    rewrite Hc; [lia | reflexivity | apply Nc; now left].
Qed.

End Count.

Lemma para_hits_app (s : string) (a b : list (Path * Element)) :
  para_hits s (a ++ b) = para_hits s a + para_hits s b.
Proof.
  induction a as [|x a IH]; [reflexivity|].
  change (para_hits s ((x :: a) ++ b)) with (hits s (snd x) + para_hits s (a ++ b)).
  change (para_hits s (x :: a)) with (hits s (snd x) + para_hits s a).
  rewrite IH. lia.
Qed.

Lemma para_hits_shift (s : string) (i : nat) (l : list (Path * Element)) :
  para_hits s (map (fun px => (i :: fst px, snd px)) l) = para_hits s l.
Proof.
  induction l as [|[p e] l IH]; [reflexivity|].
  cbn [map]. unfold para_hits in *. cbn [fold_right fst snd]. now rewrite IH.
Qed.

Lemma find_text_length (root : Element) (s : string) :
  List.length (find_text root s) = para_hits s (iter_located (w "p") root).
Proof.
  rewrite find_text_flat.
  induction (iter_located (w "p") root) as [|p l IH]; [reflexivity|].
  cbn [flat_map]. rewrite length_app, length_map, IH. reflexivity.
Qed.

Section CountDocument.

Variable ts : nat -> string.
Variables (s replace_with author : string) (track_changes : bool).

Local Abbreviation edd := (edited_doc ts s replace_with author track_changes).

Lemma edited_doc_count (e : Element) :
  forall st, well_nested e ->
             replacements (snd (edd e st))
             = replacements st + para_hits s (iter_located (w "p") e).
Proof.
  induction e as [t a tx tl cs IH] using Element_ind. intros st W.
  rewrite edited_doc_unfold.
  destruct (is_paragraph (mkElement t a tx tl cs)) eqn:P.
  - assert (Te : tag (mkElement t a tx tl cs) = w "p") by now apply String.eqb_eq.
    destruct (W (mkElement t a tx tl cs)) as [Ws Wr].
    { apply iter_In. split; [apply iter_all_self | exact Te]. }
    rewrite Ws. cbn [para_hits fold_right snd].
    rewrite edited_count; [lia | | assumption].
    unfold matches. rewrite Te.
    destruct (String.eqb_spec (w "p") (w "r")) as [E|_]; [|reflexivity].
    exfalso. apply run_not_paragraph. now symmetry.
  - cbn [snd children].
    assert (E : iter_located (w "p") (mkElement t a tx tl cs)
                = filter (fun px => String.eqb (tag (snd px)) (w "p"))
                         (located_list 0 cs)).
    { unfold iter_located. rewrite located_all_unfold. cbn [filter snd children].
      unfold is_paragraph in P. now rewrite P. }
    rewrite E.
    assert (Wc : forall c, In c cs -> well_nested c).
    { intros c Hc. apply (well_nested_child _ c W). exact Hc. }
    clear E W P. generalize 0. revert st.
    induction IH as [|c cs Hc _ IHcs]; intros st j; [apply plus_n_O|].
    cbn [in_turn].
    destruct (edd c st) as [c' st1] eqn:E1.
    destruct (in_turn edd cs st1) as [l st2] eqn:E2. cbn [snd].
    cbn [located_list]. rewrite filter_app, para_hits_app.
    rewrite filter_located_shift, para_hits_shift.
    specialize (IHcs (fun c0 H => Wc c0 (or_intror H)) st1 (S j)).
    rewrite E2 in IHcs. cbn [snd] in IHcs. rewrite IHcs.
    specialize (Hc st (Wc c (or_introl eq_refl))). rewrite E1 in Hc.
    cbn [snd] in Hc. unfold iter_located in Hc. rewrite Hc.
    symmetry. apply Nat.add_assoc.
Qed.

End CountDocument.

Lemma replace_counts_hits
    (Bytes : Type) (parse : Bytes -> option Element)
    (serialize : Element -> Bytes) (ts : nat -> string)
    (folder folder1 : Folder Bytes) (b : Bytes) (root : Element)
    (s replace_with author : string) (track_changes : bool) :
  s <> EmptyString ->
  document_xml Bytes folder = Some b ->
  parse b = Some root ->
  (if track_changes then enable_track_changes Bytes parse serialize folder
   else Ok folder) = Ok folder1 ->
  well_nested root ->
  fst (replace_text Bytes parse serialize ts folder s replace_with
                    track_changes author)
  = Ok (List.length (find_text root s)).
Proof.
  intros Hne Hd Hp He W.
  rewrite (replace_text_edited Bytes parse serialize ts folder folder1 b root
             s replace_with author track_changes Hne Hd Hp He W).
  cbn [fst]. rewrite edited_doc_count by assumption.
  cbn [replacements]. now rewrite find_text_length.
Qed.

(** ** Escaping *)

Lemma replace_char (c : ascii) (new s : string) :
  PyStr.replace (String c EmptyString) new s = each (subst1 c new) s.
Proof.
  unfold PyStr.replace.
  induction s as [|d s IH]; [reflexivity|].
  cbn [PyStr.replace_go each]. unfold subst1 at 1.
  cbn [prefix String.length Nat.sub].
  rewrite Ascii.eqb_sym.
  destruct (ascii_dec c d) as [->|D].
  - rewrite Ascii.eqb_refl.
    replace (prefix "" s) with true by (now destruct s).
    now rewrite IH.
  - destruct (Ascii.eqb_spec c d) as [E|_]; [contradiction|].
    cbn [String.append]. now rewrite IH.
Qed.

Lemma each_app (f : ascii -> string) (a b : string) :
  each f (a ++ b) = (each f a ++ each f b)%string.
Proof.
  induction a as [|c a IH]; [reflexivity|].
  cbn [String.append each]. now rewrite IH, append_assoc.
Qed.

Lemma escape_each (s : string) : escape_xml_text s = each entity s.
Proof.
  unfold escape_xml_text, quot. cbn [fold_left fst snd].
  rewrite !replace_char.
  induction s as [|c s IH]; [reflexivity|].
  cbn [each]. rewrite !each_app, IH. f_equal.
  unfold entity, subst1.
  destruct (Ascii.eqb_spec c "&") as [->|N1]; [reflexivity|].
  destruct (Ascii.eqb_spec c "<") as [->|N2]; [reflexivity|].
  destruct (Ascii.eqb_spec c ">") as [->|N3]; [reflexivity|].
  destruct (Ascii.eqb_spec c "034") as [->|N4]; [reflexivity|].
  destruct (Ascii.eqb_spec c "'") as [->|N5]; [reflexivity|].
  cbn [each String.append].
  repeat match goal with
         | |- context [Ascii.eqb c ?x] =>
             destruct (Ascii.eqb_spec c x); [contradiction|]; cbn [each String.append]
         end.
  reflexivity.
Qed.

Ltac entity_cases c :=
  unfold entity;
  destruct (Ascii.eqb_spec c "&") as [->|?];
  [|destruct (Ascii.eqb_spec c "<") as [->|?];
    [|destruct (Ascii.eqb_spec c ">") as [->|?];
      [|destruct (Ascii.eqb_spec c "034") as [->|?];
        [|destruct (Ascii.eqb_spec c "'") as [->|?]]]]].

Lemma entity_head (c d : ascii) (x y : string) :
  (entity c ++ x)%string = (entity d ++ y)%string -> c = d /\ x = y.
Proof.
  entity_cases c; entity_cases d; cbn [String.append]; intro H;
    try (injection H; intros; subst; try contradiction; split; congruence);
    try discriminate H.
Qed.

Lemma entity_not_empty (c : ascii) (x : string) :
  (entity c ++ x)%string <> EmptyString.
Proof. entity_cases c; discriminate. Qed.

Lemma each_entity_injective (s t : string) :
  each entity s = each entity t -> s = t.
Proof.
  revert t. induction s as [|c s IH]; intros [|d t] H; cbn [each] in H.
  - reflexivity.
  - symmetry in H. now apply entity_not_empty in H.
  - now apply entity_not_empty in H.
  - apply entity_head in H. destruct H as [-> H]. f_equal. now apply IH.
Qed.

(** ** Hexadecimal text *)

Section Hex.
Local Open Scope Z_scope.

Lemma hex_val_char (d : Z) : 0 <= d < 16 -> hex_val (PyFormat.hex_char d) = Some d.
Proof.
  intro H.
  assert (C : d = 0 \/ d = 1 \/ d = 2 \/ d = 3 \/ d = 4 \/ d = 5 \/ d = 6 \/ d = 7 \/
              d = 8 \/ d = 9 \/ d = 10 \/ d = 11 \/ d = 12 \/ d = 13 \/ d = 14 \/ d = 15)
    by lia.
  repeat (destruct C as [->|C]; [reflexivity|]). now subst.
Qed.

Lemma rev_hex_value (fuel : nat) :
  forall n, 0 <= n < 16 ^ Z.of_nat fuel -> lsd16 (PyFormat.rev_hex fuel n) = Some n.
Proof.
  induction fuel as [|k IH]; intros n H.
  - simpl in *. f_equal. lia.
  - cbn [PyFormat.rev_hex].
    assert (M : 0 <= n mod 16 < 16) by (apply Z.mod_pos_bound; lia).
    destruct (Z.ltb_spec n 16) as [L|L].
    + simpl. rewrite Z.mod_small by lia. rewrite hex_val_char by lia. f_equal.
    + cbn [lsd16 fold_right]. fold (lsd16 (PyFormat.rev_hex k (n / 16))).
      rewrite IH, (hex_val_char _ M).
      * f_equal. pose proof (Z.div_mod n 16). lia.
      * rewrite Nat2Z.inj_succ, Z.pow_succ_r in H by lia.
        split; [apply Z.div_pos; lia|].
        apply Z.div_lt_upper_bound; lia.
Qed.

Lemma rev_hex_length (fuel : nat) :
  forall n k, 0 <= n < 16 ^ Z.of_nat (S k) ->
              (List.length (PyFormat.rev_hex fuel n) <= S k)%nat.
Proof.
  induction fuel as [|f IH]; intros n k H; [simpl; lia|].
  cbn [PyFormat.rev_hex List.length].
  destruct (Z.ltb_spec n 16) as [L|L]; [simpl; lia|].
  destruct k as [|k].
  - simpl in H. lia.
  - apply le_n_S. apply IH.
    rewrite Nat2Z.inj_succ, Z.pow_succ_r in H by lia.
    split; [apply Z.div_pos; lia|].
    apply Z.div_lt_upper_bound; lia.
Qed.

Lemma hex_value_app (a : list ascii) :
  forall acc v b,
    lsd16 a = Some v ->
    hex_value acc (string_of_list_ascii (rev a ++ b))
    = hex_value (acc * 16 ^ Z.of_nat (List.length a) + v) (string_of_list_ascii b).
Proof.
  induction a as [|c a IH]; intros acc v b H.
  - simpl in H. injection H as <-. simpl. f_equal. lia.
  - cbn [lsd16 fold_right] in H. fold (lsd16 a) in H.
    destruct (lsd16 a) as [va|] eqn:Ea; [|discriminate].
    destruct (hex_val c) as [d|] eqn:Ec; [|discriminate].
    assert (Hv : v = 16 * va + d) by congruence. subst v. clear H.
    cbn [rev]. rewrite <- app_assoc. rewrite (IH acc va _ eq_refl).
    cbn [app string_of_list_ascii hex_value]. rewrite Ec.
    f_equal. cbn [List.length]. rewrite Nat2Z.inj_succ, Z.pow_succ_r by lia. ring.
Qed.

Lemma hex_value_zeros (k : nat) (s : string) :
  hex_value 0 (PyFormat.zeros k s) = hex_value 0 s.
Proof. induction k as [|k IH]; [reflexivity|]. simpl. exact IH. Qed.

Lemma length_zeros (k : nat) (s : string) :
  String.length (PyFormat.zeros k s) = (k + String.length s)%nat.
Proof. induction k as [|k IH]; [reflexivity|]. simpl. now rewrite IH. Qed.

Lemma length_string_of_list (l : list ascii) :
  String.length (string_of_list_ascii l) = List.length l.
Proof. induction l as [|c l IH]; [reflexivity|]. simpl. now rewrite IH. Qed.

Lemma log2_fuel (n : Z) : 0 <= n -> n < 16 ^ Z.of_nat (S (Z.to_nat (Z.log2 n))).
Proof.
  intro H. destruct (Z.eq_dec n 0) as [->|N]; [reflexivity|].
  pose proof (Z.log2_nonneg n) as L.
  rewrite Nat2Z.inj_succ, Z2Nat.id by lia.
  pose proof (Z.log2_spec n ltac:(lia)) as [_ U].
  eapply Z.lt_le_trans; [exact U|].
  apply Z.pow_le_mono_l. lia.
Qed.

Lemma upper_hex_value (n : Z) :
  0 <= n -> hex_value 0 (PyFormat.upper_hex n) = Some n.
Proof.
  intro H. unfold PyFormat.upper_hex.
  rewrite <- (app_nil_r (rev _)).
  rewrite (hex_value_app _ 0 n []); [reflexivity|].
  apply rev_hex_value. split; [lia | now apply log2_fuel].
Qed.

Lemma upper_hex_length (n : Z) (k : nat) :
  0 <= n < 16 ^ Z.of_nat (S k) ->
  (1 <= String.length (PyFormat.upper_hex n) <= S k)%nat.
Proof.
  intro H. unfold PyFormat.upper_hex.
  rewrite length_string_of_list, length_rev. split.
  - cbn [PyFormat.rev_hex List.length]. lia.
  - now apply rev_hex_length.
Qed.

(** X7: whatever number [random.randint(0, 0xFFFFFFFF)] draws in its
    range, the RSID has exactly eight characters, all upper-case
    hexadecimal digits, and reads back in base 16 as the number drawn. *)
Theorem X7_rsid_eight_hex_digits (randint : Z -> Z -> Z) :
  (forall a b, a <= b -> a <= randint a b <= b) ->
  String.length (generate_rsid randint) = 8%nat /\
  hex_value 0 (generate_rsid randint) = Some (randint 0 4294967295).
Proof.
  intro R. specialize (R 0 4294967295 ltac:(lia)).
  unfold generate_rsid, PyFormat.format_08X.
  destruct (Z.ltb_spec (randint 0 4294967295) 0) as [L|L]; [lia|].
  unfold PyFormat.zfill.
  pose proof (upper_hex_length (randint 0 4294967295) 7) as Len.
  assert (P : 16 ^ Z.of_nat 8 = 4294967296) by reflexivity.
  rewrite P in Len. specialize (Len ltac:(lia)).
  split.
  - rewrite length_zeros. lia.
  - rewrite hex_value_zeros. apply upper_hex_value. lia.
Qed.

End Hex.

(** ** The identifiers of synthesized markup *)

Lemma In_ids_of (e : Element) (l : list Element) (z : Z) :
  In e l -> id_value e = Some z -> In z (ids_of l).
Proof.
  intros H V. unfold ids_of. apply in_flat_map. exists e. split; [assumption|].
  rewrite V. now left.
Qed.

Lemma In_read_of (e : Element) (l : list Element) (z : Z) :
  In e l -> read_value e = Some z -> In z (read_of l).
Proof.
  intros H V. unfold read_of. apply in_flat_map. exists e. split; [assumption|].
  rewrite V. now left.
Qed.

Lemma next_id_above (root e : Element) (z : Z) :
  In e (iter_all root) -> read_value e = Some z ->
  (z < get_next_change_id root)%Z.
Proof.
  intros H V. rewrite get_next_change_id_read.
  pose proof (max0_upper (read_ids root)) as U. rewrite Forall_forall in U.
  specialize (U z (In_read_of e _ z H V)). lia.
Qed.

(** ** The settings part, failures *)

Section Settings.

Variable Bytes : Type.
Variable parse : Bytes -> option Element.
Variable serialize : Element -> Bytes.

Local Abbreviation enable := (enable_track_changes Bytes parse serialize).

Lemma find_descendant_inserted (t : string) (root : Element) :
  find_descendant t (insert_first root (new_element t)) = Some (new_element t).
Proof.
  unfold find_descendant, insert_first.
  rewrite children_set_children. cbn [insert_at flat_map app iter_all new_element].
  cbn [List.find tag]. now rewrite String.eqb_refl.
Qed.

Lemma with_track_revisions_found (root : Element) :
  find_descendant (w "trackRevisions") (with_track_revisions root) <> None.
Proof.
  unfold with_track_revisions.
  destruct (find_descendant (w "trackRevisions") root) eqn:F.
  - rewrite F. discriminate.
  - rewrite find_descendant_inserted. discriminate.
Qed.

Lemma with_track_revisions_again (root : Element) :
  with_track_revisions (with_track_revisions root) = with_track_revisions root.
Proof.
  pose proof (with_track_revisions_found root) as F.
  unfold with_track_revisions at 1.
  now destruct (find_descendant (w "trackRevisions") (with_track_revisions root)).
Qed.

Lemma enable_spec (folder folder1 : Folder Bytes) :
  enable folder = Ok folder1 ->
  exists root,
    (match settings_xml Bytes folder with
     | Some sb => parse sb = Some root
     | None => root = set (new_element (w "settings")) "xmlns:w" NAMESPACES_w
     end) /\
    folder1 = mkFolder Bytes (document_xml Bytes folder)
                       (Some (serialize (with_track_revisions root))).
Proof.
  unfold enable_track_changes, with_track_revisions.
  destruct (settings_xml Bytes folder) as [sb|].
  - destruct (parse sb) as [root|]; [|discriminate].
    intros [= <-]. exists root. split; reflexivity.
  - intros [= <-]. eexists. split; reflexivity.
Qed.

(** X11: where the settings part is there and parses, after
    [enable_track_changes] it is the serialization of a tree with a
    track-revisions element below its root, and the document part is as
    it was; doing it again to what was written, when that parses back
    to the tree written, changes nothing.  (Settings made anew are left
    out: the root then carries the attribute [xmlns:w] beside its
    namespace.) *)
Theorem X11_enable_twice (folder folder1 : Folder Bytes) (sb : Bytes)
        (root : Element) :
  settings_xml Bytes folder = Some sb ->
  parse sb = Some root ->
  enable folder = Ok folder1 ->
  exists settings,
    settings = with_track_revisions root /\
    settings_xml Bytes folder1 = Some (serialize settings) /\
    document_xml Bytes folder1 = document_xml Bytes folder /\
    find_descendant (w "trackRevisions") settings <> None /\
    (parse (serialize settings) = Some settings -> enable folder1 = Ok folder1).
Proof.
  intros Hs Hp H. destruct (enable_spec folder folder1 H) as (root' & E & ->).
  rewrite Hs, Hp in E. injection E as <-.
  exists (with_track_revisions root). repeat split.
  - apply with_track_revisions_found.
  - intro R. unfold enable_track_changes. cbn [settings_xml document_xml].
    rewrite R.
    fold (with_track_revisions (with_track_revisions root)).
    now rewrite with_track_revisions_again.
Qed.

(** X12: settings that are there are kept: the tree written has the
    root's tag, attributes and text; it is the tree read when that has
    a track-revisions element below the root, and otherwise the tree
    read with such an element put before the root's children. *)
Theorem X12_enable_keeps_settings (folder : Folder Bytes) (sb : Bytes) (root : Element) :
  settings_xml Bytes folder = Some sb ->
  parse sb = Some root ->
  exists settings,
    enable folder = Ok (mkFolder Bytes (document_xml Bytes folder)
                                 (Some (serialize settings))) /\
    tag settings = tag root /\ attrib settings = attrib root /\
    text settings = text root /\ tail settings = tail root /\
    (find_descendant (w "trackRevisions") root <> None -> settings = root) /\
    (find_descendant (w "trackRevisions") root = None ->
     children settings = new_element (w "trackRevisions") :: children root).
Proof.
  intros Hs Hp. exists (with_track_revisions root).
  unfold enable_track_changes. rewrite Hs, Hp.
  fold (with_track_revisions root). split; [reflexivity|].
  unfold with_track_revisions.
  destruct (find_descendant (w "trackRevisions") root) eqn:F.
  - repeat split; auto. discriminate.
  - destruct root as [t a tx tl cs]. repeat split; auto. contradiction.
Qed.

Lemma enable_raises (folder : Folder Bytes) (e : Error) :
  enable folder = Raise e ->
  e = ParseError /\
  exists sb, settings_xml Bytes folder = Some sb /\ parse sb = None.
Proof.
  unfold enable_track_changes.
  destruct (settings_xml Bytes folder) as [sb|]; [|discriminate].
  destruct (parse sb) eqn:P; [discriminate|].
  intros [= <-]. eauto.
Qed.

Variable ts : nat -> string.

Lemma replace_failure (folder : Folder Bytes) (s r author : string)
      (track_changes : bool) (e : Error) :
  fst (replace_text Bytes parse serialize ts folder s r track_changes author)
  = Raise e ->
  document_xml Bytes
    (snd (replace_text Bytes parse serialize ts folder s r track_changes author))
  = document_xml Bytes folder /\
  (track_changes = false ->
   snd (replace_text Bytes parse serialize ts folder s r track_changes author)
   = folder).
Proof.
  unfold replace_text.
  destruct (parse_document Bytes parse folder) as [root|e0]; [|now split].
  destruct track_changes.
  - pose proof (enable_track_changes_document Bytes parse serialize folder) as D.
    destruct (enable_track_changes Bytes parse serialize folder) as [f1|e1];
      [|now split].
    destruct D as [D _].
    destruct (replace_from _ _ _ _ _ _ _ _) as [[[root' st]|e2]|];
      cbn [fst snd]; intro H; try discriminate; split; auto; discriminate.
  - destruct (replace_from _ _ _ _ _ _ _ _) as [[[root' st]|e2]|];
      cbn [fst snd]; intro H; try discriminate; split; auto.
Qed.

Lemma insert_failure (folder : Folder Bytes) (s r author : string)
      (track_changes : bool) (e : Error) :
  fst (insert_text_after Bytes parse serialize ts folder s r track_changes author)
  = Raise e ->
  document_xml Bytes
    (snd (insert_text_after Bytes parse serialize ts folder s r track_changes author))
  = document_xml Bytes folder /\
  (track_changes = false ->
   snd (insert_text_after Bytes parse serialize ts folder s r track_changes author)
   = folder).
Proof.
  unfold insert_text_after.
  destruct (parse_document Bytes parse folder) as [root|e0]; [|now split].
  destruct track_changes.
  - pose proof (enable_track_changes_document Bytes parse serialize folder) as D.
    destruct (enable_track_changes Bytes parse serialize folder) as [f1|e1];
      [|now split].
    destruct D as [D _].
    destruct (insert_in_paragraphs _ _ _ _ _ _ _ _) as [[root'|e2]|];
      cbn [fst snd]; intro H; try discriminate; split; auto; discriminate.
  - destruct (insert_in_paragraphs _ _ _ _ _ _ _ _) as [[root'|e2]|];
      cbn [fst snd]; intro H; try discriminate; split; auto.
Qed.

(** X14: without [track_changes] no operation touches the settings
    part, whatever it returns or raises. *)
Theorem X14_untracked_keeps_settings (folder : Folder Bytes) (s r author : string) :
  settings_xml Bytes
    (snd (replace_text Bytes parse serialize ts folder s r false author))
  = settings_xml Bytes folder /\
  settings_xml Bytes
    (snd (insert_text_after Bytes parse serialize ts folder s r false author))
  = settings_xml Bytes folder /\
  settings_xml Bytes
    (snd (delete_text Bytes parse serialize ts folder s false author))
  = settings_xml Bytes folder.
Proof.
  unfold delete_text, replace_text, insert_text_after.
  destruct (parse_document Bytes parse folder) as [root|e0]; [|now repeat split].
  repeat split.
  - now destruct (replace_from _ _ _ _ _ _ _ _) as [[[root' st]|e2]|].
  - now destruct (insert_in_paragraphs _ _ _ _ _ _ _ _) as [[root'|e2]|].
  - now destruct (replace_from _ _ _ _ _ _ _ _) as [[[root' st]|e2]|].
Qed.

End Settings.

(** ** The text of a tree under an edit *)

Lemma texts_nil : texts [] = "".
Proof. reflexivity. Qed.

Lemma texts_cons (c : Element) (l : list Element) :
  texts (c :: l) = (get_text_content c ++ texts l)%string.
Proof. unfold texts. cbn [map]. apply concat_cons. Qed.

Lemma texts_app (a b : list Element) : texts (a ++ b) = (texts a ++ texts b)%string.
Proof. unfold texts. now rewrite map_app, concat_app. Qed.

Lemma filter_flat_map {A B} (f : B -> bool) (g : A -> list B) (l : list A) :
  filter f (flat_map g l) = flat_map (fun x => filter f (g x)) l.
Proof.
  induction l as [|x l IH]; [reflexivity|]. simpl. now rewrite filter_app, IH.
Qed.

Lemma get_text_content_unfold (e : Element) :
  get_text_content e
  = ((if String.eqb (tag e) (w "t") then text_part e else "")
     ++ texts (children e))%string.
Proof.
  unfold get_text_content at 1, iter. rewrite iter_all_unfold. cbn [filter].
  assert (E : String.concat ""
                (map text_part
                   (filter (fun x => String.eqb (tag x) (w "t"))
                           (flat_map iter_all (children e))))
              = texts (children e)).
  { rewrite filter_flat_map. induction (children e) as [|c cs IH]; [reflexivity|].
    cbn [flat_map]. rewrite map_app, concat_app, IH, texts_cons. reflexivity. }
  destruct (String.eqb (tag e) (w "t")).
  - cbn [map]. now rewrite concat_cons, E.
  - now rewrite E.
Qed.

Lemma texts_split (cs : list Element) (i : nat) (c : Element) :
  nth_error cs i = Some c ->
  texts cs = (texts (firstn i cs) ++ get_text_content c
              ++ texts (skipn (S i) cs))%string.
Proof.
  revert i. induction cs as [|d cs IH]; intros [|i] H; simpl in H;
    try discriminate.
  - injection H as ->. cbn [firstn skipn]. now rewrite texts_cons.
  - cbn [firstn]. change (skipn (S (S i)) (d :: cs)) with (skipn (S i) cs).
    rewrite !texts_cons, (IH i H). now rewrite append_assoc.
Qed.

Lemma texts_update_nth (g : Element -> Element) (cs : list Element) (i : nat)
      (c : Element) :
  nth_error cs i = Some c ->
  texts (update_nth i g cs)
  = (texts (firstn i cs) ++ get_text_content (g c)
     ++ texts (skipn (S i) cs))%string.
Proof.
  revert i. induction cs as [|d cs IH]; intros [|i] H; simpl in H;
    try discriminate.
  - injection H as ->. cbn [firstn skipn update_nth]. now rewrite texts_cons.
  - cbn [firstn update_nth].
    change (skipn (S (S i)) (d :: cs)) with (skipn (S i) cs).
    rewrite !texts_cons, (IH i H). now rewrite append_assoc.
Qed.

(** New children for the element at [q] change the text of the tree in
    the place of the old children's text and nowhere else. *)
Lemma text_update_children (l : list Element) (q : Path) :
  forall e parent,
    subtree e q = Some parent ->
    exists L R,
      get_text_content e = (L ++ texts (children parent) ++ R)%string /\
      get_text_content (update_at q (fun x => set_children x l) e)
      = (L ++ texts l ++ R)%string.
Proof.
  induction q as [|j q IH]; intros e parent H; simpl in H.
  - injection H as <-. cbn [update_at].
    exists (if String.eqb (tag e) (w "t") then text_part e else ""), "".
    rewrite !append_nil_r. split; [apply get_text_content_unfold|].
    rewrite get_text_content_unfold. now destruct e.
  - destruct (nth_error (children e) j) as [c|] eqn:N; [|discriminate].
    destruct (IH c parent H) as (L & R & E1 & E2).
    exists ((if String.eqb (tag e) (w "t") then text_part e else "")
            ++ texts (firstn j (children e)) ++ L)%string,
           (R ++ texts (skipn (S j) (children e)))%string.
    split.
    + rewrite get_text_content_unfold, (texts_split _ _ _ N), E1.
      now rewrite !append_assoc.
    + cbn [update_at]. rewrite get_text_content_unfold.
      rewrite children_set_children, (texts_update_nth _ _ _ _ N), E2.
      replace (tag (set_children e _)) with (tag e) by now destruct e.
      replace (text_part (set_children e
                 (update_nth j (update_at q (fun x => set_children x l))
                             (children e))))
        with (text_part e) by now destruct e.
      now rewrite !append_assoc.
Qed.

Lemma texts_plain_run (x : string) : texts (plain_run x) = x.
Proof.
  unfold plain_run. destruct x as [|c x]; [reflexivity|].
  cbn [PyStr.truthy]. rewrite texts_cons, texts_nil, get_text_content_run.
  apply append_nil_r.
Qed.

Lemma get_text_content_inserted (ts : nat -> string) (x author : string)
      (tc : bool) (n : Z) :
  get_text_content (inserted ts x author tc n) = x.
Proof.
  unfold inserted. destruct tc.
  - apply get_text_content_insertion.
  - apply get_text_content_run.
Qed.

Section InsertDone.

Variable Bytes : Type.
Variable parse : Bytes -> option Element.
Variable serialize : Element -> Bytes.
Variable ts : nat -> string.

(** What a successful [insert_text_after] has done. *)
Lemma insert_true_para
    (folder : Folder Bytes) (b : Bytes) (root : Element)
    (after_text new_text author : string) (track_changes : bool) :
  after_text <> EmptyString ->
  document_xml Bytes folder = Some b ->
  parse b = Some root ->
  fst (insert_text_after Bytes parse serialize ts folder after_text new_text
                         track_changes author) = Ok true ->
  exists folder1 pp para q parent i run before after,
    (if track_changes then enable_track_changes Bytes parse serialize folder
     else Ok folder) = Ok folder1 /\
    In (pp, para) (iter_located (w "p") root) /\
    subtree para q = Some parent /\
    nth_error (children parent) i = Some run /\
    get_text_content run = (before ++ after_text ++ after)%string /\
    insert_text_after Bytes parse serialize ts folder after_text new_text
                      track_changes author
    = (Ok true,
       save_document Bytes serialize
         (update_at (pp ++ q)
            (fun x => set_children x
               (firstn i (children parent)
                ++ [create_run (before ++ after_text)%string false false;
                    inserted ts new_text author track_changes
                      (if track_changes then get_next_change_id root else 0%Z)]
                ++ plain_run after
                ++ skipn (S i) (children parent)))
            root)
         folder1).
Proof.
  intros Hne Hd Hp Ht.
  destruct (if track_changes then enable_track_changes Bytes parse serialize folder
            else Ok folder) as [folder1|e] eqn:He.
  2:{ unfold insert_text_after, parse_document in Ht.
      rewrite Hd, Hp, He in Ht. discriminate. }
  destruct (insert_iff_found Bytes parse serialize ts folder folder1 b root
              after_text new_text author track_changes Hne Hd Hp He) as [A _].
  assert (N : find_text root after_text <> []).
  { intro E. rewrite (A E) in Ht. discriminate. }
  assert (X : exists para run,
             In para (find_paragraphs root) /\ In run (find_runs para) /\
             PyStr.contains after_text (get_text_content run) = true).
  { destruct (find_text root after_text) as [|[[pp para] [pr run]] l] eqn:E;
      [contradiction|].
    assert (I : In ((pp, para), (pr, run)) (find_text root after_text))
      by (rewrite E; now left).
    apply find_text_In in I. destruct I as (H1 & H2 & C).
    exists para, run. unfold find_paragraphs, find_runs.
    rewrite <- !iter_located_snd. repeat split; auto.
    - now apply (in_map snd) in H1.
    - now apply (in_map snd) in H2. }
  destruct (insert_after_first_match Bytes parse serialize ts folder folder1
              b root after_text new_text author track_changes
              Hne Hd Hp He X)
    as (p1 & pp & para & p2 & r1 & q & i & run & r2 & before & after
        & Lp & _ & _ & _ & Hs & Ht' & _ & Hn & _ & R).
  assert (Ip : In (pp, para) (iter_located (w "p") root))
    by (rewrite Lp; apply in_elt).
  pose proof (iter_located_subtree _ _ _ _ Ip) as [Spara _].
  rewrite (children_at_app root para pp q Spara) in Hn, R.
  unfold children_at in Hn, R.
  destruct (subtree para q) as [parent|] eqn:Sp.
  2:{ destruct i; discriminate. }
  exists folder1, pp, para, q, parent, i, run, before, after.
  repeat split; auto.
Qed.

Lemma insert_true_inv
    (folder : Folder Bytes) (b : Bytes) (root : Element)
    (after_text new_text author : string) (track_changes : bool) :
  after_text <> EmptyString ->
  document_xml Bytes folder = Some b ->
  parse b = Some root ->
  fst (insert_text_after Bytes parse serialize ts folder after_text new_text
                         track_changes author) = Ok true ->
  exists folder1 p parent i run before after,
    (if track_changes then enable_track_changes Bytes parse serialize folder
     else Ok folder) = Ok folder1 /\
    subtree root p = Some parent /\
    nth_error (children parent) i = Some run /\
    get_text_content run = (before ++ after_text ++ after)%string /\
    insert_text_after Bytes parse serialize ts folder after_text new_text
                      track_changes author
    = (Ok true,
       save_document Bytes serialize
         (update_at p
            (fun x => set_children x
               (firstn i (children parent)
                ++ [create_run (before ++ after_text)%string false false;
                    inserted ts new_text author track_changes
                      (if track_changes then get_next_change_id root else 0%Z)]
                ++ plain_run after
                ++ skipn (S i) (children parent)))
            root)
         folder1).
Proof.
  intros Hne Hd Hp Ht.
  destruct (insert_true_para folder b root after_text new_text author
              track_changes Hne Hd Hp Ht)
    as (folder1 & pp & para & q & parent & i & run & before & after
        & He & Ip & Sq & Hn & Hx & R).
  exists folder1, (pp ++ q), parent, i, run, before, after.
  repeat split; auto.
  apply iter_located_subtree in Ip. destruct Ip as [Spara _].
  now rewrite subtree_app, Spara.
Qed.

End InsertDone.

(** ** Readable trees

    A tree in which no identifier has more digits than [int] reads
    stays one under an edit that writes identifiers [str] can write. *)

Lemma forallb_flat_map {A B} (f : B -> bool) (g : A -> list B) (l : list A) :
  forallb f (flat_map g l) = forallb (fun x => forallb f (g x)) l.
Proof.
  induction l as [|x l IH]; [reflexivity|].
  cbn [flat_map forallb]. now rewrite forallb_app, IH.
Qed.

Lemma readable_unfold (e : Element) :
  readable e = short_id e && forallb readable (children e).
Proof.
  unfold readable at 1. rewrite iter_all_unfold. cbn [forallb].
  now rewrite forallb_flat_map.
Qed.

Lemma short_id_set_children (e : Element) (l : list Element) :
  short_id (set_children e l) = short_id e.
Proof. reflexivity. Qed.

Lemma readable_set_children (e : Element) (l : list Element) :
  readable e = true -> forallb readable l = true ->
  readable (set_children e l) = true.
Proof.
  intros He Hl. rewrite readable_unfold in *.
  rewrite short_id_set_children, children_set_children.
  apply andb_true_iff in He. destruct He as [-> _]. exact Hl.
Qed.

Lemma readable_children (e : Element) :
  readable e = true -> forallb readable (children e) = true.
Proof.
  rewrite readable_unfold. intro H. apply andb_true_iff in H. tauto.
Qed.

Lemma readable_run (x : string) (bold italic : bool) :
  readable (create_run x bold italic) = true.
Proof.
  unfold create_run, create_text_element. rewrite andb_true_l.
  destruct bold, italic, (PyStr.startswith_space x || PyStr.endswith_space x);
    reflexivity.
Qed.

Lemma readable_plain_run (x : string) : forallb readable (plain_run x) = true.
Proof.
  unfold plain_run. destruct (PyStr.truthy x); [|reflexivity].
  cbn [forallb]. now rewrite readable_run.
Qed.

Lemma short_id_str (e : Element) (n : Z) :
  get e (w "id") = Some (PyInt.str n) -> PyInt.printable n -> short_id e = true.
Proof.
  intros G H. unfold short_id. rewrite G. now apply Z.leb_le, count_digits_str.
Qed.

Lemma readable_deletion (x author : string) (n : Z) (ts : string) :
  PyInt.printable n -> readable (create_tracked_deletion x author n ts) = true.
Proof.
  intro H. rewrite readable_unfold.
  rewrite (short_id_str _ n) by (reflexivity || assumption).
  unfold create_tracked_deletion, create_del_text.
  destruct (PyStr.startswith_space x || PyStr.endswith_space x); reflexivity.
Qed.

Lemma readable_insertion (x author : string) (n : Z) (bold italic : bool)
      (ts : string) :
  PyInt.printable n ->
  readable (create_tracked_insertion x author n bold italic ts) = true.
Proof.
  intro H. rewrite readable_unfold.
  rewrite (short_id_str _ n) by (reflexivity || assumption).
  change (children (create_tracked_insertion x author n bold italic ts))
    with [create_run x bold italic].
  cbn [forallb andb]. now rewrite readable_run.
Qed.

Lemma forallb_firstn {A} (f : A -> bool) (l : list A) (i : nat) :
  forallb f l = true -> forallb f (firstn i l) = true.
Proof.
  revert i. induction l as [|x l IH]; intros [|i] H; try reflexivity.
  cbn [forallb firstn] in *. apply andb_true_iff in H. destruct H as [-> H].
  now apply IH.
Qed.

Lemma forallb_skipn {A} (f : A -> bool) (l : list A) (i : nat) :
  forallb f l = true -> forallb f (skipn i l) = true.
Proof.
  revert i. induction l as [|x l IH]; intros [|i] H; try reflexivity;
    [exact H|].
  cbn [forallb skipn] in *. apply andb_true_iff in H. destruct H as [_ H].
  now apply IH.
Qed.

Lemma forallb_update_nth {A} (f : A -> bool) (g : A -> A) (l : list A) (i : nat) :
  forallb f l = true ->
  (forall x, nth_error l i = Some x -> f (g x) = true) ->
  forallb f (update_nth i g l) = true.
Proof.
  revert i. induction l as [|x l IH]; intros [|i] H G; try reflexivity;
    cbn [forallb update_nth] in *; apply andb_true_iff in H;
    destruct H as [Hx Hl].
  - rewrite (G x eq_refl). exact Hl.
  - rewrite Hx. apply IH; [exact Hl|]. intros y Hy. now apply G.
Qed.

Lemma readable_subtree (p : Path) :
  forall e x, subtree e p = Some x -> readable e = true -> readable x = true.
Proof.
  induction p as [|i p IH]; intros e x H Hr; simpl in H.
  - now injection H as <-.
  - destruct (nth_error (children e) i) as [c|] eqn:N; [|discriminate].
    apply (IH c x H). apply readable_children in Hr.
    rewrite forallb_forall in Hr. apply Hr. eapply nth_error_In, N.
Qed.

Lemma readable_update_children (l : list Element) (p : Path) :
  forall e parent,
    subtree e p = Some parent ->
    readable e = true -> forallb readable l = true ->
    readable (update_at p (fun x => set_children x l) e) = true.
Proof.
  induction p as [|i p IH]; intros e parent H Hr Hl; simpl in H.
  - injection H as <-. now apply readable_set_children.
  - destruct (nth_error (children e) i) as [c|] eqn:N; [|discriminate].
    cbn [update_at]. apply readable_set_children; [exact Hr|].
    pose proof (readable_children e Hr) as Hc.
    apply forallb_update_nth; [exact Hc|].
    intros x Hx. rewrite N in Hx. injection Hx as <-.
    apply (IH c parent H); [|exact Hl].
    rewrite forallb_forall in Hc. apply Hc. eapply nth_error_In, N.
Qed.

Lemma readable_inserted (ts : nat -> string) (x author : string) (tc : bool)
      (n : Z) :
  (tc = true -> PyInt.printable n) -> readable (inserted ts x author tc n) = true.
Proof.
  unfold inserted. destruct tc; intro H.
  - now apply readable_insertion, H.
  - apply readable_run.
Qed.

Section InsertEffects.

Variable Bytes : Type.
Variable parse : Bytes -> option Element.
Variable serialize : Element -> Bytes.
Variable ts : nat -> string.

(** X15: a successful insertion adds the new text right after one
    occurrence of the anchor in the text of the document and changes
    nothing else of that text. *)
Theorem X15_insert_keeps_text
    (folder : Folder Bytes) (b : Bytes) (root : Element)
    (after_text new_text author : string) (track_changes : bool) :
  after_text <> EmptyString ->
  document_xml Bytes folder = Some b ->
  parse b = Some root ->
  fst (insert_text_after Bytes parse serialize ts folder after_text new_text
                         track_changes author) = Ok true ->
  exists root' x y,
    document_xml Bytes
      (snd (insert_text_after Bytes parse serialize ts folder after_text new_text
                              track_changes author))
    = Some (serialize root') /\
    get_text_content root = (x ++ after_text ++ y)%string /\
    get_text_content root' = (x ++ after_text ++ new_text ++ y)%string.
Proof.
  intros Hne Hd Hp Ht.
  destruct (insert_true_inv Bytes parse serialize ts folder b root after_text
              new_text author track_changes Hne Hd Hp Ht)
    as (folder1 & p & parent & i & run & before & after & He & Sp & Hn & Hx & R).
  rewrite R. cbn [snd save_document document_xml].
  match goal with
  | |- context [update_at p (fun x => set_children x ?l) root] =>
      destruct (text_update_children l p root parent Sp) as (L & Rt & E1 & E2)
  end.
  eexists. exists (L ++ texts (firstn i (children parent)) ++ before)%string,
             (after ++ texts (skipn (S i) (children parent)) ++ Rt)%string.
  split; [reflexivity|]. split.
  - rewrite E1, (texts_split _ _ _ Hn), Hx. now rewrite !append_assoc.
  - rewrite E2, !texts_app, !texts_cons, texts_nil, texts_plain_run.
    rewrite get_text_content_run, get_text_content_inserted.
    now rewrite ?append_assoc, ?append_nil_r.
Qed.

Lemma cnt_inserted (z : Z) (x author : string) (tc : bool) (n : Z) :
  cnt z (inserted ts x author tc n)
  = if tc then count_occ Z.eq_dec [n] z else 0.
Proof.
  unfold inserted. destruct tc.
  - apply cnt_of_ids, change_ids_insertion.
  - apply (cnt_of_ids z _ []), change_ids_run.
Qed.

Lemma insert_ids
    (folder : Folder Bytes) (b : Bytes) (root : Element)
    (after_text new_text author : string) (track_changes : bool) :
  after_text <> EmptyString ->
  document_xml Bytes folder = Some b ->
  parse b = Some root ->
  fst (insert_text_after Bytes parse serialize ts folder after_text new_text
                         track_changes author) = Ok true ->
  exists root',
    document_xml Bytes
      (snd (insert_text_after Bytes parse serialize ts folder after_text new_text
                              track_changes author))
    = Some (serialize root') /\
    (forall z, cnt z root'
               <= cnt z root
                  + if track_changes
                    then count_occ Z.eq_dec [get_next_change_id root] z
                    else 0) /\
    (track_changes = true -> In (get_next_change_id root) (change_ids root')) /\
    (readable root = true ->
     (track_changes = true -> PyInt.printable (get_next_change_id root)) ->
     readable root' = true).
Proof.
  intros Hne Hd Hp Ht.
  destruct (insert_true_inv Bytes parse serialize ts folder b root after_text
              new_text author track_changes Hne Hd Hp Ht)
    as (folder1 & p & parent & i & run & before & after & He & Sp & Hn & Hx & R).
  rewrite R. cbn [snd save_document document_xml].
  eexists. split; [reflexivity|].
  assert (Rd : readable root = true ->
               (track_changes = true ->
                PyInt.printable (get_next_change_id root)) ->
               readable
                 (update_at p
                    (fun x => set_children x
                       (firstn i (children parent)
                        ++ [create_run (before ++ after_text)%string false false;
                            inserted ts new_text author track_changes
                              (if track_changes then get_next_change_id root
                               else 0%Z)]
                        ++ plain_run after
                        ++ skipn (S i) (children parent))) root) = true).
  { intros Hr Hn'.
    pose proof (readable_children parent (readable_subtree p root parent Sp Hr))
      as Hc.
    apply (readable_update_children _ p root parent Sp Hr).
    rewrite !forallb_app, forallb_firstn, forallb_skipn, readable_plain_run
      by exact Hc.
    cbn [forallb]. rewrite readable_run, readable_inserted; [reflexivity|].
    intro T. rewrite T in *. now apply Hn'. }
  assert (C : forall z,
             cnt z (update_at p
                      (fun x => set_children x
                         (firstn i (children parent)
                          ++ [create_run (before ++ after_text)%string false false;
                              inserted ts new_text author track_changes
                                (if track_changes then get_next_change_id root
                                 else 0%Z)]
                          ++ plain_run after
                          ++ skipn (S i) (children parent))) root)
             + cnt z run
             = cnt z root
               + if track_changes
                 then count_occ Z.eq_dec [get_next_change_id root] z else 0).
  { intro z.
    match goal with
    | |- context [update_at p (fun x => set_children x ?l) root] =>
        pose proof (cnt_update_children z l p root parent Sp) as U
    end.
    rewrite (cnts_split z _ _ _ Hn) in U.
    rewrite !cnts_app, !cnts_cons, cnts_nil, cnts_plain_run in U.
    rewrite (cnt_of_ids z _ [] (change_ids_run _ false false)) in U.
    rewrite cnt_inserted in U. change (count_occ Z.eq_dec [] z) with 0 in U.
    destruct track_changes; lia. }
  split; [|split; [|exact Rd]].
  - intro z. specialize (C z). lia.
  - intros ->. specialize (C (get_next_change_id root)).
    apply (count_occ_In Z.eq_dec).
    match goal with
    | |- count_occ _ (change_ids ?r) ?n > 0 => change (cnt n r > 0)
    end.
    assert (Lr : cnt (get_next_change_id root) run
                 <= cnt (get_next_change_id root) root).
    { assert (G : forall q e x, subtree e q = Some x ->
                    cnt (get_next_change_id root) x
                    <= cnt (get_next_change_id root) e).
      { induction q as [|j q IH]; intros e x H; simpl in H.
        - injection H as <-. lia.
        - destruct (nth_error (children e) j) as [c|] eqn:Nc; [|discriminate].
          specialize (IH c x H). rewrite (cnt_unfold _ e).
          rewrite (cnts_split _ _ _ _ Nc). lia. }
      specialize (G (p ++ [i]) root run).
      apply G. rewrite subtree_app, Sp. simpl. now rewrite Hn. }
    cbn [count_occ] in C.
    destruct (Z.eq_dec (get_next_change_id root) (get_next_change_id root));
      [|contradiction].
    lia.
Qed.

End InsertEffects.

(** ** What has been inserted is found *)

Lemma tag_update_children (l : list Element) (q : Path) (e : Element) :
  tag (update_at q (fun x => set_children x l) e) = tag e.
Proof. destruct q, e; reflexivity. Qed.

Lemma contains_self (s : string) : PyStr.contains s s = true.
Proof.
  apply contains_spec. exists "", "". cbn [String.append]. now rewrite append_nil_r.
Qed.

Lemma nth_error_second {A} (a rest : list A) (x y : A) :
  nth_error (a ++ [x; y] ++ rest) (S (List.length a)) = Some y.
Proof. induction a as [|z a IH]; [reflexivity | exact IH]. Qed.

Section InsertThenFind.

Variable Bytes : Type.
Variable parse : Bytes -> option Element.
Variable serialize : Element -> Bytes.
Variable ts : nat -> string.

(** X17: what has been inserted is found: after a successful
    insertion [find_text] has a hit for the new text in the saved tree,
    at the run made for it. *)
Theorem X17_insert_then_find
    (folder : Folder Bytes) (b : Bytes) (root : Element)
    (after_text new_text author : string) (track_changes : bool) :
  after_text <> EmptyString ->
  document_xml Bytes folder = Some b ->
  parse b = Some root ->
  fst (insert_text_after Bytes parse serialize ts folder after_text new_text
                         track_changes author) = Ok true ->
  exists root' pp para pr,
    document_xml Bytes
      (snd (insert_text_after Bytes parse serialize ts folder after_text new_text
                              track_changes author))
    = Some (serialize root') /\
    In ((pp, para), (pr, create_run new_text false false))
       (find_text root' new_text).
Proof.
  intros Hne Hd Hp Ht.
  destruct (insert_true_para Bytes parse serialize ts folder b root after_text
              new_text author track_changes Hne Hd Hp Ht)
    as (folder1 & pp & para & q & parent & i & run & before & after
        & He & Ip & Sq & Hn & Hx & R).
  rewrite R. cbn [snd save_document document_xml].
  set (l := firstn i (children parent)
            ++ [create_run (before ++ after_text)%string false false;
                inserted ts new_text author track_changes
                  (if track_changes then get_next_change_id root else 0%Z)]
            ++ plain_run after ++ skipn (S i) (children parent)).
  set (g := fun x : Element => set_children x l).
  apply iter_located_In in Ip. destruct Ip as [Lp Tp].
  pose proof (located_subtree root pp para Lp) as Sp.
  assert (Sp' : subtree (update_at (pp ++ q) g root) pp
                = Some (update_at q g para)).
  { rewrite update_at_app.
    exact (subtree_update_self (update_at q g) pp root para Sp). }
  assert (Li : List.length (firstn i (children parent)) = i).
  { apply firstn_length_le. apply Nat.lt_le_incl, nth_error_Some.
    rewrite Hn. discriminate. }
  assert (Sn : subtree (update_at q g para) (q ++ [S i])
               = Some (inserted ts new_text author track_changes
                         (if track_changes then get_next_change_id root
                          else 0%Z))).
  { rewrite (subtree_update_under g q [S i] para parent Sq).
    unfold g. cbn [subtree]. rewrite children_set_children. unfold l.
    match goal with
    | |- context [nth_error (?a ++ [?x; ?y] ++ ?r) _] =>
        pose proof (nth_error_second a r x y) as E
    end.
    rewrite Li in E. now rewrite E. }
  exists (update_at (pp ++ q) g root), pp, (update_at q g para).
  exists (q ++ [S i] ++ if track_changes then [0] else []).
  split; [reflexivity|].
  apply find_text_In. split; [|split].
  - apply iter_located_In. split.
    + now apply located_complete.
    + unfold g. now rewrite tag_update_children.
  - apply iter_located_In. split; [|destruct new_text; reflexivity].
    apply located_complete. rewrite app_assoc, subtree_app, Sn.
    unfold inserted. destruct track_changes; reflexivity.
  - rewrite get_text_content_run. apply contains_self.
Qed.

End InsertThenFind.

(** ** The empty search text *)

Lemma contains_empty (s : string) : PyStr.contains "" s = true.
Proof. unfold PyStr.contains. now destruct s. Qed.

Lemma iter_unfold (t : string) (e : Element) :
  iter t e = (if String.eqb (tag e) t then [e] else [])
             ++ flat_map (iter t) (children e).
Proof.
  unfold iter at 1. rewrite iter_all_unfold. cbn [filter].
  assert (E : filter (fun x => String.eqb (tag x) t) (flat_map iter_all (children e))
              = flat_map (iter t) (children e)).
  { induction (children e) as [|c cs IH]; [reflexivity|].
    cbn [flat_map]. now rewrite filter_app, IH. }
  rewrite E. now destruct (String.eqb (tag e) t).
Qed.

Lemma has_run_unfold (e : Element) :
  has_run e
  = (is_paragraph e && match iter (w "r") e with [] => false | _ :: _ => true end)
    || existsb has_run (children e).
Proof.
  unfold has_run at 1. rewrite iter_unfold, existsb_app. f_equal.
  - unfold is_paragraph. destruct (String.eqb (tag e) (w "p")); [|reflexivity].
    cbn [existsb andb]. apply orb_false_r.
  - induction (children e) as [|c cs IH]; [reflexivity|].
    cbn [flat_map existsb]. now rewrite existsb_app, IH.
Qed.

Lemma has_run_find_text (root : Element) :
  has_run root = false <-> find_text root "" = [].
Proof.
  rewrite find_text_nil. unfold has_run, find_paragraphs, find_runs. split.
  - intros H para run Hp Hr.
    assert (E : existsb (fun p => match iter (w "r") p with
                                  | [] => false | _ :: _ => true end)
                        (iter (w "p") root) = true).
    { apply existsb_exists. exists para. split; [assumption|].
      destruct (iter (w "r") para); [contradiction | reflexivity]. }
    congruence.
  - intro H.
    destruct (existsb _ (iter (w "p") root)) eqn:E; [|reflexivity].
    apply existsb_exists in E. destruct E as (para & Hp & Hr).
    destruct (iter (w "r") para) as [|run l] eqn:R; [discriminate|].
    assert (C : PyStr.contains "" (get_text_content run) = false).
    { apply (H para run Hp). rewrite R. now left. }
    rewrite contains_empty in C. discriminate.
Qed.

Section EmptyFind.

Variable ts : nat -> string.
Variables (replace_with author : string).

Local Abbreviation visit := (replace_from ts "" replace_with author true).

Lemma replace_in_paragraph_empty (para : Element) (st : EditState) :
  is_paragraph para = true ->
  replace_in_paragraph ts "" replace_with author true para st
  = match iter (w "r") para with
    | [] => Ok (para, st)
    | _ :: _ => Raise ValueError
    end.
Proof.
  intro P. unfold replace_in_paragraph. rewrite contains_empty. cbn [negb].
  unfold iter_paths. rewrite <- (iter_located_snd (w "r") para).
  destruct (iter_located (w "r") para) as [|[p run] l] eqn:E; [reflexivity|].
  assert (S : subtree para p = Some run /\ tag run = w "r").
  { apply iter_located_subtree. rewrite E. now left. }
  destruct S as [S T].
  cbn [map fst replace_in_runs resolve]. rewrite S, contains_empty. cbn [negb].
  destruct (split_last p) as [[q i]|]; [|reflexivity].
  reflexivity.
Qed.

Lemma replace_from_empty (fuel : nat) :
  forall e st,
    paragraph_depth e <= fuel ->
    visit fuel e st
    = if has_run e then Some (Raise ValueError) else Some (Ok (e, st)).
Proof.
  induction fuel as [|k IH]; intros e st D; rewrite replace_from_unfold;
    destruct (has_paragraph e) eqn:Hp; cbn [negb].
  - apply has_paragraph_depth in Hp. lia.
  - replace (has_run e) with false; [reflexivity|].
    symmetry. unfold has_run.
    destruct (existsb _ (iter (w "p") e)) eqn:E; [|reflexivity].
    apply existsb_exists in E. destruct E as (p & Ip & _).
    apply iter_In in Ip. destruct Ip as [Ip Tp].
    unfold has_paragraph in Hp.
    assert (X : existsb is_paragraph (iter_all e) = true).
    { apply existsb_exists. exists p. split; [assumption|].
      unfold is_paragraph. now apply String.eqb_eq. }
    congruence.
  - apply has_paragraph_depth in Hp.
    rewrite has_run_unfold.
    assert (C : forall cs st0,
               (forall c, In c cs -> In c (children e)) ->
               replace_children (visit k) cs st0
               = if existsb has_run cs then Some (Raise ValueError)
                 else Some (Ok (cs, st0))).
    { induction cs as [|c cs IHcs]; intros st0 Sub; [reflexivity|].
      cbn [replace_children existsb]. rewrite IH.
      2:{ pose proof (max_depth_child c (children e) (Sub c (or_introl eq_refl))).
          lia. }
      destruct (has_run c); [reflexivity|]. cbn [orb].
      rewrite IHcs by (intros; apply Sub; now right).
      now destruct (existsb has_run cs). }
    destruct (is_paragraph e) eqn:P.
    + rewrite (replace_in_paragraph_empty e st P).
      destruct (iter (w "r") e); [|reflexivity].
      cbn [andb orb]. rewrite C by auto.
      destruct (existsb has_run (children e)); [reflexivity|].
      now rewrite set_children_same.
    + cbn [andb orb]. rewrite C by auto.
      destruct (existsb has_run (children e)); [reflexivity|].
      now rewrite set_children_same.
  - replace (has_run e) with false; [reflexivity|].
    symmetry. unfold has_run.
    destruct (existsb _ (iter (w "p") e)) eqn:E; [|reflexivity].
    apply existsb_exists in E. destruct E as (p & Ip & _).
    apply iter_In in Ip. destruct Ip as [Ip Tp].
    unfold has_paragraph in Hp.
    assert (X : existsb is_paragraph (iter_all e) = true).
    { apply existsb_exists. exists p. split; [assumption|].
      unfold is_paragraph. now apply String.eqb_eq. }
    congruence.
Qed.

End EmptyFind.

Section EmptyText.

Variable Bytes : Type.
Variable parse : Bytes -> option Element.
Variable serialize : Element -> Bytes.
Variable ts : nat -> string.

(** X19: tracked replace of the empty text raises [ValueError] as soon
    as some paragraph has a run, with the settings part written and the
    document part not; when no paragraph has a run it returns 0 and
    saves the tree as it is. *)
Theorem X19_replace_empty_tracked
    (folder folder1 : Folder Bytes) (b : Bytes) (root : Element)
    (replace_with author : string) :
  document_xml Bytes folder = Some b ->
  parse b = Some root ->
  enable_track_changes Bytes parse serialize folder = Ok folder1 ->
  replace_text Bytes parse serialize ts folder "" replace_with true author
  = match find_text root "" with
    | [] => (Ok 0, save_document Bytes serialize root folder1)
    | _ :: _ => (Raise ValueError, folder1)
    end.
Proof.
  intros Hd Hp He. unfold replace_text, parse_document. rewrite Hd, Hp, He.
  rewrite replace_from_empty by apply le_n.
  pose proof (has_run_find_text root) as F.
  destruct (has_run root), (find_text root ""); try reflexivity.
  - destruct F as [_ F]. specialize (F eq_refl). discriminate.
  - destruct F as [F _]. specialize (F eq_refl). discriminate.
Qed.

(** X18: with the empty anchor [insert_text_after] raises [ValueError]
    as soon as some paragraph has a run, whatever the text of the run;
    it returns [False] when no paragraph has one.  The document part is
    not written either way. *)
Theorem X18_insert_empty_anchor
    (folder folder1 : Folder Bytes) (b : Bytes) (root : Element)
    (new_text author : string) (track_changes : bool) :
  document_xml Bytes folder = Some b ->
  parse b = Some root ->
  (if track_changes then enable_track_changes Bytes parse serialize folder
   else Ok folder) = Ok folder1 ->
  insert_text_after Bytes parse serialize ts folder "" new_text
                    track_changes author
  = match find_text root "" with
    | [] => (Ok false, folder1)
    | _ :: _ => (Raise ValueError, folder1)
    end.
Proof.
  intros Hd Hp He. unfold insert_text_after, parse_document.
  rewrite Hd, Hp, He.
  destruct (find_text root "") as [|[[pp para] [pr run]] l] eqn:E.
  - rewrite insert_in_paragraphs_none; [reflexivity|].
    intros para run Hpara Hrun. rewrite find_text_nil in E.
    apply (E para run); [|exact Hrun].
    unfold find_paragraphs. now rewrite <- iter_located_snd.
  - assert (I : In ((pp, para), (pr, run)) (find_text root ""))
      by (rewrite E; now left).
    apply find_text_In in I. destruct I as (H1 & H2 & C).
    assert (M : existsb (paragraph_matches "") (iter_located (w "p") root) = true).
    { apply existsb_exists. exists (pp, para). split; [assumption|].
      apply existsb_exists. exists (pr, run). split; [assumption|].
      apply contains_empty. }
    apply first_match in M. destruct M as (p1 & [pp' para'] & p2 & LP & NP & MP).
    rewrite LP, insert_in_paragraphs_first by assumption.
    unfold paragraph_matches in MP. cbn [snd] in MP.
    apply first_match in MP. destruct MP as (r1 & [pr' run'] & r2 & LR & NR & CR).
    rewrite LR, insert_in_runs_first by (auto; apply contains_empty).
    unfold insert_at_run.
    destruct (split_last pr') as [[q i]|]; reflexivity.
Qed.

End EmptyText.

(** ** The identifiers handed out are in the tree *)

Section Present.

Variable ts : nat -> string.
Variables (s replace_with author : string).

Local Abbreviation ed := (edited ts s replace_with author true).
Local Abbreviation edl := (edited_list ts s replace_with author true ed).
Local Abbreviation edd := (edited_doc ts s replace_with author true).

Lemma holds_refl (st : EditState) (l : list Element) : holds st st l.
Proof. split; [lia|]. intro z. rewrite handed_out_none. lia. Qed.

Lemma holds_app (st st1 st2 : EditState) (a b : list Element) :
  holds st st1 a -> holds st1 st2 b -> holds st st2 (a ++ b).
Proof.
  intros [A1 A2] [B1 B2]. split; [lia|]. intro z.
  rewrite cnts_app, <- (handed_out_add _ _ _ z A1 B1).
  specialize (A2 z). specialize (B2 z). lia.
Qed.

Lemma replaced_run_holds (c : Element) (st : EditState) :
  holds st (snd (replaced_run ts s replace_with author true c st))
        (fst (replaced_run ts s replace_with author true c st)).
Proof.
  unfold replaced_run.
  destruct (PyStr.find s (get_text_content c)) as [[b a]|]; cbn [fst snd].
  - split; [cbn [change_id]; lia|]. intro z. cbn [change_id].
    rewrite !cnts_app, !cnts_cons, cnts_nil.
    rewrite (cnt_of_ids z _ _ (change_ids_deletion s author (change_id st) _)).
    rewrite (cnt_of_ids z _ _ (change_ids_insertion replace_with author
                                 (change_id st + 1) _)).
    pose proof (handed_out_two (change_id st) z). lia.
  - apply holds_refl.
Qed.

Lemma holds_element (st st' : EditState) (e : Element) (l : list Element) :
  holds st st' l -> holds st st' [set_children e l].
Proof.
  intros [A1 A2]. split; [exact A1|]. intro z. specialize (A2 z).
  rewrite cnts_cons, cnts_nil, cnt_unfold, children_set_children. lia.
Qed.

Lemma edited_holds (e : Element) :
  forall st, holds st (snd (ed e st)) [fst (ed e st)].
Proof.
  induction e as [t a tx tl cs IH] using Element_ind. intro st.
  rewrite edited_unfold. cbn [fst snd children]. apply holds_element.
  clear t a tx tl. revert st.
  induction IH as [|c cs Hc _ IHcs]; intro st; [apply holds_refl|].
  destruct (matches s c) eqn:M.
  - rewrite (edited_list_match ts s replace_with author true c cs st M).
    cbn [fst snd]. eapply holds_app; [apply replaced_run_holds | apply IHcs].
  - rewrite (edited_list_other ts s replace_with author true c cs st M).
    cbn [fst snd].
    change (fst (ed c st) :: fst (edl cs (snd (ed c st))))
      with ([fst (ed c st)] ++ fst (edl cs (snd (ed c st)))).
    eapply holds_app; [apply Hc | apply IHcs].
Qed.

Lemma edited_doc_holds (e : Element) :
  forall st, holds st (snd (edd e st)) [fst (edd e st)].
Proof.
  induction e as [t a tx tl cs IH] using Element_ind. intro st.
  rewrite edited_doc_unfold.
  destruct (is_paragraph (mkElement t a tx tl cs)); [apply edited_holds|].
  cbn [fst snd children]. apply holds_element.
  clear t a tx tl. revert st.
  induction IH as [|c cs Hc _ IHcs]; intro st; [apply holds_refl|].
  cbn [in_turn].
  specialize (Hc st). destruct (edd c st) as [c' st1]. cbn [fst snd] in Hc.
  specialize (IHcs st1). destruct (in_turn edd cs st1) as [l st2].
  cbn [fst snd] in *.
  change (c' :: l) with ([c'] ++ l). eapply holds_app; eauto.
Qed.

End Present.

(** ** Readable trees under a tracked replace *)

Section ReadableEdit.

Variable ts : nat -> string.
Variables (s replace_with author : string).

Local Abbreviation ed := (edited ts s replace_with author true).
Local Abbreviation edl := (edited_list ts s replace_with author true ed).
Local Abbreviation edd := (edited_doc ts s replace_with author true).
Local Abbreviation limit := (10 ^ PyInt.max_str_digits)%Z.

Lemma printable_between (n : Z) : (0 <= n < limit)%Z -> PyInt.printable n.
Proof. unfold PyInt.printable. lia. Qed.

Lemma replaced_run_readable (c : Element) (st : EditState) :
  (0 <= change_id st)%Z ->
  (change_id (snd (replaced_run ts s replace_with author true c st)) <= limit)%Z ->
  readable c = true ->
  forallb readable (fst (replaced_run ts s replace_with author true c st)) = true.
Proof.
  unfold replaced_run.
  destruct (PyStr.find s (get_text_content c)) as [[b a]|]; cbn [fst snd].
  - cbn [change_id]. intros H0 H1 _.
    rewrite !forallb_app, !readable_plain_run. cbn [forallb].
    rewrite readable_deletion, readable_insertion
      by (apply printable_between; lia).
    reflexivity.
  - intros _ _ H. cbn [forallb]. now rewrite H.
Qed.

Lemma edited_list_grows (cs : list Element) (st : EditState) :
  (change_id st <= change_id (snd (edl cs st)))%Z.
Proof.
  pose proof (edited_holds ts s replace_with author
                (mkElement EmptyString [] None None cs) st) as [H _].
  now rewrite edited_unfold in H.
Qed.

Lemma edited_readable (e : Element) :
  forall st,
    (0 <= change_id st)%Z -> (change_id (snd (ed e st)) <= limit)%Z ->
    readable e = true -> readable (fst (ed e st)) = true.
Proof.
  induction e as [t a tx tl cs IH] using Element_ind. intros st H0 H1 Hr.
  rewrite edited_unfold in *. cbn [fst snd children] in *.
  apply readable_set_children; [exact Hr|].
  apply readable_children in Hr. cbn [children] in Hr.
  clear t a tx tl. revert st H0 H1 Hr.
  induction IH as [|c cs Hc _ IHcs]; intros st H0 H1 Hr; [reflexivity|].
  cbn [forallb] in Hr. apply andb_true_iff in Hr. destruct Hr as [Rc Rcs].
  destruct (matches s c) eqn:M.
  - rewrite (edited_list_match ts s replace_with author true c cs st M) in *.
    cbn [fst snd] in *.
    pose proof (replaced_run_holds ts s replace_with author c st) as [G _].
    pose proof (edited_list_grows cs
                  (snd (replaced_run ts s replace_with author true c st))) as G'.
    rewrite forallb_app, replaced_run_readable by (assumption || lia).
    apply IHcs; [lia | assumption | assumption].
  - rewrite (edited_list_other ts s replace_with author true c cs st M) in *.
    cbn [fst snd] in *.
    pose proof (edited_holds ts s replace_with author c st) as [G _].
    pose proof (edited_list_grows cs (snd (ed c st))) as G'.
    cbn [forallb]. rewrite Hc by (assumption || lia).
    apply IHcs; [lia | assumption | assumption].
Qed.

Lemma in_turn_grows (cs : list Element) (st : EditState) :
  (change_id st <= change_id (snd (in_turn edd cs st)))%Z.
Proof.
  pose proof (edited_doc_holds ts s replace_with author
                (mkElement EmptyString [] None None cs) st) as [H _].
  now rewrite edited_doc_unfold in H.
Qed.

Lemma edited_doc_readable (e : Element) :
  forall st,
    (0 <= change_id st)%Z -> (change_id (snd (edd e st)) <= limit)%Z ->
    readable e = true -> readable (fst (edd e st)) = true.
Proof.
  induction e as [t a tx tl cs IH] using Element_ind. intros st H0 H1 Hr.
  rewrite edited_doc_unfold in *.
  destruct (is_paragraph (mkElement t a tx tl cs));
    [now apply edited_readable|].
  cbn [fst snd children] in *.
  apply readable_set_children; [exact Hr|].
  apply readable_children in Hr. cbn [children] in Hr.
  clear t a tx tl. revert st H0 H1 Hr.
  induction IH as [|c cs Hc _ IHcs]; intros st H0 H1 Hr; [reflexivity|].
  cbn [forallb] in Hr. apply andb_true_iff in Hr. destruct Hr as [Rc Rcs].
  pose proof (edited_doc_holds ts s replace_with author c st) as [G _].
  pose proof (in_turn_grows cs (snd (edd c st))) as G'.
  cbn [in_turn] in *.
  specialize (Hc st). specialize (IHcs (snd (edd c st))).
  destruct (edd c st) as [c' st1]. cbn [fst snd] in *.
  destruct (in_turn edd cs st1) as [l st2]. cbn [fst snd forallb] in *.
  rewrite Hc by (assumption || lia).
  apply IHcs; [lia | assumption | assumption].
Qed.

End ReadableEdit.

Section Continue.

Variable Bytes : Type.
Variable parse : Bytes -> option Element.
Variable serialize : Element -> Bytes.
Variable ts : nat -> string.


End Continue.

(** ** The command line *)

Section MainFacts.

Variable Bytes : Type.
Variable parse : Bytes -> option Element.
Variable serialize : Element -> Bytes.
Variable ts : nat -> string.
Variable describe : Error -> string.

Local Abbreviation main' := (main Bytes parse serialize ts describe).

Lemma exit_with_orderly (line : string) (world : option (Folder Bytes)) :
  orderly world (exit_with Bytes line world).
Proof. right. split; [now exists line | reflexivity]. Qed.

Lemma report_orderly {A} (path : string) (folder : Folder Bytes)
      (outcome : result A * Folder Bytes) (line : A -> string) :
  (forall e, fst outcome = Raise e ->
             document_xml Bytes (snd outcome) = document_xml Bytes folder) ->
  orderly (Some folder) (report Bytes describe path outcome line).
Proof.
  destruct outcome as [[v|e] folder']; intro H; cbn [report].
  - left. eexists. reflexivity.
  - right. split; [eexists; reflexivity|]. cbn. exact (H e eq_refl).
Qed.


(** X22: when the folder is missing, or an argument the action needs is
    missing or empty, [main] ends with status 1 and one line on
    [stderr], and nothing has been read or written: not the settings
    part either, whatever [--track-changes]. *)
Theorem X22_main_rejects (args : Args) (world : option (Folder Bytes)) :
  world = None \/ complete args = false ->
  exists line, main' args world = (mkOutput [] [line] 1, world).
Proof.
  unfold main, complete, exit_with.
  destruct world as [folder|]; [|eauto].
  intros [H|H]; [discriminate|].
  destruct (args_action args).
  - destruct (args_find args) as [f|]; [|eauto]. cbn [given] in H.
    destruct (PyStr.truthy f); cbn [negb andb] in *; [|eauto].
    destruct (args_replace args); [discriminate | eauto].
  - destruct (args_after args) as [a|]; [|eauto]. cbn [given] in H.
    destruct (PyStr.truthy a); cbn [negb andb] in *; [|eauto].
    destruct (args_text args) as [t|]; [|eauto]. cbn [given] in H.
    destruct (PyStr.truthy t); cbn [negb]; [discriminate | eauto].
  - apply orb_false_iff in H. destruct H as [-> ->]. cbn. eauto.
Qed.

Lemma truthy_not_empty (s : string) : PyStr.truthy s = true <-> s <> EmptyString.
Proof. destruct s; simpl; split; congruence. Qed.

Lemma enable_parsable (folder : Folder Bytes) (tc : bool) :
  (tc = true -> forall sb, settings_xml Bytes folder = Some sb -> parse sb <> None) ->
  exists folder1,
    (if tc then enable_track_changes Bytes parse serialize folder else Ok folder)
    = Ok folder1.
Proof.
  intro H. destruct tc; [|eauto].
  destruct (enable_track_changes Bytes parse serialize folder) as [f1|e] eqn:E;
    [eauto|].
  apply enable_raises in E. destruct E as (_ & sb & Hs & Hp).
  now destruct (H eq_refl sb Hs).
Qed.




End MainFacts.

(** ** The name of an added sheet *)

Lemma str_in_In (x : string) (l : list string) : str_in x l = true <-> In x l.
Proof.
  unfold str_in. rewrite existsb_exists. split.
  - intros (y & Hy & E). apply String.eqb_eq in E. now subst.
  - intro H. exists x. split; [assumption | apply String.eqb_refl].
Qed.

Lemma str_injective (a b : Z) : PyInt.str a = PyInt.str b -> a = b.
Proof.
  intro H. pose proof (decimal_str a) as Ha. rewrite H, decimal_str in Ha.
  congruence.
Qed.

Lemma append_cancel (p a b : string) : (p ++ a)%string = (p ++ b)%string -> a = b.
Proof.
  induction p as [|c p IH]; simpl; intro H; [assumption|].
  injection H as H. now apply IH.
Qed.

Lemma numbered_injective (base_name : string) (j k : Z) :
  numbered base_name j = numbered base_name k -> j = k.
Proof.
  unfold numbered. intro H. apply append_cancel in H.
  injection H as H. now apply str_injective.
Qed.

Lemma numbered_from_In (base_name : string) (n : nat) :
  forall c x, In x (numbered_from base_name c n) ->
              exists k, (c <= k < c + Z.of_nat n)%Z /\ x = numbered base_name k.
Proof.
  induction n as [|n IH]; intros c x H; [contradiction|].
  destruct H as [<-|H].
  - exists c. split; [lia | reflexivity].
  - destruct (IH _ _ H) as (k & B & E). exists k. split; [lia | exact E].
Qed.

Lemma numbered_from_NoDup (base_name : string) (n : nat) :
  forall c, NoDup (numbered_from base_name c n).
Proof.
  induction n as [|n IH]; intro c; constructor; [|apply IH].
  intro H. apply numbered_from_In in H. destruct H as (k & B & E).
  apply numbered_injective in E. lia.
Qed.

Lemma numbered_from_length (base_name : string) (n : nat) (c : Z) :
  List.length (numbered_from base_name c n) = n.
Proof. revert c. induction n as [|n IH]; intro c; simpl; auto. Qed.

(** The loop from a state in which the numbers below [c] have been
    tried: with the names of [c], ..., [c + n - 1] not all taken it ends
    within [n] turns, at the first of them that is free. *)
Lemma rename_loop_ends (sheetnames : list string) (base_name : string) (n : nat) :
  forall fuel c sheet_name,
    n <= fuel ->
    ~ incl (sheet_name :: numbered_from base_name c n) sheetnames ->
    exists result,
      rename_loop fuel sheetnames base_name sheet_name c = Some result /\
      str_in result sheetnames = false /\
      (result = sheet_name \/
       exists k, (c <= k)%Z /\ result = numbered base_name k /\
                 str_in sheet_name sheetnames = true /\
                 forall j, (c <= j < k)%Z ->
                           str_in (numbered base_name j) sheetnames = true).
Proof.
  induction n as [|n IH]; intros fuel c sheet_name F N.
  - destruct (str_in sheet_name sheetnames) eqn:E.
    + exfalso. apply N. intros x [<-|[]]. now apply str_in_In.
    + exists sheet_name. destruct fuel; cbn [rename_loop]; rewrite E; auto.
  - destruct (str_in sheet_name sheetnames) eqn:E.
    + destruct fuel as [|fuel]; [lia|]. cbn [rename_loop]. rewrite E.
      destruct (IH fuel (c + 1)%Z (numbered base_name c)) as (r & R1 & R2 & R3).
      * lia.
      * intro I. apply N. intros x [<-|Hx]; [now apply str_in_In|].
        apply I. exact Hx.
      * exists r. fold (numbered base_name c). split; [exact R1|].
        split; [exact R2|]. right.
        destruct R3 as [->|(k & K1 & K2 & K3 & K4)].
        -- exists c. repeat split; auto; [lia|]. intros j J. lia.
        -- exists k. repeat split; auto; [lia|]. intros j J.
           destruct (Z.eq_dec j c) as [->|D]; [exact K3|]. apply K4. lia.
    + exists sheet_name. destruct fuel; cbn [rename_loop]; rewrite E; auto.
Qed.

Lemma not_all_taken (sheetnames : list string) (base_name : string) (c : Z) :
  ~ incl (numbered_from base_name c (S (List.length sheetnames))) sheetnames.
Proof.
  intro I.
  pose proof (NoDup_incl_length (numbered_from_NoDup base_name _ c) I) as L.
  rewrite numbered_from_length in L. lia.
Qed.

(** X26: the loop that names an added sheet ends, within as many turns
    as the workbook has sheets and one more, at a title that no sheet
    has: the wanted name if it is free, and otherwise the wanted name
    with the least number from 1 on for which the name is free. *)
Theorem X26_added_sheet_name (sheetnames : list string) (name : option string)
      (fuel : nat) :
  List.length sheetnames < fuel ->
  let wanted := match name with Some n => n | None => "Sheet" end in
  exists title,
    added_sheet_name fuel sheetnames name = Some title /\
    ~ In title sheetnames /\
    (~ In wanted sheetnames -> title = wanted) /\
    (In wanted sheetnames ->
     exists k, (1 <= k <= Z.of_nat (List.length sheetnames) + 1)%Z /\
               title = (wanted ++ "_" ++ PyInt.str k)%string /\
               forall j, (1 <= j < k)%Z ->
                         In (wanted ++ "_" ++ PyInt.str j)%string sheetnames).
Proof.
  intros F wanted. unfold added_sheet_name. fold wanted.
  destruct (str_in wanted sheetnames) eqn:E.
  - destruct (rename_loop_ends sheetnames wanted (S (List.length sheetnames))
                fuel 1%Z wanted) as (r & R1 & R2 & R3).
    + lia.
    + intro I. apply (not_all_taken sheetnames wanted 1%Z).
      intros x Hx. apply I. now right.
    + exists r. split; [exact R1|].
      assert (Nr : ~ In r sheetnames).
      { intro H. apply str_in_In in H. congruence. }
      split; [exact Nr|]. split.
      * intro H. apply str_in_In in E. contradiction.
      * intros _. destruct R3 as [->|(k & K1 & K2 & _ & K4)]; [congruence|].
        exists k. split; [|split; [exact K2|]].
        -- split; [lia|].
           destruct (Z_le_gt_dec k (Z.of_nat (List.length sheetnames) + 1));
             [assumption|].
           exfalso. apply (not_all_taken sheetnames wanted 1%Z).
           intros x Hx. apply numbered_from_In in Hx.
           destruct Hx as (j & J & ->). apply str_in_In. apply K4. lia.
        -- intros j J. apply str_in_In. now apply K4.
  - exists wanted. split; [reflexivity|].
    assert (Nw : ~ In wanted sheetnames).
    { intro H. apply str_in_In in H. congruence. }
    split; [exact Nw|]. split; [reflexivity | contradiction].
Qed.

(** ** Cell ranges *)

Lemma split_free (sep : ascii) (a : string) :
  free_of sep a -> PyText.split sep a = [a].
Proof.
  induction a as [|c a IH]; [reflexivity|]. intros [D F].
  cbn [PyText.split]. destruct (Ascii.eqb_spec c sep); [contradiction|].
  now rewrite IH.
Qed.

Lemma split_at (sep : ascii) (a r : string) :
  free_of sep a ->
  PyText.split sep (a ++ String sep r) = a :: PyText.split sep r.
Proof.
  induction a as [|c a IH].
  - intros _. cbn [String.append PyText.split]. now rewrite Ascii.eqb_refl.
  - intros [D F]. cbn [String.append PyText.split].
    destruct (Ascii.eqb_spec c sep); [contradiction|].
    now rewrite IH.
Qed.

Lemma split_not_nil (sep : ascii) (s : string) : PyText.split sep s <> [].
Proof.
  induction s as [|c s IH]; [discriminate|]. cbn [PyText.split].
  destruct (Ascii.eqb c sep); [discriminate|].
  destruct (PyText.split sep s); [contradiction | discriminate].
Qed.

Lemma contains_char_free (c : ascii) (s : string) :
  free_of c s -> PyStr.contains (String c "") s = false.
Proof.
  intro F. destruct (PyStr.contains (String c "") s) eqn:E; [|reflexivity].
  apply contains_spec in E. destruct E as (b & a & ->). exfalso.
  induction b as [|d b IH]; cbn [String.append free_of] in F.
  - now destruct F.
  - destruct F as [_ F]. now apply IH.
Qed.

Lemma contains_char_at (c : ascii) (a r : string) :
  PyStr.contains (String c "") (a ++ String c r) = true.
Proof. apply contains_spec. exists a, r. reflexivity. Qed.

(** X27: [parse_cell_range] by the number of colons: none, and both
    ends are the stripped text; one, and the ends are the stripped
    texts before and after it; two or more, and it raises
    [ValueError]. *)
Theorem X27_parse_cell_range (a b c : string) :
  free_of ":" a -> free_of ":" b ->
  parse_cell_range a = Ok (PyText.strip a, PyText.strip a) /\
  parse_cell_range (a ++ ":" ++ b) = Ok (PyText.strip a, PyText.strip b) /\
  parse_cell_range (a ++ ":" ++ b ++ ":" ++ c) = Raise ValueError.
Proof.
  intros Fa Fb. unfold parse_cell_range. repeat split.
  - now rewrite (contains_char_free ":" a Fa).
  - cbn [String.append]. rewrite contains_char_at, (split_at ":" a b Fa).
    now rewrite (split_free ":" b Fb).
  - cbn [String.append]. rewrite contains_char_at, (split_at ":" a _ Fa).
    rewrite (split_at ":" b c Fb).
    pose proof (split_not_nil ":" c).
    now destruct (PyText.split ":" c).
Qed.

(** ** The scan for error values *)

Lemma EXCEL_ERRORS_NoDup : NoDup EXCEL_ERRORS.
Proof.
  unfold EXCEL_ERRORS.
  repeat (constructor; [cbn [In]; intuition discriminate|]). constructor.
Qed.

Lemma append_location_keys (err loc : string) (d : list (string * list string)) :
  map fst (append_location err loc d) = map fst d.
Proof.
  unfold append_location. rewrite map_map. apply map_ext.
  intros [k v]. cbn [fst snd]. now destruct (String.eqb k err).
Qed.

Lemma located_cons (kv : string * list string) (d : list (string * list string)) :
  located (kv :: d) = List.length (snd kv) + located d.
Proof. reflexivity. Qed.

Lemma append_location_cons (err loc : string) (kv : string * list string)
      (d : list (string * list string)) :
  append_location err loc (kv :: d)
  = (if String.eqb (fst kv) err then (fst kv, snd kv ++ [loc]) else kv)
    :: append_location err loc d.
Proof. reflexivity. Qed.

Lemma append_location_absent (err loc : string) (d : list (string * list string)) :
  ~ In err (map fst d) -> located (append_location err loc d) = located d.
Proof.
  induction d as [|[k v] d IH]; [reflexivity|]. cbn [map fst In]. intro N.
  rewrite append_location_cons. cbn [fst snd].
  destruct (String.eqb_spec k err) as [->|D]; [tauto|].
  rewrite !located_cons. f_equal. apply IH. tauto.
Qed.

Lemma append_location_present (err loc : string) (d : list (string * list string)) :
  NoDup (map fst d) -> In err (map fst d) ->
  located (append_location err loc d) = S (located d).
Proof.
  induction d as [|[k v] d IH]; [contradiction|]. cbn [map fst].
  intros N I. inversion N as [|? ? Nk Nd]; subst.
  rewrite append_location_cons. cbn [fst snd].
  destruct (String.eqb_spec k err) as [->|D].
  - rewrite !located_cons. cbn [snd]. rewrite length_app. cbn [List.length].
    rewrite (append_location_absent err loc d Nk). lia.
  - destruct I as [E|I]; [contradiction|].
    rewrite !located_cons, (IH Nd I). lia.
Qed.

Lemma scan_cell_ok (sheet_name : string) (seen : list Cell)
      (acc : list (string * list string) * nat) (cell : Cell) :
  scan_ok seen acc -> scan_ok (seen ++ [cell]) (scan_cell sheet_name acc cell).
Proof.
  intros (K & L & T). unfold scan_ok.
  rewrite filter_app, length_app. cbn [filter].
  unfold scan_cell.
  assert (E : erroneous cell
              = match value cell with
                | StrValue v =>
                    existsb (fun err => PyStr.contains err v) EXCEL_ERRORS
                | _ => false
                end) by reflexivity.
  rewrite E. clear E.
  destruct (value cell) as [|v|]; cbn [List.length];
    try (repeat split; auto; lia).
  destruct (List.find (fun err => PyStr.contains err v) EXCEL_ERRORS)
    as [err|] eqn:F.
  - apply find_some in F. destruct F as [I C].
    assert (X : existsb (fun err => PyStr.contains err v) EXCEL_ERRORS = true).
    { apply existsb_exists. eauto. }
    rewrite X. cbn [fst snd List.length].
    rewrite append_location_keys. split; [exact K|]. split; [|lia].
    rewrite append_location_present; [lia | |]; rewrite K;
      [apply EXCEL_ERRORS_NoDup | exact I].
  - assert (X : existsb (fun err => PyStr.contains err v) EXCEL_ERRORS = false).
    { destruct (existsb _ EXCEL_ERRORS) eqn:E; [|reflexivity].
      apply existsb_exists in E. destruct E as (err & I & C).
      pose proof (find_none _ _ F err I) as N. cbv beta in N. congruence. }
    rewrite X. cbn [List.length]. repeat split; auto. lia.
Qed.

Lemma scan_row_ok (sheet_name : string) (row : list Cell) :
  forall seen acc,
    scan_ok seen acc ->
    scan_ok (seen ++ row) (fold_left (scan_cell sheet_name) row acc).
Proof.
  induction row as [|cell row IH]; intros seen acc H; cbn [fold_left].
  - now rewrite app_nil_r.
  - change (cell :: row) with ([cell] ++ row). rewrite app_assoc.
    apply IH. now apply scan_cell_ok.
Qed.

Lemma scan_rows_ok (sheet_name : string) (rows : list (list Cell)) :
  forall seen acc,
    scan_ok seen acc ->
    scan_ok (seen ++ List.concat rows)
            (fold_left (fun acc row => fold_left (scan_cell sheet_name) row acc)
                       rows acc).
Proof.
  induction rows as [|row rows IH]; intros seen acc H; cbn [fold_left List.concat].
  - now rewrite app_nil_r.
  - rewrite app_assoc. apply IH. now apply scan_row_ok.
Qed.

Lemma scan_sheets_ok (wb : Workbook) (names : list string) :
  forall seen acc,
    scan_ok seen acc ->
    scan_ok (seen ++ flat_map (fun sheet_name =>
                                 match sheet_named wb sheet_name with
                                 | Some ws => List.concat (iter_rows ws)
                                 | None => []
                                 end) names)
            (fold_left (scan_sheet wb) names acc).
Proof.
  induction names as [|name names IH]; intros seen acc H;
    cbn [fold_left flat_map].
  - now rewrite app_nil_r.
  - rewrite app_assoc. apply IH. unfold scan_sheet.
    destruct (sheet_named wb name) as [ws|].
    + now apply scan_rows_ok.
    + now rewrite app_nil_r.
Qed.

Lemma counted_summary (d : list (string * list string)) :
  counted (map (fun kv => (fst kv, (List.length (snd kv), firstn 20 (snd kv))))
               (filter (fun kv => match snd kv with
                                  | [] => false | _ :: _ => true end) d))
  = located d.
Proof.
  induction d as [|[k v] d IH]; [reflexivity|].
  cbn [filter snd]. rewrite located_cons. destruct v as [|x v].
  - exact IH.
  - cbn [map]. unfold counted in *. cbn [fold_right fst snd]. now rewrite IH.
Qed.


(** ** The helpers: properties, and sample values *)

(** X1: [find_text] returns exactly the pairs of a paragraph of the
    tree and a run inside that paragraph whose text contains the search
    text; the test of the paragraph's text drops none of them. *)
Theorem X1_find_text_hits (root : Element) (s : string)
        (pp pr : Path) (para run : Element) :
  In ((pp, para), (pr, run)) (find_text root s)
  <-> In (pp, para) (iter_located (w "p") root) /\
      In (pr, run) (iter_located (w "r") para) /\
      PyStr.contains s (get_text_content run) = true.
Proof. apply find_text_In. Qed.



Lemma reviewed_well_nested : well_nested reviewed.
Proof.
  intros x Hx. vm_compute in Hx. destruct Hx as [<-|[]].
  split; [vm_compute; reflexivity|].
  intros y Hy. vm_compute in Hy.
  destruct Hy as [<-|[<-|[<-|[]]]]; vm_compute; reflexivity.
Qed.



(** X4: [escape_xml_text] replaces every character by its entity, all
    at once: the five replacements made one after the other never
    escape what an earlier one has written. *)
Theorem X4_escape_per_character (s : string) :
  escape_xml_text s = each entity s.
Proof. apply escape_each. Qed.

Lemma list_ascii_app (a b : string) :
  list_ascii_of_string (a ++ b)
  = list_ascii_of_string a ++ list_ascii_of_string b.
Proof. induction a as [|c a IH]; [reflexivity|]. simpl. now rewrite IH. Qed.

Lemma entity_clean (c : ascii) :
  Forall (fun d => markup d = false) (list_ascii_of_string (entity c)).
Proof.
  entity_cases c; try (repeat constructor).
  unfold markup.
  repeat match goal with
         | |- context [Ascii.eqb c ?x] =>
             destruct (Ascii.eqb_spec c x); [contradiction|]
         end.
  reflexivity.
Qed.

(** X5: the escaped text holds none of the characters [<], [>], the
    double quote and the apostrophe. *)
Theorem X5_escape_no_markup (s : string) :
  Forall (fun c => c <> "<"%char /\ c <> ">"%char /\ c <> "034"%char
                   /\ c <> "'"%char)
         (list_ascii_of_string (escape_xml_text s)).
Proof.
  rewrite escape_each.
  assert (H : Forall (fun d => markup d = false)
                     (list_ascii_of_string (each entity s))).
  { induction s as [|c s IH]; [constructor|].
    cbn [each]. rewrite list_ascii_app. apply Forall_app. split; [|exact IH].
    apply entity_clean. }
  eapply Forall_impl; [|exact H]. intros c M. unfold markup in M.
  repeat split; intros ->; discriminate.
Qed.

(** X6: different texts have different escaped texts. *)
Theorem X6_escape_injective (s t : string) :
  escape_xml_text s = escape_xml_text t -> s = t.
Proof. rewrite !escape_each. apply each_entity_injective. Qed.

Lemma X6_escape_injective_witness :
  escape_xml_text "a<b" = "a&lt;b" /\ "a<b" = "a<b".
Proof.
  split; [reflexivity|].
  apply (X6_escape_injective "a<b" "a<b"). reflexivity.
Defined.

Lemma X7_rsid_eight_hex_digits_witness :
  generate_rsid (fun a b => b) = "FFFFFFFF" /\
  String.length (generate_rsid (fun a b => b)) = 8 /\
  hex_value 0 (generate_rsid (fun a b => b)) = Some 4294967295%Z.
Proof.
  split; [reflexivity|].
  apply (X7_rsid_eight_hex_digits (fun a b => b)). intros a b H. lia.
Defined.

(** X8: the text of a synthesized run, and of an insertion record, is
    the text it was made for, whatever the formatting; the text of a
    deletion record is empty: deleted text is not found again. *)
Theorem X8_synthesized_text (x author : string) (n : Z) (bold italic : bool)
        (ts : string) :
  get_text_content (create_run x bold italic) = x /\
  get_text_content (create_tracked_insertion x author n bold italic ts) = x /\
  get_text_content (create_tracked_deletion x author n ts) = EmptyString.
Proof.
  split; [apply get_text_content_run|].
  split; [apply get_text_content_insertion | apply get_text_content_deletion].
Qed.

(** X9: an ID the synthesizer has written is read by the allocator: in
    a tree that holds a record made with the ID [n], the next ID is
    greater than [n].  The IDs written are those [str] gives a text
    for, of at most 4300 digits. *)
Theorem X9_record_id_seen (root : Element) (x author : string) (n : Z)
        (bold italic : bool) (ts : string) :
  PyInt.printable n ->
  In (create_tracked_insertion x author n bold italic ts) (iter_all root) \/
  In (create_tracked_deletion x author n ts) (iter_all root) ->
  (n < get_next_change_id root)%Z.
Proof.
  intros Hn [H|H].
  - now apply (next_id_above root _ n H), read_value_insertion.
  - now apply (next_id_above root _ n H), read_value_deletion.
Qed.

Lemma X9_record_id_seen_witness :
  (41 < get_next_change_id
          (body [P [create_tracked_deletion "old" "A" 41 (stamp 0)]]))%Z.
Proof.
  apply (X9_record_id_seen _ "old" "A" 41 false false (stamp 0)).
  - vm_compute. reflexivity.
  - right. vm_compute. auto.
Defined.

(** X10: the text of an element is its own text, if it is a text leaf,
    followed by the texts of its children in their order; tails and the
    text of other elements do not count. *)
Theorem X10_text_of_element (e : Element) :
  get_text_content e
  = ((if String.eqb (tag e) (w "t") then text_part e else "")
     ++ texts (children e))%string.
Proof. apply get_text_content_unfold. Qed.

(** ** The settings part at sample values *)

Lemma X11_enable_twice_witness :
  enable_track_changes Element Some (fun e => e)
    (mkFolder Element (Some revenue) (Some plain_settings))
  = Ok (mkFolder Element (Some revenue)
          (Some (mkElement (w "settings") [] None None
                   [new_element (w "trackRevisions");
                    new_element (w "zoom")]))) /\
  enable_track_changes Element Some (fun e => e)
    (mkFolder Element (Some revenue)
       (Some (mkElement (w "settings") [] None None
                [new_element (w "trackRevisions"); new_element (w "zoom")])))
  = Ok (mkFolder Element (Some revenue)
          (Some (mkElement (w "settings") [] None None
                   [new_element (w "trackRevisions");
                    new_element (w "zoom")]))).
Proof.
  split; [reflexivity|].
  destruct (X11_enable_twice Element Some (fun e => e)
              (mkFolder Element (Some revenue) (Some plain_settings))
              (mkFolder Element (Some revenue)
                 (Some (mkElement (w "settings") [] None None
                          [new_element (w "trackRevisions");
                           new_element (w "zoom")])))
              plain_settings plain_settings eq_refl eq_refl eq_refl)
    as (settings & E & _ & _ & _ & Again).
  apply Again. reflexivity.
Defined.

Lemma X12_enable_keeps_settings_witness :
  exists settings,
    enable_track_changes Element Some (fun e => e)
      (mkFolder Element (Some revenue) (Some plain_settings))
    = Ok (mkFolder Element (Some revenue) (Some settings)) /\
    tag settings = tag plain_settings /\
    attrib settings = attrib plain_settings /\
    text settings = text plain_settings /\
    tail settings = tail plain_settings /\
    (find_descendant (w "trackRevisions") plain_settings <> None ->
     settings = plain_settings) /\
    (find_descendant (w "trackRevisions") plain_settings = None ->
     children settings
     = new_element (w "trackRevisions") :: children plain_settings).
Proof.
  apply (X12_enable_keeps_settings Element Some (fun e => e)
           (mkFolder Element (Some revenue) (Some plain_settings))
           plain_settings plain_settings); reflexivity.
Defined.

(** ** The operations: properties, and sample values *)


Lemma X15_insert_keeps_text_witness :
  exists root' x y,
    document_xml Element
      (snd (insert_text_after Element Some (fun e => e) stamp
              (mkFolder Element (Some revenue) None) "Rev" "XX" true "A"))
    = Some root' /\
    get_text_content revenue = (x ++ "Rev" ++ y)%string /\
    get_text_content root' = (x ++ "Rev" ++ "XX" ++ y)%string.
Proof.
  apply (X15_insert_keeps_text Element Some (fun e => e) stamp
           (mkFolder Element (Some revenue) None) revenue revenue
           "Rev" "XX" "A" true).
  - discriminate.
  - reflexivity.
  - reflexivity.
  - vm_compute. reflexivity.
Defined.

(** X16: in a tree in which no identifier has more than 4300 digits, a
    successful insertion keeps the identifiers unique and adds none but
    its own; a tracked one puts the next free identifier into the tree,
    and when that has at most 4300 digits as well, the allocator reads
    every identifier of the saved tree and continues one above it. *)
Theorem X16_insert_ids
    (Bytes : Type) (parse : Bytes -> option Element)
    (serialize : Element -> Bytes) (ts : nat -> string)
    (folder : Folder Bytes) (b : Bytes) (root : Element)
    (after_text new_text author : string) (track_changes : bool) :
  after_text <> EmptyString ->
  document_xml Bytes folder = Some b ->
  parse b = Some root ->
  NoDup (change_ids root) ->
  readable root = true ->
  fst (insert_text_after Bytes parse serialize ts folder after_text new_text
                         track_changes author) = Ok true ->
  exists root',
    document_xml Bytes
      (snd (insert_text_after Bytes parse serialize ts folder after_text new_text
                              track_changes author))
    = Some (serialize root') /\
    NoDup (change_ids root') /\
    (forall z, In z (change_ids root') ->
               In z (change_ids root) \/
               (track_changes = true /\ z = get_next_change_id root)) /\
    (track_changes = true ->
     In (get_next_change_id root) (change_ids root') /\
     (PyInt.printable (get_next_change_id root) ->
      readable root' = true /\
      get_next_change_id root' = (get_next_change_id root + 1)%Z)).
Proof.
  intros Hne Hd Hp N Hr Ht.
  destruct (insert_ids Bytes parse serialize ts folder b root after_text
              new_text author track_changes Hne Hd Hp Ht)
    as (root' & D & C & I & Rd).
  exists root'. split; [exact D|].
  pose proof (get_next_change_id_max0 root Hr) as Nx.
  assert (Old : cnt (get_next_change_id root) root = 0).
  { unfold cnt. apply count_occ_not_In. intro J.
    pose proof (max0_upper (change_ids root)) as U. rewrite Forall_forall in U.
    specialize (U _ J). lia. }
  assert (K : forall z, In z (change_ids root') ->
                        In z (change_ids root) \/
                        (track_changes = true /\ z = get_next_change_id root)).
  { intros z Hz. apply (count_occ_In Z.eq_dec) in Hz. specialize (C z).
    unfold cnt in C.
    destruct (in_dec Z.eq_dec z (change_ids root)) as [J|J]; [now left|].
    right. apply (count_occ_not_In Z.eq_dec) in J.
    destruct track_changes; [|lia]. split; [reflexivity|].
    cbn [count_occ] in C.
    destruct (Z.eq_dec (get_next_change_id root) z); [congruence | lia]. }
  split; [|split; [exact K|]].
  - apply (NoDup_count_occ Z.eq_dec). intro z. specialize (C z).
    rewrite (NoDup_count_occ Z.eq_dec) in N. specialize (N z).
    unfold cnt in C, Old. destruct track_changes; [|lia].
    cbn [count_occ] in C.
    destruct (Z.eq_dec (get_next_change_id root) z) as [<-|]; lia.
  - intro T. specialize (I T). split; [exact I|]. intro Pr.
    assert (Hr' : readable root' = true) by (apply Rd; auto).
    split; [exact Hr'|].
    rewrite (get_next_change_id_max0 root' Hr').
    pose proof (max0_upper (change_ids root')) as U. rewrite Forall_forall in U.
    pose proof (U _ I) as Lo.
    assert (Hi : (max0 (change_ids root') <= get_next_change_id root)%Z).
    { destruct (max0_attained (change_ids root')) as [Z0|J].
      - rewrite Z0.
        assert (0 <= max0 (change_ids root))%Z
          by (clear; induction (change_ids root); simpl; lia).
        lia.
      - destruct (K _ J) as [J'|[_ ->]]; [|lia].
        pose proof (max0_upper (change_ids root)) as U'.
        rewrite Forall_forall in U'. specialize (U' _ J'). lia. }
    lia.
Qed.

Lemma reviewed_ids : NoDup (change_ids reviewed).
Proof.
  assert (E : change_ids reviewed = [7%Z; 3%Z]) by (vm_compute; reflexivity).
  rewrite E. repeat constructor; simpl; intuition discriminate.
Qed.

Lemma X16_insert_ids_witness :
  exists root',
    document_xml Element
      (snd (insert_text_after Element Some (fun e => e) stamp
              (mkFolder Element (Some reviewed) None) "Rev" "XX" true "A"))
    = Some root' /\
    NoDup (change_ids root') /\
    In (get_next_change_id reviewed) (change_ids root') /\
    readable root' = true /\
    get_next_change_id root' = (get_next_change_id reviewed + 1)%Z.
Proof.
  destruct (X16_insert_ids Element Some (fun e => e) stamp
              (mkFolder Element (Some reviewed) None) reviewed reviewed
              "Rev" "XX" "A" true)
    as (root' & D & N & _ & T).
  - discriminate.
  - reflexivity.
  - reflexivity.
  - exact reviewed_ids.
  - reflexivity.
  - vm_compute. reflexivity.
  - destruct (T eq_refl) as (I & C).
    destruct C as (Hr & Nx); [vm_compute; reflexivity|].
    exists root'. auto.
Defined.

Lemma X17_insert_then_find_witness :
  exists root' pp para pr,
    document_xml Element
      (snd (insert_text_after Element Some (fun e => e) stamp
              (mkFolder Element (Some revenue) None) "Rev" "XX" true "A"))
    = Some root' /\
    In ((pp, para), (pr, create_run "XX" false false)) (find_text root' "XX").
Proof.
  apply (X17_insert_then_find Element Some (fun e => e) stamp
           (mkFolder Element (Some revenue) None) revenue revenue
           "Rev" "XX" "A" true).
  - discriminate.
  - reflexivity.
  - reflexivity.
  - vm_compute. reflexivity.
Defined.

Lemma X18_insert_empty_anchor_witness :
  insert_text_after Element Some (fun e => e) stamp
    (mkFolder Element (Some (body [P []])) None) "" "XX" false "A"
  = match find_text (body [P []]) "" with
    | [] => (Ok false, mkFolder Element (Some (body [P []])) None)
    | _ :: _ => (Raise ValueError, mkFolder Element (Some (body [P []])) None)
    end.
Proof.
  apply (X18_insert_empty_anchor Element Some (fun e => e) stamp
           (mkFolder Element (Some (body [P []])) None)
           (mkFolder Element (Some (body [P []])) None)
           (body [P []]) (body [P []]) "XX" "A" false); reflexivity.
Defined.

Lemma X19_replace_empty_tracked_witness :
  replace_text Element Some (fun e => e) stamp
    (mkFolder Element (Some revenue) None) "" "XX" true "A"
  = (Raise ValueError, mkFolder Element (Some revenue) (Some settings_on)).
Proof.
  apply (X19_replace_empty_tracked Element Some (fun e => e) stamp
           (mkFolder Element (Some revenue) None)
           (mkFolder Element (Some revenue) (Some settings_on))
           revenue revenue "XX" "A"); reflexivity.
Defined.


(** ** The command line at sample values *)

Lemma X22_main_rejects_witness :
  exists line,
    main Element Some (fun e => e) stamp no_text
         (mkArgs "unpacked" ActionInsert None None (Some "") (Some "XX") true
                 "Document Editor")
         (Some (mkFolder Element (Some revenue) None))
    = (mkOutput [] [line] 1, Some (mkFolder Element (Some revenue) None)).
Proof.
  apply (X22_main_rejects Element Some (fun e => e) stamp no_text).
  right. reflexivity.
Defined.


Lemma revenue_well_nested : well_nested revenue.
Proof.
  intros x Hx. vm_compute in Hx. destruct Hx as [<-|[]].
  split; [vm_compute; reflexivity|].
  intros y Hy. vm_compute in Hy.
  destruct Hy as [<-|[<-|[]]]; vm_compute; reflexivity.
Qed.



(** ** The spreadsheet scripts at sample values *)

Lemma X26_added_sheet_name_witness :
  added_sheet_name 3 ["Sheet"; "Sheet_1"] None = Some "Sheet_2" /\
  exists title,
    added_sheet_name 3 ["Sheet"; "Sheet_1"] None = Some title /\
    ~ In title ["Sheet"; "Sheet_1"] /\
    (~ In "Sheet" ["Sheet"; "Sheet_1"] -> title = "Sheet") /\
    (In "Sheet" ["Sheet"; "Sheet_1"] ->
     exists k, (1 <= k <= Z.of_nat (List.length ["Sheet"; "Sheet_1"]) + 1)%Z /\
               title = ("Sheet" ++ "_" ++ PyInt.str k)%string /\
               forall j, (1 <= j < k)%Z ->
                         In ("Sheet" ++ "_" ++ PyInt.str j)%string
                            ["Sheet"; "Sheet_1"]).
Proof.
  split; [reflexivity|].
  apply (X26_added_sheet_name ["Sheet"; "Sheet_1"] None 3). simpl. lia.
Defined.

Lemma X27_parse_cell_range_witness :
  parse_cell_range "A1" = Ok ("A1", "A1") /\
  parse_cell_range "A1: B5 " = Ok ("A1", "B5") /\
  parse_cell_range "A1: B5 :C7" = Raise ValueError.
Proof.
  apply (X27_parse_cell_range "A1" " B5 " "C7"); simpl; intuition discriminate.
Defined.

